(** * CV Lense resume screener: the document-to-candidate pipeline

    A shallow embedding of the core of [main.py]: the text extractor
    ([CVProcessor.parse_pdf]), the archive expander
    ([CVProcessor.unzip_pdfs]), the contact extractor
    ([CVProcessor.extract_contacts]), the scorer ([Ranker.score]) and the
    ranking pass ([CTkApp.rank_now]); and, around this core, the license
    manager ([LicenseManager]) and the methods of the window that load,
    queue, rank, filter and sort the candidates (module [Screen]).

    Conventions of the embedding.
    - A Python [str] is a [list ascii]; a character stands for the code
      point of the same number, so the texts covered are those over code
      points 0..255.  The character tables below ([lower], [isspace], the
      regular-expression classes) are CPython's on that range.
    - A Python [float] is an exact rational ([Q]) in the modules
      [Ranker], [Candidate], [CTkApp] and [Screen]: they cover the
      weights and scores that are numbers, and equality of scores is
      [Qeq].  The infinities and NaN, which [float] reads from the texts
      "inf" and "nan", are covered by the modules [PyFloat],
      [FloatRanker], [FloatCandidate] and [FloatCTkApp], which embed the
      scorer, the ranking pass, the filter and the sort once more, with
      [list.sort] as CPython runs it ([PyList.sort]); on numbers the two
      embeddings agree ([score_on_numbers], [rank_on_numbers],
      [shown_on_numbers]).  Rounding and overflow are outside the model
      throughout.
    - The disk that [unzip_pdfs] works on is a parameter of the
      embedding (the record [Disk]), each operation of which may raise;
      [files] is the disk of the examples.
    - A [dict] that the program iterates over is an association list in
      insertion order with unique keys; a [dict] that is only looked up is
      a [gmap]; a [set] is a [gset].
    - An exception is a value of the error side of [outcome]. *)

From Stdlib Require Import Ascii String List Bool Arith Lia QArith Qminmax.
From Stdlib Require Import Sorting.Sorted Sorting.Permutation DecimalString.
From stdpp Require Import base option gmap strings.
Import ListNotations.

Abbreviation str := (list ascii).

(** A string literal as a Python [str]. *)
Definition py (s : string) : str := list_ascii_of_string s.

(* ================================================================== *)
(** * Python strings                                                   *)
(* ================================================================== *)

Module PyStr.

Definition ord (c : ascii) : nat := nat_of_ascii c.
Definition chr (n : nat) : ascii := ascii_of_nat n.

Definition between (lo hi : nat) (c : ascii) : bool :=
  (lo <=? ord c) && (ord c <=? hi).

Definition is_char (x c : ascii) : bool := Ascii.eqb x c.

(** [A-Z], [a-z], [A-Za-z] and [0-9]. *)
Definition is_AZ : ascii -> bool := between 65 90.
Definition is_az : ascii -> bool := between 97 122.
Definition is_alpha (c : ascii) : bool := is_AZ c || is_az c.
Definition is_09 : ascii -> bool := between 48 57.

(** [str.isspace], which is also what [str.strip], [str.split] and the
    pattern [\s] use: TAB..CR, FS..US, space, NEL and NBSP. *)
Definition isspace (c : ascii) : bool :=
  between 9 13 c || between 28 32 c || (ord c =? 133) || (ord c =? 160).

(** [str.isdigit]: the decimal digits and the superscripts 2, 3 and 1. *)
Definition isdigit (c : ascii) : bool :=
  is_09 c || (ord c =? 178) || (ord c =? 179) || (ord c =? 185).

(** [str.lower] on one character: A..Z and the accented capitals
    0xC0..0xDE (the multiplication sign 0xD7 apart) move up by 32. *)
Definition lower_char (c : ascii) : ascii :=
  if is_AZ c || between 192 214 c || between 216 222 c
  then chr (ord c + 32) else c.

Definition lower (s : str) : str := map lower_char s.

(** [s.startswith(p)] *)
Fixpoint startswith (p s : str) : bool :=
  match p, s with
  | [], _ => true
  | _ :: _, [] => false
  | a :: p', b :: s' => Ascii.eqb a b && startswith p' s'
  end.

(** [s.endswith(p)] *)
Definition endswith (p s : str) : bool := startswith (rev p) (rev s).

(** [sub in s] *)
Fixpoint contains (sub s : str) : bool :=
  startswith sub s ||
  match s with
  | [] => false
  | _ :: s' => contains sub s'
  end.

(** [s.count(sub)]: the occurrences of [sub] found by scanning from the
    left and resuming after each one; the empty string is found between
    any two characters and at both ends.  [skip] is the number of
    characters of the occurrence just found that are still to be passed. *)
Fixpoint count_from (sub : str) (skip : nat) (s : str) : nat :=
  match s with
  | [] => 0
  | _ :: s' =>
      match skip with
      | S n => count_from sub n s'
      | O => if startswith sub s
             then S (count_from sub (length sub - 1) s')
             else count_from sub 0 s'
      end
  end.

Definition count (sub s : str) : nat :=
  match sub with
  | [] => S (length s)
  | _ :: _ => count_from sub 0 s
  end.

(** [s.lstrip()], [s.rstrip()], [s.strip()] *)
Fixpoint lstrip (s : str) : str :=
  match s with
  | c :: s' => if isspace c then lstrip s' else s
  | [] => []
  end.
Definition rstrip (s : str) : str := rev (lstrip (rev s)).
Definition strip (s : str) : str := rstrip (lstrip s).

(** [s.split()]: the maximal runs of non-blank characters.  [cur] is the
    run being read, reversed. *)
Fixpoint split_ws_from (cur : str) (s : str) : list str :=
  match s with
  | [] => match cur with [] => [] | _ => [rev cur] end
  | c :: s' =>
      if isspace c
      then match cur with
           | [] => split_ws_from [] s'
           | _ => rev cur :: split_ws_from [] s'
           end
      else split_ws_from (c :: cur) s'
  end.
Definition split_ws (s : str) : list str := split_ws_from [] s.

(** [s.split(sep)] for a non-empty [sep]: cut at each occurrence found
    from the left (Python raises [ValueError] on an empty separator; the
    program only splits on two spaces). *)
Fixpoint split_from (sep : str) (skip : nat) (cur : str) (s : str) : list str :=
  match s with
  | [] => [rev cur]
  | c :: s' =>
      match skip with
      | S n => split_from sep n cur s'
      | O => if startswith sep s
             then rev cur :: split_from sep (length sep - 1) [] s'
             else split_from sep 0 (c :: cur) s'
      end
  end.
Definition split (sep s : str) : list str := split_from sep 0 [] s.

(** [sep.join(parts)] *)
Fixpoint join (sep : str) (parts : list str) : str :=
  match parts with
  | [] => []
  | [p] => p
  | p :: ps => p ++ sep ++ join sep ps
  end.

End PyStr.

(* ================================================================== *)
(** * Regular expressions: the backtracking matcher of [re]            *)
(* ================================================================== *)

Module Re.
Import PyStr.

(** The pattern language the program uses.  [Rep greedy lo hi r] is
    [r{lo,hi}] ([hi = None] for no upper bound), lazy when [greedy] is
    [false]; [Grp] is the capturing group number 1. *)
Inductive regex : Type :=
| Eps
| Cls (p : ascii -> bool)
| Seq (r1 r2 : regex)
| Alt (r1 r2 : regex)
| Rep (greedy : bool) (lo : nat) (hi : option nat) (r : regex)
| Bol
| Eol
| Wordb
| Grp (r : regex).

(** [\w] of a [str] pattern: alphanumeric characters and the underscore. *)
Definition is_word (c : ascii) : bool :=
  is_09 c || is_alpha c || (ord c =? 95)
  || (ord c =? 170) || (ord c =? 178) || (ord c =? 179) || (ord c =? 181)
  || (ord c =? 185) || (ord c =? 186) || between 188 190 c
  || between 192 214 c || between 216 246 c || between 248 255 c.

(** [.] without [re.DOTALL]. *)
Definition dot (c : ascii) : bool := negb (ord c =? 10).

(** A literal character, and a literal under [re.IGNORECASE]. *)
Definition Chr (c : ascii) : regex := Cls (is_char c).
Definition ChrI (c : ascii) : regex :=
  Cls (fun x => Ascii.eqb (lower_char x) (lower_char c)).

Definition Plus (r : regex) : regex := Rep true 1 None r.
Definition AtLeast (n : nat) (r : regex) : regex := Rep true n None r.
Definition Times (lo hi : nat) (r : regex) : regex := Rep true lo (Some hi) r.
Definition Opt (r : regex) : regex := Rep true 0 (Some 1) r.
Definition LazyTimes (lo hi : nat) (r : regex) : regex := Rep false lo (Some hi) r.

Fixpoint Lit (make : ascii -> regex) (s : str) : regex :=
  match s with
  | [] => Eps
  | [c] => make c
  | c :: s' => Seq (make c) (Lit make s')
  end.

(** The matcher's position: the text already passed (most recent
    character first), the text ahead, and what group 1 holds. *)
Record mstate : Type := MState {
  m_pre : str;
  m_rest : str;
  m_g1 : option str
}.

(** The text passed between two positions of one scan. *)
Definition span (st st' : mstate) : str :=
  rev (firstn (length (m_pre st') - length (m_pre st)) (m_pre st')).

Definition at_boundary (st : mstate) : bool :=
  let before := match m_pre st with c :: _ => is_word c | [] => false end in
  let after := match m_rest st with c :: _ => is_word c | [] => false end in
  xorb before after.

(** [rmatch r st k] matches [r] at [st] and hands the position reached to
    the continuation [k]; alternatives are tried in the order of [re]:
    the left branch first, one more repetition first when greedy, one
    fewer first when lazy.  A repetition without upper bound is tried at
    most once per character ahead (its body in every pattern of this
    program passes at least one character). *)
Fixpoint rmatch (r : regex) (st : mstate) (k : mstate -> option mstate)
  {struct r} : option mstate :=
  match r with
  | Eps => k st
  | Cls p =>
      match m_rest st with
      | c :: rest' =>
          if p c then k (MState (c :: m_pre st) rest' (m_g1 st)) else None
      | [] => None
      end
  | Seq r1 r2 => rmatch r1 st (fun st1 => rmatch r2 st1 k)
  | Alt r1 r2 =>
      match rmatch r1 st k with
      | Some e => Some e
      | None => rmatch r2 st k
      end
  | Rep greedy lo hi r1 =>
      (fix loop (fuel need : nat) (st0 : mstate) {struct fuel} : option mstate :=
         match need with
         | S need' =>
             match fuel with
             | O => None
             | S fuel' => rmatch r1 st0 (fun st1 => loop fuel' need' st1)
             end
         | O =>
             if greedy then
               match
                 match fuel with
                 | O => None
                 | S fuel' => rmatch r1 st0 (fun st1 => loop fuel' 0 st1)
                 end
               with
               | Some e => Some e
               | None => k st0
               end
             else
               match k st0 with
               | Some e => Some e
               | None =>
                   match fuel with
                   | O => None
                   | S fuel' => rmatch r1 st0 (fun st1 => loop fuel' 0 st1)
                   end
               end
         end)
        (match hi with Some h => h | None => length (m_rest st) end) lo st
  | Bol => match m_pre st with [] => k st | _ :: _ => None end
  | Eol =>
      match m_rest st with
      | [] => k st
      | [c] => if ord c =? 10 then k st else None
      | _ => None
      end
  | Wordb => if at_boundary st then k st else None
  | Grp r1 =>
      rmatch r1 st (fun st1 => k (MState (m_pre st1) (m_rest st1) (Some (span st st1))))
  end.

(** A match object: where it starts and where it ends. *)
Record rmatch_obj : Type := MatchObj { mo_start : mstate; mo_end : mstate }.

Definition group0 (m : rmatch_obj) : str := span (mo_start m) (mo_end m).
Definition group1 (m : rmatch_obj) : option str := m_g1 (mo_end m).

Definition match_at (r : regex) (pre rest : str) : option rmatch_obj :=
  let st := MState pre rest None in
  match rmatch r st Some with
  | Some e => Some (MatchObj st e)
  | None => None
  end.

(** [pattern.match(s)] *)
Definition re_match (r : regex) (s : str) : option rmatch_obj := match_at r [] s.

(** [pattern.search(s)]: the match at the leftmost position that has one. *)
Fixpoint search_from (r : regex) (pre rest : str) : option rmatch_obj :=
  match match_at r pre rest with
  | Some m => Some m
  | None =>
      match rest with
      | [] => None
      | c :: rest' => search_from r (c :: pre) rest'
      end
  end.
Definition re_search (r : regex) (s : str) : option rmatch_obj := search_from r [] s.

(** [re.sub(pattern, repl, s)] for a literal replacement.  Every pattern
    the program substitutes matches at least one character; on an empty
    match the replacement is written and one character is copied. *)
Fixpoint sub_loop (fuel : nat) (r : regex) (repl : str) (pre rest : str) : str :=
  match fuel with
  | O => rest
  | S fuel' =>
      match match_at r pre rest with
      | Some m =>
          match group0 m with
          | [] =>
              match rest with
              | [] => repl
              | c :: rest' => repl ++ c :: sub_loop fuel' r repl (c :: pre) rest'
              end
          | _ :: _ =>
              repl ++ sub_loop fuel' r repl (m_pre (mo_end m)) (m_rest (mo_end m))
          end
      | None =>
          match rest with
          | [] => []
          | c :: rest' => c :: sub_loop fuel' r repl (c :: pre) rest'
          end
      end
  end.
Definition re_sub (r : regex) (repl s : str) : str :=
  sub_loop (S (length s)) r repl [] s.

(** [re.findall(pattern, s)] for a pattern without groups: the texts of
    the matches found from the left, each search resuming where the
    previous match ended. *)
Fixpoint findall_loop (fuel : nat) (r : regex) (pre rest : str) : list str :=
  match fuel with
  | O => []
  | S fuel' =>
      match match_at r pre rest with
      | Some m =>
          match group0 m with
          | [] =>
              match rest with
              | [] => [[]]
              | c :: rest' => [] :: findall_loop fuel' r (c :: pre) rest'
              end
          | _ :: _ =>
              group0 m :: findall_loop fuel' r (m_pre (mo_end m)) (m_rest (mo_end m))
          end
      | None =>
          match rest with
          | [] => []
          | c :: rest' => findall_loop fuel' r (c :: pre) rest'
          end
      end
  end.
Definition re_findall (r : regex) (s : str) : list str :=
  findall_loop (S (length s)) r [] s.

End Re.

(* ================================================================== *)
(** * [os.path] (POSIX flavour)                                        *)
(* ================================================================== *)

Module OsPath.
Import PyStr.

(** [s.rfind(c)] for a single character: the last index, or -1. *)
Fixpoint rfind_from (c : ascii) (i : Z) (found : Z) (s : str) : Z :=
  match s with
  | [] => found
  | x :: s' => rfind_from c (i + 1) (if Ascii.eqb x c then i else found) s'
  end.
Definition rfind (c : ascii) (s : str) : Z := rfind_from c 0 (-1) s.

(** [p[i:]], [p[:i]] and [p[i:j]] for non-negative indices. *)
Definition slice_from (i : Z) (p : str) : str := skipn (Z.to_nat i) p.
Definition slice_to (i : Z) (p : str) : str := firstn (Z.to_nat i) p.
Definition slice (i j : Z) (p : str) : str := slice_from i (slice_to j p).

(** [os.path.basename]: what follows the last slash. *)
Definition basename (p : str) : str := slice_from (rfind "/" p + 1) p.

(** [os.path.splitext]: cut at the last dot, unless that dot belongs to
    the directory part or only dots precede it in the file name. *)
Definition splitext (p : str) : str * str :=
  let sepIndex := rfind "/" p in
  let dotIndex := rfind "." p in
  if (sepIndex <? dotIndex)%Z
     && existsb (fun c => negb (is_char "." c)) (slice (sepIndex + 1) dotIndex p)
  then (slice_to dotIndex p, slice_from dotIndex p)
  else (p, []).

(** [os.path.dirname]: what precedes the last slash, without the
    slashes at its end unless it consists of slashes only. *)
Fixpoint lstrip_sep (s : str) : str :=
  match s with
  | c :: s' => if is_char "/" c then lstrip_sep s' else s
  | [] => []
  end.
Definition dirname (p : str) : str :=
  let head := slice_to (rfind "/" p + 1) p in
  if forallb (is_char "/") head then head else rev (lstrip_sep (rev head)).

(** [os.path.join] of two components. *)
Definition join (a b : str) : str :=
  if startswith (py "/") b then b
  else match a with
       | [] => b
       | _ => if endswith (py "/") a then a ++ b else a ++ py "/" ++ b
       end.

End OsPath.

(* ================================================================== *)
(** * [CVProcessor]                                                    *)
(* ================================================================== *)

Module CVProcessor.
Import PyStr Re.

(** ** Contact extraction *)

(** [a; b; c] read as the pattern [abc]. *)
Fixpoint Cat (rs : list regex) : regex :=
  match rs with
  | [] => Eps
  | [r] => r
  | r :: rs' => Seq r (Cat rs')
  end.

Definition one_of (s : string) (c : ascii) : bool :=
  existsb (fun x => is_char x c) (py s).

(** [[A-Za-z0-9._%+-]] and [[A-Za-z0-9.-]] *)
Definition email_local (c : ascii) : bool := is_alpha c || is_09 c || one_of "._%+-" c.
Definition email_domain (c : ascii) : bool := is_alpha c || is_09 c || one_of ".-" c.

(** [[A-Za-z'-]] and [[A-Za-z '-]]: the right single quotation mark
    that the source also lists is U+2019, which no text of the model
    holds. *)
Definition name_word_char (c : ascii) : bool := is_alpha c || one_of "'-" c.
Definition name_char (c : ascii) : bool := is_alpha c || one_of " '-" c.

(** [EMAIL_RE = [A-Za-z0-9._%+-]+@[A-Za-z0-9.-]+\.[A-Za-z]{2,}] *)
Definition EMAIL_RE : regex :=
  Cat [Plus (Cls email_local); Chr "@"; Plus (Cls email_domain); Chr ".";
       AtLeast 2 (Cls is_alpha)].

(** [PHONE_RE = (?:(?:\+\d{1,3}[- ]?)?\d{3}[- ]?\d{3}[- ]?\d{4})] *)
Definition PHONE_RE : regex :=
  Cat [Opt (Cat [Chr "+"; Times 1 3 (Cls is_09); Opt (Cls (one_of "- "))]);
       Times 3 3 (Cls is_09); Opt (Cls (one_of "- "));
       Times 3 3 (Cls is_09); Opt (Cls (one_of "- "));
       Times 4 4 (Cls is_09)].

(** [NAME_LINE_RE = ^[A-Z][A-Za-z'-]+(?: [A-Z][A-Za-z'-]+){0,3}$] *)
Definition NAME_LINE_RE : regex :=
  Cat [Bol; Cls is_AZ; Plus (Cls name_word_char);
       Times 0 3 (Cat [Chr " "; Cls is_AZ; Plus (Cls name_word_char)]);
       Eol].

(** [\s+], [\s{2,}], [[^A-Za-z '-]] and [[_\-]+] *)
Definition WS_RUN : regex := Plus (Cls isspace).
Definition WS_RUN2 : regex := AtLeast 2 (Cls isspace).
Definition NON_NAME : regex := Cls (fun c => negb (name_char c)).
Definition UNDERSCORES : regex := Plus (Cls (one_of "_-")).

(** [(.{0,60}?)(?:\s+Email\b|@)] under [re.I] *)
Definition BEFORE_EMAIL : regex :=
  Cat [Grp (LazyTimes 0 60 (Cls dot));
       Alt (Cat [Plus (Cls isspace); Lit ChrI (py "Email"); Wordb]) (Chr "@")].

(** [not name] for an optional string. *)
Definition falsy (name : option str) : bool :=
  match name with
  | None | Some [] => true
  | Some (_ :: _) => false
  end.

(** The [for ln in head.split("  ")] loop: the first segment that, once
    stripped, is non-empty, has no [@] and no digit, is at most 60 long
    and matches [NAME_LINE_RE]. *)
Fixpoint first_name_line (lns : list str) : option str :=
  match lns with
  | [] => None
  | ln0 :: lns' =>
      let ln := strip ln0 in
      if falsy (Some ln) || contains (py "@") ln || existsb isdigit ln
      then first_name_line lns'
      else if (length ln <=? 60) && bool_decide (is_Some (re_match NAME_LINE_RE ln))
           then Some ln
           else first_name_line lns'
  end.

(** Step (a): a clean name among the first 50 tokens. *)
Definition name_from_head (text : str) : option str :=
  let tokens := firstn 50 (split_ws (strip (re_sub WS_RUN (py " ") text))) in
  let head := re_sub NON_NAME (py " ") (PyStr.join (py " ") tokens) in
  first_name_line (split (py "  ") head).

(** Step (b): the short span before the word Email or an at sign. *)
Definition name_from_context (text : str) : option str :=
  match re_search BEFORE_EMAIL text with
  | Some m =>
      let guess := strip (re_sub NON_NAME (py " ") (default [] (group1 m))) in
      let guess := re_sub WS_RUN2 (py " ") guess in
      if (2 <=? length guess) && (length guess <=? 60) then Some guess else None
  | None => None
  end.

(** Step (c): the name read off the fallback file name, and the
    placeholder when nothing is left of it ([base or "(Unknown)"]). *)
Definition filename_base (fallback_filename : str) : str :=
  let base := (OsPath.splitext (OsPath.basename fallback_filename)).1 in
  let base := re_sub UNDERSCORES (py " ") base in
  strip (re_sub NON_NAME (py " ") base).

Definition name_from_filename (fallback_filename : str) : str :=
  let base := filename_base fallback_filename in
  match base with
  | [] => py "(Unknown)"
  | _ :: _ => base
  end.

Definition extract_contacts (text fallback_filename : str)
  : str * option str * option str :=
  let email := re_search EMAIL_RE text in
  let phone := re_search PHONE_RE text in
  let name := name_from_head text in
  let name := if falsy name then name_from_context text else name in
  let name := if falsy name then name_from_filename fallback_filename
              else default [] name in
  (name, group0 <$> email, group0 <$> phone).

(* ---------------------------------------------------------------- *)
(** ** Text extraction                                               *)

(** An exception instance, known by its [str(e)]; the result of a call
    that may raise. *)
Record exn : Type := Exn { exn_str : str }.

Inductive outcome (A : Type) : Type :=
| Returned (a : A)
| Raised (e : exn).
Arguments Returned {A} a.
Arguments Raised {A} e.

#[global] Instance outcome_ret : MRet outcome := fun A a => Returned a.
#[global] Instance outcome_bind : MBind outcome := fun A B f o =>
  match o with
  | Returned a => f a
  | Raised e => Raised e
  end.

(** [try: body  except Exception as e: handler(e)] *)
Definition try_except {A : Type} (body : outcome A) (handler : exn -> outcome A)
  : outcome A :=
  match body with
  | Returned a => Returned a
  | Raised e => handler e
  end.

Abbreviation bytes := (list Byte.byte).

(** What the extractor finds around it: the two module globals set by
    the guarded import of pdfminer (the extractor returns a text, or
    nothing), the file system read ([open(path, "rb").read()]) and
    [bytes.decode("utf-8", errors="ignore")], which drops what it cannot
    decode and so always returns. *)
Record Env : Type := {
  HAS_PDFMINER : bool;
  pdfminer_extract_text : option (str -> outcome (option str));
  read_file : str -> outcome bytes;
  decode_ignore : bytes -> str
}.

(** [b"%PDF"] *)
Definition PDF_MAGIC : bytes := [Byte.x25; Byte.x50; Byte.x44; Byte.x46].

Fixpoint bytes_startswith (p data : bytes) : bool :=
  match p, data with
  | [], _ => true
  | _ :: _, [] => false
  | a :: p', b :: data' => Byte.eqb a b && bytes_startswith p' data'
  end.

(** [32 <= b <= 126 or b in (9, 10, 13) or (128 <= b <= 253)] *)
Definition keeps (b : Byte.byte) : bool :=
  let n := Byte.to_N b in
  ((32 <=? n) && (n <=? 126) || (n =? 9) || (n =? 10) || (n =? 13)
   || (128 <=? n) && (n <=? 253))%N.

(** The closure [flush] over [chars] and [buf]. *)
Definition flush (decode : bytes -> str) (st : list str * bytes) : list str * bytes :=
  let '(chars, buf) := st in
  match buf with
  | [] => (chars, buf)
  | _ :: _ =>
      let s := decode buf in
      (match strip s with
       | [] => chars
       | _ :: _ => chars ++ [s]
       end, [])
  end.

(** [for b in data: ...] *)
Definition scavenge_step (decode : bytes -> str) (st : list str * bytes)
  (b : Byte.byte) : list str * bytes :=
  if keeps b then (fst st, snd st ++ [b]) else flush decode st.

(** [\(cid:\d+\)] *)
Definition CID : regex :=
  Cat [Chr "("; Lit Chr (py "cid:"); Plus (Cls is_09); Chr ")"].

Definition parse_pdf_body (env : Env) (pdf_path : str) : outcome str :=
  match HAS_PDFMINER env, pdfminer_extract_text env with
  | true, Some extract =>
      found ← extract pdf_path;
      let text := default [] found in       (* [... or ""] *)
      let text := re_sub WS_RUN (py " ") text in
      mret (strip text)
  | _, _ =>
      data ← read_file env pdf_path;
      if negb (bytes_startswith PDF_MAGIC data)
      then
        let s := decode_ignore env data in
        mret (strip (re_sub WS_RUN (py " ") s))
      else
        let st := fold_left (scavenge_step (decode_ignore env)) data ([], []) in
        let '(chars, _) := flush (decode_ignore env) st in
        let text := PyStr.join (py " ") chars in
        let text := re_sub CID (py " ") text in
        let text := re_sub WS_RUN (py " ") text in
        mret (strip text)
  end.

Definition PARSE_ERROR : str := py "[PARSE_ERROR]".

(** [f"[PARSE_ERROR] {e}"] *)
Definition parse_error_text (e : exn) : str := PARSE_ERROR ++ py " " ++ exn_str e.

Definition parse_pdf (env : Env) (pdf_path : str) : outcome str :=
  try_except (parse_pdf_body env pdf_path)
             (fun e => Returned (parse_error_text e)).

(* ---------------------------------------------------------------- *)
(** ** Archive expansion                                             *)

(** An archive member: a [ZipInfo] with the data of the member. *)
Record ZipInfo : Type := { filename : str; content : bytes }.

(** What [unzip_pdfs] does to the disk, for any type [FS] of disk
    states.  Each operation takes the disk to what it is afterwards and
    tells whether it raised:
    - [extract m dir] is [z.extract(m, dir)]: [zipfile] cleans the
      member name, creates the directories that are missing and writes
      the file; it raises, for one, when a directory stands where the
      file is to be written, or when the data of the member cannot be
      read;
    - [abspath] is [os.path.abspath];
    - [makedirs dir] is [os.makedirs(dir, exist_ok=True)];
    - [move src dest] is [shutil.move(src, dest)]. *)
Record Disk (FS : Type) : Type := {
  extract : ZipInfo -> str -> FS -> FS * option exn;
  abspath : str -> str;
  makedirs : str -> FS -> FS * option exn;
  move : str -> str -> FS -> FS * option exn
}.
Arguments extract {FS}.
Arguments abspath {FS}.
Arguments makedirs {FS}.
Arguments move {FS}.

(** One turn of [for m in z.infolist()], on the output list and the
    disk: an exception of [extract] leaves the loop and the function,
    one of [makedirs] or [move] is caught. *)
Definition unzip_step {FS : Type} (D : Disk FS) (cache_dir : str) (out : list str)
  (fs : FS) (m : ZipInfo) : FS * outcome (list str) :=
  if endswith (py ".pdf") (lower (filename m)) then
    let dest := OsPath.join cache_dir (OsPath.basename (filename m)) in
    let '(fs, raised) := extract D m cache_dir fs in
    match raised with
    | Some e => (fs, Raised e)
    | None =>
        let src := OsPath.join cache_dir (filename m) in
        if bool_decide (abspath D src <> abspath D dest) then
          let '(fs, raised) := makedirs D (OsPath.dirname dest) fs in
          match raised with
          | Some _ => (fs, Returned (out ++ [src]))
          | None =>
              let '(fs, raised) := move D src dest fs in
              match raised with
              | Some _ => (fs, Returned (out ++ [src]))
              | None => (fs, Returned (out ++ [dest]))
              end
          end
        else (fs, Returned (out ++ [dest]))
    end
  else (fs, Returned out).

Fixpoint unzip_loop {FS : Type} (D : Disk FS) (cache_dir : str) (z : list ZipInfo)
  (out : list str) (fs : FS) : FS * outcome (list str) :=
  match z with
  | [] => (fs, Returned out)
  | m :: z' =>
      match unzip_step D cache_dir out fs m with
      | (fs', Returned out') => unzip_loop D cache_dir z' out' fs'
      | (fs', Raised e) => (fs', Raised e)
      end
  end.

(** [CVProcessor.unzip_pdfs] on the members of the opened archive
    ([z.infolist()]) and the disk: the disk it leaves, and the list
    [out] it returns or the exception it raises. *)
Definition unzip_pdfs {FS : Type} (D : Disk FS) (cache_dir : str) (z : list ZipInfo)
  (fs : FS) : FS * outcome (list str) :=
  unzip_loop D cache_dir z [] fs.

(** A disk that is nothing but files by path.  It does what the real
    disk does as long as the cache directory is absolute, the member
    names are relative and without empty, [.] and [..] components, and
    no directory and no file is in the way of a file to be written:
    [extract] then writes at [os.path.join(dir, m.filename)], and
    [shutil.move] onto a file path replaces the file there and raises
    when there is no file at [src]. *)
Definition files : Disk (gmap str bytes) :=
  {| extract := fun m dir fs => (<[OsPath.join dir (filename m) := content m]> fs, None);
     abspath := fun p => p;
     makedirs := fun _ fs => (fs, None);
     move := fun src dest fs =>
       match fs !! src with
       | Some data => (<[dest := data]> (delete src fs), None)
       | None => (fs, Some (Exn (py "No such file or directory")))
       end |}.

End CVProcessor.

(* ================================================================== *)
(** * [Ranker]                                                         *)
(* ================================================================== *)

Module Ranker.
Import PyStr Re.

Record t : Type := { keywords : list (str * Q); role : str }.

(** [d[k] = v] on a [dict] kept in insertion order: a key already there
    keeps its place and takes the new value. *)
Fixpoint dict_set (d : list (str * Q)) (k : str) (v : Q) : list (str * Q) :=
  match d with
  | [] => [(k, v)]
  | (k', v') :: d' =>
      if bool_decide (k' = k) then (k', v) :: d' else (k', v') :: dict_set d' k v
  end.

(** [{k.lower(): float(v) for k, v in keywords.items()}], the items
    being given in the order of iteration. *)
Definition lower_keys (items : list (str * Q)) : list (str * Q) :=
  fold_left (fun d kv => dict_set d (lower (fst kv)) (snd kv)) items [].

(** [Ranker.__init__] *)
Definition init (keywords : list (str * Q)) (role : str) : t :=
  {| keywords := lower_keys keywords; role := lower role |}.

(** [[a-zA-Z]{3,}] *)
Definition TOKEN_RE : regex := AtLeast 3 (Cls is_alpha).

Definition of_nat (n : nat) : Q := inject_Z (Z.of_nat n).

(** One turn of [for k, w in self.keywords.items()], on [total] and
    [matched]. *)
Definition keyword_step (t : str) (st : Q * gmap str Q) (kw : str * Q)
  : Q * gmap str Q :=
  let '(total, matched) := st in
  let '(k, w) := kw in
  let cnt := count k t in
  if negb (cnt =? 0) then
    let v := (of_nat cnt * w)%Q in
    ((total + v)%Q, <[k := v]> matched)
  else (total, matched).

(** [if self.role: total += 2.0 * t.count(self.role)] *)
Definition add_role_bonus (r : t) (t : str) (total : Q) : Q :=
  match role r with
  | [] => total
  | _ :: _ => (total + 2 * of_nat (count (role r) t))%Q
  end.

(** [min(len(tokens) / 500.0, 5.0)] for [tokens = set(re.findall(...))] *)
Definition tokens (t : str) : gset str := list_to_set (re_findall TOKEN_RE t).
Definition diversity_bonus (t : str) : Q :=
  Qmin (of_nat (size (tokens t)) / 500)%Q 5%Q.

(** [Ranker.score] *)
Definition score (r : t) (text : str) : Q * gmap str Q :=
  let t := lower text in
  if startswith (py "[parse_error]") t then (0%Q, ∅)
  else
    let '(total, matched) := fold_left (keyword_step t) (keywords r) (0%Q, ∅) in
    let total := add_role_bonus r t total in
    let total := (total + diversity_bonus t)%Q in
    (total, matched).

End Ranker.

(* ================================================================== *)
(** * [Candidate] and the ranking pass                                 *)
(* ================================================================== *)

Module Candidate.
Record t : Type := {
  name : str;
  email : option str;
  phone : option str;
  path : str;
  text : str;
  score : Q;
  matched : gmap str Q;
  summary : str
}.
End Candidate.

Module CTkApp.

(** [c.score, c.matched = r.score(c.text)] *)
Definition rescore (r : Ranker.t) (c : Candidate.t) : Candidate.t :=
  let '(sc, matched) := Ranker.score r (Candidate.text c) in
  {| Candidate.name := Candidate.name c;
     Candidate.email := Candidate.email c;
     Candidate.phone := Candidate.phone c;
     Candidate.path := Candidate.path c;
     Candidate.text := Candidate.text c;
     Candidate.score := sc;
     Candidate.matched := matched;
     Candidate.summary := Candidate.summary c |}.

(** [list.sort(key=..., reverse=True)] on scores that are numbers:
    descending by key, elements of equal key staying in their original
    order.  [insert_desc c l] puts [c], which stood before every element
    of [l], into the sorted [l].  ([PyList.sort] below is the sort as
    CPython runs it, for scores that can be NaN; [sort_on_numbers] shows
    that it gives this list on numbers.) *)
Fixpoint insert_desc (c : Candidate.t) (l : list Candidate.t) : list Candidate.t :=
  match l with
  | [] => [c]
  | d :: l' =>
      if Qle_bool (Candidate.score d) (Candidate.score c)
      then c :: d :: l'
      else d :: insert_desc c l'
  end.

Definition sort_by_score_desc (l : list Candidate.t) : list Candidate.t :=
  fold_right insert_desc [] l.

(** [CTkApp.rank_now] on [self.candidates], given what
    [self.parse_keywords()] and [self.job_title.get()] return; the
    refresh of the table and of the preview is not part of the model. *)
Definition rank_now (keywords : list (str * Q)) (job_title : str)
  (candidates : list Candidate.t) : list Candidate.t :=
  match candidates with
  | [] => []
  | _ :: _ =>
      let r := Ranker.init keywords job_title in
      sort_by_score_desc (map (rescore r) candidates)
  end.

End CTkApp.

(* ================================================================== *)
(** * [LicenseManager]                                                 *)
(* ================================================================== *)

Module LicenseManager.
Import PyStr Re.

(** The license dictionary, as far as the program reads it: each key may
    be missing; the two times are whole seconds. *)
Record license : Type := {
  fingerprint : option str;
  plan : option str;
  started : option Z;
  paid_until : option Z
}.

Record t : Type := { machine_fingerprint : str; the_license : license }.

Definition TRIAL_DAYS : Z := 7.

(** [str(n)] for an integer. *)
Definition str_of_Z (n : Z) : str := py (NilZero.string_of_int (Z.to_int n)).

(** [int(x)] for a float: the fraction is dropped. *)
Definition int_of (x : Q) : Z := Z.quot (Qnum x) (Zpos (Qden x)).

(** [s.capitalize()]: the first character in upper case, the others in
    lower case.  The sharp s becomes [Ss]; the micro sign and the y with
    diaeresis, whose capitals lie beyond code point 255, are written by
    no plan name and are left as they are. *)
Definition upper_first (c : ascii) : str :=
  if is_az c || between 224 246 c || between 248 254 c then [chr (ord c - 32)]
  else if ord c =? 223 then py "Ss"
  else [c].
Definition capitalize (s : str) : str :=
  match s with
  | [] => []
  | c :: s' => upper_first c ++ lower s'
  end.

(** [_safe]: [re.sub(r"[^a-zA-Z0-9_.-]", "", s)] *)
Definition safe_char (c : ascii) : bool :=
  is_alpha c || is_09 c || CVProcessor.one_of "_.-" c.
Definition _safe (s : str) : str := re_sub (Cls (fun c => negb (safe_char c))) [] s.

(** The path of the license file, under the home directory that
    [os.path.expanduser("~")] names. *)
Definition license_path (home app_id : str) : str :=
  OsPath.join home (py "." ++ _safe app_id ++ py ".license.json").

(** [_load]: the dictionary of the license file when there is one that
    reads as JSON ([Some]), a new trial record otherwise. *)
Definition _load (fp : str) (file : option license) (now : Z) : license :=
  match file with
  | Some lic => lic
  | None => {| fingerprint := Some fp; plan := Some (py "trial");
               started := Some now; paid_until := None |}
  end.

(** [__init__], given the fingerprint of the machine, the license file
    and the time. *)
Definition init (fp : str) (file : option license) (now : Z) : t :=
  {| machine_fingerprint := fp; the_license := _load fp file now |}.

(** [save]: the fingerprint is set, then the dictionary is written; it
    returns the new content of the file, or raises when the file cannot
    be written. *)
Definition save (self : t) (writable : bool) : t * CVProcessor.outcome license :=
  let lic := {| fingerprint := Some (machine_fingerprint self);
                plan := plan (the_license self);
                started := started (the_license self);
                paid_until := paid_until (the_license self) |} in
  ({| machine_fingerprint := machine_fingerprint self; the_license := lic |},
   if writable then CVProcessor.Returned lic
   else CVProcessor.Raised (CVProcessor.Exn (py "Permission denied"))).

(** [set_plan] at the time [now]. *)
Definition set_plan (self : t) (new_plan : str) (now : Z) (writable : bool)
  : t * CVProcessor.outcome license :=
  if bool_decide (new_plan = py "lifetime") || bool_decide (new_plan = py "monthly")
     || bool_decide (new_plan = py "trial")
  then
    let lic := the_license self in
    let until :=
      if bool_decide (new_plan = py "monthly") then Some (now + 30 * 24 * 3600)%Z
      else if bool_decide (new_plan = py "lifetime") then Some 2147483600%Z
      else paid_until lic in
    save {| machine_fingerprint := machine_fingerprint self;
            the_license := {| fingerprint := fingerprint lic; plan := Some new_plan;
                              started := started lic; paid_until := until |} |}
         writable
  else (self, CVProcessor.Raised (CVProcessor.Exn [])).   (* [AssertionError()] *)

(** [ok] at the time [now].  The quotient [(now - started) / 86400] of
    the two whole numbers is taken exactly: for times of less than 2^53
    seconds the float that Python computes compares with 7 and loses its
    fraction in the same way. *)
Definition ok (self : t) (now : Z) : bool * str :=
  if negb (bool_decide (fingerprint (the_license self) = Some (machine_fingerprint self)))
  then (false, py "License fingerprint mismatch.")
  else
    let plan := default (py "trial") (plan (the_license self)) in
    if bool_decide (plan = py "trial") then
      let started := default now (started (the_license self)) in
      let days_used := ((now - started) # 86400)%Q in
      if Qle_bool days_used (inject_Z TRIAL_DAYS)
      then (true, py "Trial: " ++ str_of_Z (TRIAL_DAYS - int_of days_used) ++ py " day(s) left")
      else (false, py "Trial expired. Choose Monthly ($10) or Lifetime ($99).")
    else
      let paid_until := default 0%Z (paid_until (the_license self)) in
      if (now <=? paid_until)%Z then (true, capitalize plan)
      else (false, py "Subscription expired. Renew Monthly or upgrade to Lifetime.").

End LicenseManager.

(* ================================================================== *)
(** * [CTkApp]: the methods of the window on its state               *)
(* ================================================================== *)

Module Screen.
Import PyStr Re CVProcessor.

(** What lies outside the program: [float(s)] ([None] when it raises;
    the number is an exact rational, as every float of the model), the
    pdfminer extractor on the bytes of a file, the decoder of
    [parse_pdf], [zipfile] reading the members of an archive, and the
    exception that opening a missing file raises. *)
Record World : Type := {
  float : str -> option Q;
  has_pdfminer : bool;
  pdfminer : option (bytes -> outcome (option str));
  decode : bytes -> str;
  read_zip : bytes -> outcome (list ZipInfo);
  open_error : str -> exn
}.

(** The state of the window that the modelled methods read and write,
    and the disk. *)
Record state : Type := {
  cache_dir : str;
  file_queue : list str;
  candidates : list Candidate.t;
  filtered : list Candidate.t;
  kw_var : str;
  job_title : str;
  search_var : str;
  min_score_var : str;
  disk : gmap str bytes
}.

Definition set_lists (st : state) (queue : list str) (cands shown : list Candidate.t)
  (d : gmap str bytes) : state :=
  {| cache_dir := cache_dir st; file_queue := queue; candidates := cands;
     filtered := shown; kw_var := kw_var st; job_title := job_title st;
     search_var := search_var st; min_score_var := min_score_var st; disk := d |}.

(** [token.split(':', 1)] on a token that holds the separator: the text
    before the first one and the text after it. *)
Fixpoint cut_at (sep : ascii) (s : str) : str * str :=
  match s with
  | [] => ([], [])
  | c :: s' =>
      if Ascii.eqb c sep then ([], s')
      else let '(a, b) := cut_at sep s' in (c :: a, b)
  end.

(** One turn of [for token in raw.split(',')]. *)
Definition keyword_token (w : World) (kw : list (str * Q)) (token0 : str)
  : list (str * Q) :=
  let token := strip token0 in
  match token with
  | [] => kw
  | _ :: _ =>
      if contains (py ":") token then
        let '(k, v) := cut_at ":" token in
        Ranker.dict_set kw (lower (strip k)) (default 1%Q (float w (strip v)))
      else Ranker.dict_set kw (lower token) 1%Q
  end.

(** [parse_keywords] on the text of the keyword field. *)
Definition parse_keywords (w : World) (raw : str) : list (str * Q) :=
  fold_left (keyword_token w) (split (py ",") raw) [].

(** The test of one candidate in [apply_filters], for a score and a
    minimum that are numbers ([FloatCTkApp.shown] is the test on floats
    that can be NaN). *)
Definition shown (q : str) (min_sc : Q) (c : Candidate.t) : bool :=
  Qle_bool min_sc (Candidate.score c)
  && (bool_decide (q = [])
      || contains q (lower (Candidate.text c))
      || contains q (lower (Candidate.name c))
      || contains q (lower (OsPath.basename (Candidate.path c)))).

(** [float(self.min_score_var.get() or 0.0)], 0.0 when it raises. *)
Definition min_score (w : World) (raw : str) : Q :=
  match raw with
  | [] => 0%Q
  | _ :: _ => default 0%Q (float w raw)
  end.

Definition filter_candidates (w : World) (search min_raw : str)
  (cands : list Candidate.t) : list Candidate.t :=
  List.filter (shown (strip (lower search)) (min_score w min_raw)) cands.

(** [apply_filters] *)
Definition apply_filters (w : World) (st : state) : state :=
  set_lists st (file_queue st) (candidates st)
            (filter_candidates w (search_var st) (min_score_var st) (candidates st))
            (disk st).

(** [rank_now], with the table refreshed; the candidate it then previews
    is the first row, if there is one. *)
Definition rank_now (w : World) (st : state) : state :=
  match candidates st with
  | [] => st
  | _ :: _ =>
      apply_filters w
        (set_lists st (file_queue st)
                   (CTkApp.rank_now (parse_keywords w (kw_var st)) (job_title st)
                                    (candidates st))
                   (filtered st) (disk st))
  end.
Definition previewed (st : state) : option Candidate.t := head (filtered st).

(** [a < b] on strings: by code points, a proper prefix coming first. *)
Fixpoint str_lt (a b : str) : bool :=
  match a, b with
  | _, [] => false
  | [], _ :: _ => true
  | x :: a', y :: b' =>
      (ord x <? ord y) || ((ord x =? ord y) && str_lt a' b')
  end.

(** [list.sort(key=key, reverse=reverse)] by a key with its [<]: an
    element moves behind another only when it must, so that elements of
    equal key keep their order. *)
Section Sort.
Context {A K : Type} (lt : K -> K -> bool) (key : A -> K) (reverse : bool).

Definition must_follow (x y : A) : bool :=
  if reverse then lt (key x) (key y) else lt (key y) (key x).

Fixpoint insert_sorted (x : A) (l : list A) : list A :=
  match l with
  | [] => [x]
  | y :: l' => if must_follow x y then y :: insert_sorted x l' else x :: y :: l'
  end.

Definition sort_by (l : list A) : list A := fold_right insert_sorted [] l.
End Sort.

(** The columns of the table, and [_sort_by]. *)
Inductive column : Type := col_name | col_email | col_phone | col_score | col_file.

Definition Qlt_bool (x y : Q) : bool := negb (Qle_bool y x).

Definition _sort_by (col : column) (st : state) : state :=
  let rows := filtered st in
  let sorted :=
    match col with
    | col_name => sort_by str_lt (fun c => lower (Candidate.name c)) false rows
    | col_email => sort_by str_lt (fun c => lower (default [] (Candidate.email c))) false rows
    | col_phone => sort_by str_lt (fun c => default [] (Candidate.phone c)) false rows
    | col_score => sort_by Qlt_bool Candidate.score true rows
    | col_file => sort_by str_lt (fun c => lower (OsPath.basename (Candidate.path c))) false rows
    end in
  set_lists st (file_queue st) (candidates st) sorted (disk st).

(** [remove_selected_from_queue], given the selected positions. *)
Definition remove_selected_from_queue (w : World) (sel : list nat) (st : state) : state :=
  match sel with
  | [] => st
  | _ :: _ =>
      let queue := fold_left (fun q idx => delete idx q) (rev sel) (file_queue st) in
      let cands := List.filter (fun c => bool_decide (Candidate.path c ∈ queue))
                               (candidates st) in
      apply_filters w (set_lists st queue cands (filtered st) (disk st))
  end.

(** [clear_queue] *)
Definition clear_queue (w : World) (st : state) : state :=
  apply_filters w (set_lists st [] [] (filtered st) (disk st)).

(** [shutil.copy2(src, dest)] of a file: the same path twice, or a
    missing source, raises. *)
Definition copy2 (w : World) (src dest : str) (d : gmap str bytes)
  : outcome (gmap str bytes) :=
  if bool_decide (src = dest) then Raised (Exn (py "are the same file"))
  else match d !! src with
       | Some data => Returned (<[dest := data]> d)
       | None => Raised (open_error w src)
       end.

(** The surrounding of [parse_pdf] on a given disk. *)
Definition read (w : World) (d : gmap str bytes) (path : str) : outcome bytes :=
  match d !! path with
  | Some data => Returned data
  | None => Raised (open_error w path)
  end.
Definition env_of (w : World) (d : gmap str bytes) : Env :=
  {| HAS_PDFMINER := has_pdfminer w;
     pdfminer_extract_text :=
       (fun extract path => data ← read w d path; extract data) <$> pdfminer w;
     read_file := read w d;
     decode_ignore := decode w |}.

(** One turn of the first loop of [_load_paths], on the new cache paths,
    the disk, and what has been raised. *)
Definition expand_step (w : World) (cache : str)
  (acc : list str * gmap str bytes * option exn) (p : str)
  : list str * gmap str bytes * option exn :=
  let '(new, d, raised) := acc in
  match raised with
  | Some _ => acc
  | None =>
      if endswith (py ".zip") (lower p) then
        match data ← read w d p; read_zip w data with
        | Returned z =>
            match unzip_pdfs files cache z d with
            | (d', Returned out) => (new ++ out, d', None)
            | (d', Raised e) => (new, d', Some e)
            end
        | Raised e => (new, d, Some e)
        end
      else if endswith (py ".pdf") (lower p) then
        let dest := OsPath.join cache (OsPath.basename p) in
        match copy2 w p dest d with
        | Returned d' => (new ++ [dest], d', None)
        | Raised _ => (new ++ [p], d, None)
        end
      else acc
  end.

Definition expand (w : World) (cache : str) (paths : list str) (d : gmap str bytes)
  : list str * gmap str bytes * option exn :=
  fold_left (expand_step w cache) paths ([], d, None).

(** [for cp in new_cache_paths: if cp not in queue: queue.append(cp)] *)
Definition enqueue (queue : list str) (cp : str) : list str :=
  if bool_decide (cp ∈ queue) then queue else queue ++ [cp].

(** The candidate made of one cached file. *)
Definition new_candidate (w : World) (d : gmap str bytes) (path : str) : Candidate.t :=
  let text := match parse_pdf (env_of w d) path with
              | Returned text => text
              | Raised e => parse_error_text e     (* never taken *)
              end in
  let '(name, email, phone) := extract_contacts text path in
  {| Candidate.name := match name with [] => py "(Unknown)" | _ :: _ => name end;
     Candidate.email := email; Candidate.phone := phone;
     Candidate.path := path; Candidate.text := text;
     Candidate.score := 0%Q; Candidate.matched := ∅; Candidate.summary := [] |}.

(** [_load_paths] *)
Definition _load_paths (w : World) (paths : list str) (st : state) : state :=
  let '(new, d, raised) := expand w (cache_dir st) paths (disk st) in
  match raised with
  | Some _ => set_lists st (file_queue st) (candidates st) (filtered st) d
  | None =>
      match new with
      | [] => set_lists st (file_queue st) (candidates st) (filtered st) d
      | _ :: _ =>
          let queue := fold_left enqueue new (file_queue st) in
          let have_paths := map Candidate.path (candidates st) in
          let added := map (new_candidate w d)
                           (List.filter (fun p => negb (bool_decide (p ∈ have_paths))) new) in
          apply_filters w (set_lists st queue (candidates st ++ added) (filtered st) d)
      end
  end.

End Screen.

(* ================================================================== *)
(** * Floats with infinities and NaN                                   *)
(* ================================================================== *)

(** The modules above read a float as a rational number.  A keyword
    weight or a minimum score can also be an infinity or NaN ([float]
    accepts the texts "inf" and "nan"), and NaN is neither below, nor
    above, nor equal to any float.  The modules below embed the scorer,
    the ranking pass, the filter and the sort of the table once more,
    over floats that can be such values, for the properties that
    comparisons with NaN decide.  On numbers the two embeddings agree. *)

Module PyFloat.

(** A float: a number (exact; rounding and overflow are outside the
    model), plus or minus infinity, or NaN. *)
Inductive t : Type := Num (q : Q) | PInf | NInf | NaN.

Definition is_nan (x : t) : bool :=
  match x with NaN => true | _ => false end.

(** [x < y] *)
Definition lt (x y : t) : bool :=
  match x, y with
  | NaN, _ => false
  | _, NaN => false
  | Num a, Num b => negb (Qle_bool b a)
  | NInf, NInf => false
  | NInf, _ => true
  | _, NInf => false
  | PInf, _ => false
  | Num _, PInf => true
  end.

(** [x <= y]; [x >= y] is [le y x]. *)
Definition le (x y : t) : bool :=
  match x, y with
  | NaN, _ => false
  | _, NaN => false
  | Num a, Num b => Qle_bool a b
  | NInf, _ => true
  | _, PInf => true
  | _, NInf => false
  | PInf, _ => false
  end.

(** [x == y] *)
Definition eqb (x y : t) : bool :=
  match x, y with
  | Num a, Num b => Qeq_bool a b
  | PInf, PInf => true
  | NInf, NInf => true
  | _, _ => false
  end.

(** [x + y] *)
Definition add (x y : t) : t :=
  match x, y with
  | NaN, _ => NaN
  | _, NaN => NaN
  | Num a, Num b => Num (a + b)
  | PInf, NInf => NaN
  | NInf, PInf => NaN
  | PInf, _ => PInf
  | _, PInf => PInf
  | NInf, _ => NInf
  | _, NInf => NInf
  end.

(** An infinity times a number. *)
Definition scale (positive : bool) (a : Q) : t :=
  match (a ?= 0)%Q with
  | Gt => if positive then PInf else NInf
  | Lt => if positive then NInf else PInf
  | Eq => NaN
  end.

(** [x * y] *)
Definition mul (x y : t) : t :=
  match x, y with
  | NaN, _ => NaN
  | _, NaN => NaN
  | Num a, Num b => Num (a * b)
  | Num a, PInf => scale true a
  | PInf, Num a => scale true a
  | Num a, NInf => scale false a
  | NInf, Num a => scale false a
  | PInf, PInf => PInf
  | NInf, NInf => PInf
  | PInf, NInf => NInf
  | NInf, PInf => NInf
  end.

End PyFloat.

(* ================================================================== *)
(** * [list.sort]                                                      *)
(* ================================================================== *)

(** [l.sort(key=key, reverse=reverse)] as CPython 3.11 runs it on a list of
    fewer than 64 elements, with [lt] for the [<] of the keys: the list
    is reversed if [reverse] is set; the run at its head is found (and
    reversed if it descends strictly); every further element is put into
    the sorted part before it by binary insertion; and the list is
    reversed again if [reverse] is set.

    On longer lists CPython sorts runs of 32 to 64 elements in this way
    and merges them.  Where [<] orders the keys of the list (as it does
    when none of them is NaN) every stable sort gives the same list, so
    that this procedure stands for [list.sort] there too
    ([sort_unique]); with a NaN among the keys of 64 elements or more the
    model is not what CPython does. *)
Module PyList.
Section Sort.
Context {A K : Type} (lt : K -> K -> bool) (key : A -> K).

Definition klt (x y : A) : bool := lt (key x) (key y).

(** [count_run]: how many elements the run at the head has, beyond the
    element [prev] before them. *)
Fixpoint run_asc (prev : A) (l : list A) : nat :=
  match l with
  | [] => 0
  | x :: l' => if klt x prev then 0 else S (run_asc x l')
  end.
Fixpoint run_desc (prev : A) (l : list A) : nat :=
  match l with
  | [] => 0
  | x :: l' => if klt x prev then S (run_desc x l') else 0
  end.
Definition count_run (l : list A) : nat * bool :=
  match l with
  | [] => (0, false)
  | [x] => (1, false)
  | x :: y :: l' =>
      if klt y x then (2 + run_desc y l', true) else (2 + run_asc y l', false)
  end.

(** The search of [binarysort] for the place of [pivot] among [v], by
    halving between [l] and [r]. *)
Fixpoint bisect (fuel : nat) (pivot : A) (v : list A) (l r : nat) : nat :=
  match fuel with
  | O => l
  | S fuel' =>
      let p := l + Nat.div2 (r - l) in
      if klt pivot (nth p v pivot) then
        (if l <? p then bisect fuel' pivot v l p else l)
      else
        (if S p <? r then bisect fuel' pivot v (S p) r else S p)
  end.

Definition insert_at (sorted : list A) (pivot : A) : list A :=
  let i := bisect (length sorted) pivot sorted 0 (length sorted) in
  firstn i sorted ++ pivot :: skipn i sorted.

Definition binarysort (sorted rest : list A) : list A :=
  fold_left insert_at rest sorted.

Definition sort_ascending (l : list A) : list A :=
  let '(n, descending) := count_run l in
  let run := firstn n l in
  binarysort (if descending then rev run else run) (skipn n l).

Definition sort (reverse : bool) (l : list A) : list A :=
  if reverse then rev (sort_ascending (rev l)) else sort_ascending l.

End Sort.
End PyList.

(* ================================================================== *)
(** * The scorer and the ranking pass over floats                      *)
(* ================================================================== *)

Module FloatRanker.
Import PyStr Re.

Record t : Type := { keywords : list (str * PyFloat.t); role : str }.

(** [d[k] = v] on a [dict] kept in insertion order. *)
Fixpoint dict_set (d : list (str * PyFloat.t)) (k : str) (v : PyFloat.t)
  : list (str * PyFloat.t) :=
  match d with
  | [] => [(k, v)]
  | (k', v') :: d' =>
      if bool_decide (k' = k) then (k', v) :: d' else (k', v') :: dict_set d' k v
  end.

(** [{k.lower(): float(v) for k, v in keywords.items()}] *)
Definition lower_keys (items : list (str * PyFloat.t)) : list (str * PyFloat.t) :=
  fold_left (fun d kv => dict_set d (lower (fst kv)) (snd kv)) items [].

(** [Ranker.__init__] *)
Definition init (keywords : list (str * PyFloat.t)) (role : str) : t :=
  {| keywords := lower_keys keywords; role := lower role |}.

(** One turn of [for k, w in self.keywords.items()], on [total] and
    [matched]. *)
Definition keyword_step (t : str) (st : PyFloat.t * gmap str PyFloat.t)
  (kw : str * PyFloat.t) : PyFloat.t * gmap str PyFloat.t :=
  let '(total, matched) := st in
  let '(k, w) := kw in
  let cnt := count k t in
  if negb (cnt =? 0) then
    let v := PyFloat.mul (PyFloat.Num (Ranker.of_nat cnt)) w in
    (PyFloat.add total v, <[k := v]> matched)
  else (total, matched).

(** [if self.role: total += 2.0 * t.count(self.role)] *)
Definition add_role_bonus (r : t) (t : str) (total : PyFloat.t) : PyFloat.t :=
  match role r with
  | [] => total
  | _ :: _ => PyFloat.add total (PyFloat.Num (2 * Ranker.of_nat (count (role r) t)))
  end.

(** [Ranker.score] *)
Definition score (r : t) (text : str) : PyFloat.t * gmap str PyFloat.t :=
  let t := lower text in
  if startswith (py "[parse_error]") t then (PyFloat.Num 0, ∅)
  else
    let '(total, matched) :=
      fold_left (keyword_step t) (keywords r) (PyFloat.Num 0, ∅) in
    let total := add_role_bonus r t total in
    let total := PyFloat.add total (PyFloat.Num (Ranker.diversity_bonus t)) in
    (total, matched).

End FloatRanker.

Module FloatCandidate.
Record t : Type := {
  name : str;
  email : option str;
  phone : option str;
  path : str;
  text : str;
  score : PyFloat.t;
  matched : gmap str PyFloat.t;
  summary : str
}.
End FloatCandidate.

Module FloatCTkApp.
Import PyStr.

(** [c.score, c.matched = r.score(c.text)] *)
Definition rescore (r : FloatRanker.t) (c : FloatCandidate.t) : FloatCandidate.t :=
  let '(sc, matched) := FloatRanker.score r (FloatCandidate.text c) in
  {| FloatCandidate.name := FloatCandidate.name c;
     FloatCandidate.email := FloatCandidate.email c;
     FloatCandidate.phone := FloatCandidate.phone c;
     FloatCandidate.path := FloatCandidate.path c;
     FloatCandidate.text := FloatCandidate.text c;
     FloatCandidate.score := sc;
     FloatCandidate.matched := matched;
     FloatCandidate.summary := FloatCandidate.summary c |}.

(** The ranking pass of [rank_now] on [self.candidates], given what
    [self.parse_keywords()] and [self.job_title.get()] return. *)
Definition rank_candidates (keywords : list (str * PyFloat.t)) (job_title : str)
  (candidates : list FloatCandidate.t) : list FloatCandidate.t :=
  match candidates with
  | [] => []
  | _ :: _ =>
      let r := FloatRanker.init keywords job_title in
      PyList.sort PyFloat.lt FloatCandidate.score true (map (rescore r) candidates)
  end.

(** What [float] makes of a text ([None] when it raises). *)
Record World : Type := { float : str -> option PyFloat.t }.

(** The state of the window that ranking, filtering and sorting read and
    write. *)
Record state : Type := {
  file_queue : list str;
  candidates : list FloatCandidate.t;
  filtered : list FloatCandidate.t;
  kw_var : str;
  job_title : str;
  search_var : str;
  min_score_var : str
}.

Definition set_lists (st : state) (cands shown : list FloatCandidate.t) : state :=
  {| file_queue := file_queue st; candidates := cands; filtered := shown;
     kw_var := kw_var st; job_title := job_title st;
     search_var := search_var st; min_score_var := min_score_var st |}.

(** One turn of [for token in raw.split(',')]. *)
Definition keyword_token (w : World) (kw : list (str * PyFloat.t)) (token0 : str)
  : list (str * PyFloat.t) :=
  let token := strip token0 in
  match token with
  | [] => kw
  | _ :: _ =>
      if contains (py ":") token then
        let '(k, v) := Screen.cut_at ":" token in
        FloatRanker.dict_set kw (lower (strip k))
                             (default (PyFloat.Num 1) (float w (strip v)))
      else FloatRanker.dict_set kw (lower token) (PyFloat.Num 1)
  end.

(** [parse_keywords] on the text of the keyword field. *)
Definition parse_keywords (w : World) (raw : str) : list (str * PyFloat.t) :=
  fold_left (keyword_token w) (split (py ",") raw) [].

(** The test of one candidate in [apply_filters]. *)
Definition shown (q : str) (min_sc : PyFloat.t) (c : FloatCandidate.t) : bool :=
  PyFloat.le min_sc (FloatCandidate.score c)
  && (bool_decide (q = [])
      || contains q (lower (FloatCandidate.text c))
      || contains q (lower (FloatCandidate.name c))
      || contains q (lower (OsPath.basename (FloatCandidate.path c)))).

(** [float(self.min_score_var.get() or 0.0)], 0.0 when it raises. *)
Definition min_score (w : World) (raw : str) : PyFloat.t :=
  match raw with
  | [] => PyFloat.Num 0
  | _ :: _ => default (PyFloat.Num 0) (float w raw)
  end.

Definition filter_candidates (w : World) (search min_raw : str)
  (cands : list FloatCandidate.t) : list FloatCandidate.t :=
  List.filter (shown (strip (lower search)) (min_score w min_raw)) cands.

(** [apply_filters] *)
Definition apply_filters (w : World) (st : state) : state :=
  set_lists st (candidates st)
            (filter_candidates w (search_var st) (min_score_var st) (candidates st)).

(** [rank_now], with the table refreshed; the candidate it then previews
    is the first row, if there is one. *)
Definition rank_now (w : World) (st : state) : state :=
  match candidates st with
  | [] => st
  | _ :: _ =>
      apply_filters w
        (set_lists st
                   (rank_candidates (parse_keywords w (kw_var st)) (job_title st)
                                    (candidates st))
                   (filtered st))
  end.
Definition previewed (st : state) : option FloatCandidate.t := head (filtered st).

(** [_sort_by] *)
Definition _sort_by (col : Screen.column) (st : state) : state :=
  let rows := filtered st in
  let sorted :=
    match col with
    | Screen.col_name =>
        PyList.sort Screen.str_lt (fun c => lower (FloatCandidate.name c)) false rows
    | Screen.col_email =>
        PyList.sort Screen.str_lt
                    (fun c => lower (default [] (FloatCandidate.email c))) false rows
    | Screen.col_phone =>
        PyList.sort Screen.str_lt (fun c => default [] (FloatCandidate.phone c)) false rows
    | Screen.col_score => PyList.sort PyFloat.lt FloatCandidate.score true rows
    | Screen.col_file =>
        PyList.sort Screen.str_lt
                    (fun c => lower (OsPath.basename (FloatCandidate.path c))) false rows
    end in
  set_lists st (candidates st) sorted.

End FloatCTkApp.

(* ================================================================== *)
(** * Vocabulary of the properties                                     *)
(* ================================================================== *)

Module Props.
Import PyStr.

(** The sum over the profile of [cnt * weight], a keyword absent from
    the text counting for nothing. *)
Definition keyword_contributions (profile : list (str * Q)) (t : str) : Q :=
  fold_right (fun kw acc => (Ranker.of_nat (count kw.1 t) * kw.2 + acc)%Q) 0%Q profile.

(** What a role string adds: twice its number of occurrences. *)
Definition role_contribution (role t : str) : Q :=
  match role with
  | [] => 0%Q
  | _ :: _ => (2 * Ranker.of_nat (count role t))%Q
  end.

(** The keyword rule of [Ranker.score] for one scorer and one text: on
    the lowercased text, a profile keyword is a key of [matched] exactly
    when it is counted at least once, its entry is then [cnt * weight],
    [matched] has no other key, the entries are part of the total, and
    a text where no keyword occurs has an empty [matched] and a keyword
    contribution of zero. *)
Definition keyword_rule (r : Ranker.t) (text : str) : Prop :=
  let t := lower text in
  let total := (Ranker.score r text).1 in
  let matched := (Ranker.score r text).2 in
  (forall k w, (k, w) ∈ Ranker.keywords r ->
     (is_Some (matched !! k) <-> 0 < count k t) /\
     (0 < count k t -> matched !! k = Some (Ranker.of_nat (count k t) * w)%Q))
  /\ (forall k, is_Some (matched !! k) -> exists w, (k, w) ∈ Ranker.keywords r)
  /\ (total == keyword_contributions (Ranker.keywords r) t
               + role_contribution (Ranker.role r) t
               + Ranker.diversity_bonus t)%Q
  /\ ((forall k w, (k, w) ∈ Ranker.keywords r -> contains k t = false) ->
      matched = ∅ /\ (keyword_contributions (Ranker.keywords r) t == 0)%Q).

(** The rule of the empty role: the total is the keyword contributions
    plus the capped diversity bonus, although the (empty) role is
    counted [length + 1] times in the text. *)
Definition empty_role_rule (keywords : list (str * Q)) (text : str) : Prop :=
  let r := Ranker.init keywords [] in
  let t := lower text in
  ((Ranker.score r text).1 == keyword_contributions (Ranker.keywords r) t
                              + Ranker.diversity_bonus t)%Q
  /\ count (Ranker.role r) t = S (length text).


(** Scenario A: the text, the profile, and the scenario as the
    specification words it, with at most five distinct tokens behind the
    diversity bonus. *)
Definition text_A : str := py "Jane Doe jane.doe@example.com Python Python SQL".
Definition profile_A : list (str * Q) := [(py "python", 2%Q); (py "sql", 1%Q)].

Definition scenario_A_as_worded : Prop :=
  let r := Ranker.init profile_A [] in
  (Ranker.score r text_A).2 = {[ py "python" := 4%Q; py "sql" := 1%Q ]}
  /\ (exists n, n <= 5 /\ size (Ranker.tokens (lower text_A)) = n
                /\ ((Ranker.score r text_A).1 == 5 + Ranker.of_nat n / 500)%Q)
  /\ forall fallback,
       (CVProcessor.extract_contacts text_A fallback).1.2
       = Some (py "jane.doe@example.com").

(** Descending by score: no candidate scores less than one after it. *)
Definition by_score_desc (c d : Candidate.t) : Prop :=
  (Candidate.score d <= Candidate.score c)%Q.
Definition descending (l : list Candidate.t) : Prop := StronglySorted by_score_desc l.

(** The candidates of a list whose score is [v], in the order of the
    list. *)
Definition tied_at (v : Q) (l : list Candidate.t) : list Candidate.t :=
  List.filter (fun c => Qeq_bool (Candidate.score c) v) l.

(** What a ranking pass leaves alone. *)
Definition identity_fields (c : Candidate.t)
  : str * option str * option str * str * str * str :=
  (Candidate.name c, Candidate.email c, Candidate.phone c, Candidate.path c,
   Candidate.text c, Candidate.summary c).

(** Scenario D: two candidates that both score 5.0 under the profile
    [{ab: 5}], and a third that scores 10.0. *)
Definition candidate (name text : string) : Candidate.t :=
  {| Candidate.name := py name; Candidate.email := None; Candidate.phone := None;
     Candidate.path := py name ++ py ".pdf"; Candidate.text := py text;
     Candidate.score := 0%Q; Candidate.matched := ∅; Candidate.summary := [] |}.
Definition cand_X : Candidate.t := candidate "X" "ab".
Definition cand_Y : Candidate.t := candidate "Y" "AB!".
Definition cand_Z : Candidate.t := candidate "Z" "ab ab".

(** ** Archive expansion *)






(** An archive whose PDF members all differ in base file name. *)
Definition mixed_archive : list CVProcessor.ZipInfo :=
  [ {| CVProcessor.filename := py "anna/cv.pdf"; CVProcessor.content := [Byte.x01] |};
    {| CVProcessor.filename := py "boris/old/Resume.PDF"; CVProcessor.content := [Byte.x02] |};
    {| CVProcessor.filename := py "notes.txt"; CVProcessor.content := [Byte.x03] |};
    {| CVProcessor.filename := py "carol.pdf"; CVProcessor.content := [Byte.x04] |} ].

Definition cache : str := py "/tmp/ocpro_k3".

(** The text after the last occurrence of [c], if there is one. *)
Fixpoint tail_after (c : ascii) (s : str) : option str :=
  match s with
  | [] => None
  | x :: s' =>
      match tail_after c s' with
      | Some t => Some t
      | None => if Ascii.eqb x c then Some s' else None
      end
  end.

(** What [os.path.join] puts before a relative name. *)
Definition join_prefix (dir : str) : str :=
  match dir with
  | [] => []
  | _ :: _ => if endswith (py "/") dir then dir else dir ++ py "/"
  end.

(** A sample surrounding for the extractor: no pdfminer, a disk with
    one file that cannot be read and one small PDF, and a decoder for
    plain ASCII bytes. *)
Definition ascii_decode (data : CVProcessor.bytes) : str :=
  map (fun b => ascii_of_byte b)
      (List.filter (fun b => (Byte.to_N b <? 128)%N) data).

Definition sample_pdf : CVProcessor.bytes :=
  map byte_of_ascii
      (py "%PDF-1.4" ++ ["000"%char; "001"%char] ++ py "BT (cid:12) Jane"
       ++ ["002"%char] ++ py "   " ++ ["003"%char] ++ py "Doe   ET" ++ ["255"%char]).

Definition sample_env : CVProcessor.Env :=
  {| CVProcessor.HAS_PDFMINER := false;
     CVProcessor.pdfminer_extract_text := None;
     CVProcessor.read_file := fun path =>
       if bool_decide (path = py "cv.pdf") then CVProcessor.Returned sample_pdf
       else CVProcessor.Raised (CVProcessor.Exn (py "boom"));
     CVProcessor.decode_ignore := ascii_decode |}.

End Props.

(* ================================================================== *)
(** * Vocabulary of the further properties                             *)
(* ================================================================== *)

Module Facts.
Import PyStr Re.

(** [st'] lies ahead of [st] in one scan: the matcher has passed [mid]. *)
Definition passed (mid : str) (st st' : mstate) : Prop :=
  m_rest st = mid ++ m_rest st' /\ m_pre st' = rev mid ++ m_pre st.

(** The loop of a repetition, by name. *)
Definition rep_loop (body : mstate -> (mstate -> option mstate) -> option mstate)
  (greedy : bool) (k : mstate -> option mstate) : nat -> nat -> mstate -> option mstate :=
  fix loop (fuel need : nat) (st0 : mstate) {struct fuel} : option mstate :=
    match need with
    | S need' =>
        match fuel with
        | O => None
        | S fuel' => body st0 (fun st1 => loop fuel' need' st1)
        end
    | O =>
        if greedy then
          match
            match fuel with
            | O => None
            | S fuel' => body st0 (fun st1 => loop fuel' 0 st1)
            end
          with
          | Some e => Some e
          | None => k st0
          end
        else
          match k st0 with
          | Some e => Some e
          | None =>
              match fuel with
              | O => None
              | S fuel' => body st0 (fun st1 => loop fuel' 0 st1)
              end
          end
    end.

(** [s] with every maximal run of characters of the class [p] replaced
    by [repl]; [in_run] tells that the character before was of the class. *)
Fixpoint squeeze (p : ascii -> bool) (repl : str) (in_run : bool) (s : str) : str :=
  match s with
  | [] => []
  | c :: s' =>
      if p c then (if in_run then [] else repl) ++ squeeze p repl true s'
      else c :: squeeze p repl false s'
  end.

(** A text is tidy when its only blanks are single spaces between two
    other characters.  [after_blank] tells that the character before was
    a blank (or that the text starts here). *)
Fixpoint tidy_from (after_blank : bool) (s : str) : bool :=
  match s with
  | [] => negb after_blank
  | c :: s' =>
      if isspace c then negb after_blank && is_char " " c && tidy_from true s'
      else tidy_from false s'
  end.
Definition tidy (s : str) : bool :=
  match s with
  | [] => true
  | _ :: _ => tidy_from true s
  end.

(** Blanks are single spaces, but may stand at either end. *)
Fixpoint loose (after_blank : bool) (s : str) : bool :=
  match s with
  | [] => true
  | c :: s' =>
      if isspace c then negb after_blank && is_char " " c && loose true s'
      else loose false s'
  end.

(** What a pattern matches, read off its shape (the anchors and the word
    boundary match the empty text; where they may do so is not part of
    this reading). *)
Fixpoint matches (r : regex) (mid : str) : Prop :=
  match r with
  | Eps | Bol | Eol | Wordb => mid = []
  | Cls p => exists c, mid = [c] /\ p c = true
  | Seq r1 r2 => exists a b, mid = a ++ b /\ matches r1 a /\ matches r2 b
  | Alt r1 r2 => matches r1 mid \/ matches r2 mid
  | Rep _ lo hi r1 =>
      exists parts, mid = concat parts /\ Forall (matches r1) parts
                    /\ lo <= length parts
                    /\ match hi with Some h => length parts <= h | None => True end
  | Grp r1 => matches r1 mid
  end.

(** The number of decimal digits of a text, and the characters a phone
    number is written with. *)
Definition digits (s : str) : nat := length (List.filter is_09 s).
Definition phone_char (c : ascii) : bool := is_09 c || CVProcessor.one_of "+- " c.

(** [d.get(k)] on a [dict] kept in insertion order. *)
Fixpoint dict_get (d : list (str * Q)) (k : str) : option Q :=
  match d with
  | [] => None
  | (k', v) :: d' => if bool_decide (k' = k) then Some v else dict_get d' k
  end.

(** The weight given last, among the items of a profile, to a keyword
    that reads [k] in lower case. *)
Definition last_weight (items : list (str * Q)) (k : str) : option Q :=
  snd <$> last (List.filter (fun kv => bool_decide (lower kv.1 = k)) items).

(** What a profile read from the field is like: no keyword twice, every
    keyword in lower case, every weight 1 or a number read by [float]. *)
Definition field_profile (w : Screen.World) (kw : list (str * Q)) : Prop :=
  NoDup kw.*1
  /\ Forall (fun kv => lower kv.1 = kv.1) kw
  /\ Forall (fun kv => kv.2 = 1%Q \/ exists s, Screen.float w s = Some kv.2) kw.

(** ** The name read off a file name *)

(** The steps of the fallback as the source takes them, written out by
    hand: every run of underscores and hyphens becomes one space, every
    character that is then no letter, space, apostrophe or hyphen
    becomes a space, and the blanks at the two ends are dropped. *)
Definition is_separator (c : ascii) : bool := is_char "_" c || is_char "-" c.
Definition is_name_character (c : ascii) : bool :=
  is_alpha c || is_char " " c || is_char "'" c || is_char "-" c.
Definition cleaned (stem : str) : str :=
  strip (map (fun c => if is_name_character c then c else " "%char)
             (squeeze is_separator (py " ") false stem)).

(** The steps as the specification words them: the extension is
    stripped, underscores and hyphens are replaced with spaces, and the
    characters that are no name characters are stripped; the placeholder
    stands for an empty result. *)
Definition name_as_worded (fallback : str) : str :=
  let stem := (OsPath.splitext (OsPath.basename fallback)).1 in
  let spaced := map (fun c => if is_separator c then " "%char else c) stem in
  match List.filter is_name_character spaced with
  | [] => py "(Unknown)"
  | c :: base => c :: base
  end.

(** ** The table *)

(** Whether the row [x] has to stand behind the row [y] in a table
    sorted by the column. *)
Definition column_follow (col : Screen.column) (x y : Candidate.t) : bool :=
  match col with
  | Screen.col_name =>
      Screen.must_follow Screen.str_lt (fun c => lower (Candidate.name c)) false x y
  | Screen.col_email =>
      Screen.must_follow Screen.str_lt
        (fun c => lower (default [] (Candidate.email c))) false x y
  | Screen.col_phone =>
      Screen.must_follow Screen.str_lt (fun c => default [] (Candidate.phone c)) false x y
  | Screen.col_score => Screen.must_follow Screen.Qlt_bool Candidate.score true x y
  | Screen.col_file =>
      Screen.must_follow Screen.str_lt
        (fun c => lower (OsPath.basename (Candidate.path c))) false x y
  end.

(** The rows that neither have to follow [c0] nor [c0] them: the rows of
    the same key. *)
Definition same_key {A : Type} (follow : A -> A -> bool) (c0 : A) (l : list A) : list A :=
  List.filter (fun x => negb (follow c0 x) && negb (follow x c0)) l.

(** A world for the examples: [float] reads unsigned whole numbers, no
    text extractor is installed, no file is an archive. *)
Definition digit_float (s : str) : option Q :=
  match s with
  | [] => None
  | _ :: _ =>
      if forallb is_09 s
      then Some (inject_Z (fold_left (fun n c => 10 * n + Z.of_nat (ord c - 48)) s 0)%Z)
      else None
  end.
Definition plain_world : Screen.World :=
  {| Screen.float := digit_float;
     Screen.has_pdfminer := false;
     Screen.pdfminer := None;
     Screen.decode := Props.ascii_decode;
     Screen.read_zip :=
       fun _ => CVProcessor.Raised (CVProcessor.Exn (py "File is not a zip file"));
     Screen.open_error :=
       fun path => CVProcessor.Exn (py "[Errno 2] No such file or directory: '" ++ path
                                    ++ py "'") |}.

(** A window with two documents loaded and nothing ranked yet. *)
Definition desk : Screen.state :=
  {| Screen.cache_dir := Props.cache;
     Screen.file_queue := [py "X.pdf"; py "Y.pdf"];
     Screen.candidates := [Props.cand_X; Props.cand_Y];
     Screen.filtered := [Props.cand_X; Props.cand_Y];
     Screen.kw_var := py "ab:2, cd";
     Screen.job_title := [];
     Screen.search_var := [];
     Screen.min_score_var := [];
     Screen.disk := ∅ |}.

(** A window with nothing loaded, and on the disk two documents of the
    same file name in two directories. *)
Definition shelf : Screen.state :=
  {| Screen.cache_dir := Props.cache;
     Screen.file_queue := [];
     Screen.candidates := [];
     Screen.filtered := [];
     Screen.kw_var := [];
     Screen.job_title := [];
     Screen.search_var := [];
     Screen.min_score_var := [];
     Screen.disk := {[ py "anna/cv.pdf" := map byte_of_ascii (py "Anna Smith  sql");
                       py "boris/cv.pdf" := map byte_of_ascii (py "Boris Jones  python") ]} |}.

(** ** The window *)

(** What the user does with the window, and the method that answers. *)
Inductive action : Type :=
| Load (paths : list str)
| Remove_selected (sel : list nat)
| Clear_queue
| Rank_now
| Sort_by (col : Screen.column)
| Apply_filters.

Definition perform (w : Screen.World) (a : action) (st : Screen.state) : Screen.state :=
  match a with
  | Load paths => Screen._load_paths w paths st
  | Remove_selected sel => Screen.remove_selected_from_queue w sel st
  | Clear_queue => Screen.clear_queue w st
  | Rank_now => Screen.rank_now w st
  | Sort_by col => Screen._sort_by col st
  | Apply_filters => Screen.apply_filters w st
  end.

(** The queue names no file twice, every candidate is a file of the
    queue, and every row of the table is a candidate. *)
Definition consistent (st : Screen.state) : Prop :=
  List.NoDup (Screen.file_queue st)
  /\ (forall c, In c (Screen.candidates st) -> In (Candidate.path c) (Screen.file_queue st))
  /\ (forall c, In c (Screen.filtered st) -> In c (Screen.candidates st)).

(** The entries of a list, counted from [i], whose position is not
    among [sel]. *)
Fixpoint unselected {A : Type} (sel : list nat) (i : nat) (l : list A) : list A :=
  match l with
  | [] => []
  | x :: l' =>
      if existsb (Nat.eqb i) sel then unselected sel (S i) l'
      else x :: unselected sel (S i) l'
  end.

End Facts.

(* ================================================================== *)
(** * Vocabulary of the properties over floats                         *)
(* ================================================================== *)

Module FloatProps.
Import PyStr.

(** ** Sorted lists *)

(** No element of the list is less than one before it. *)
Definition ascending {A K : Type} (lt : K -> K -> bool) (key : A -> K) (l : list A) : Prop :=
  StronglySorted (fun a b => PyList.klt lt key b a = false) l.

(** No element of the list is less than one behind it. *)
Definition not_ascending_back {A K : Type} (lt : K -> K -> bool) (key : A -> K)
  (l : list A) : Prop :=
  StronglySorted (fun a b => PyList.klt lt key a b = false) l.

(** The order that [list.sort] with these arguments is to bring about. *)
Definition in_order {A K : Type} (lt : K -> K -> bool) (key : A -> K) (reverse : bool)
  (l : list A) : Prop :=
  if reverse then not_ascending_back lt key l else ascending lt key l.

(** The elements of a list whose key is neither below nor above [k0]:
    those of the same key, in the order of the list. *)
Definition level {A K : Type} (lt : K -> K -> bool) (key : A -> K) (k0 : K)
  (l : list A) : list A :=
  List.filter (fun x => negb (lt k0 (key x)) && negb (lt (key x) k0)) l.

(** Every key of the list satisfies [P]. *)
Definition keys_in {A K : Type} (key : A -> K) (P : K -> Prop) (l : list A) : Prop :=
  List.Forall (fun x => P (key x)) l.

(** ** Candidates *)

(** [d] may stand behind [c] in a list sorted descending by score. *)
Definition by_score_desc (c d : FloatCandidate.t) : Prop :=
  PyFloat.le (FloatCandidate.score d) (FloatCandidate.score c) = true.
Definition descending (l : list FloatCandidate.t) : Prop := StronglySorted by_score_desc l.

(** The candidates of a list whose score equals [v], in the order of the
    list. *)
Definition tied_at (v : PyFloat.t) (l : list FloatCandidate.t) : list FloatCandidate.t :=
  List.filter (fun c => PyFloat.eqb (FloatCandidate.score c) v) l.

(** No candidate of the list has the score NaN. *)
Definition no_nan (l : list FloatCandidate.t) : Prop :=
  List.Forall (fun c => PyFloat.is_nan (FloatCandidate.score c) = false) l.

(** A float that is at least 0: a number that is not negative, or plus
    infinity. *)
Definition at_least_zero (x : PyFloat.t) : Prop := PyFloat.le (PyFloat.Num 0) x = true.

(** What a ranking pass leaves alone. *)
Definition identity_fields (c : FloatCandidate.t)
  : str * option str * option str * str * str * str :=
  (FloatCandidate.name c, FloatCandidate.email c, FloatCandidate.phone c,
   FloatCandidate.path c, FloatCandidate.text c, FloatCandidate.summary c).

(** ** Numbers as floats *)

(** A profile, a scorer and a candidate of the embedding over rational
    numbers, read as ones over floats. *)
Definition num_profile (kws : list (str * Q)) : list (str * PyFloat.t) :=
  map (fun kv => (kv.1, PyFloat.Num kv.2)) kws.
Definition num_ranker (r : Ranker.t) : FloatRanker.t :=
  {| FloatRanker.keywords := num_profile (Ranker.keywords r);
     FloatRanker.role := Ranker.role r |}.
Definition num_candidate (c : Candidate.t) : FloatCandidate.t :=
  {| FloatCandidate.name := Candidate.name c;
     FloatCandidate.email := Candidate.email c;
     FloatCandidate.phone := Candidate.phone c;
     FloatCandidate.path := Candidate.path c;
     FloatCandidate.text := Candidate.text c;
     FloatCandidate.score := PyFloat.Num (Candidate.score c);
     FloatCandidate.matched := PyFloat.Num <$> Candidate.matched c;
     FloatCandidate.summary := Candidate.summary c |}.

(** Three candidates, and a profile with the weight that
    [float("nan")] gives: the first and the third candidate score a
    number, the second, whose text holds the keyword of that weight,
    scores NaN. *)
Definition candidate (name text : string) : FloatCandidate.t :=
  {| FloatCandidate.name := py name; FloatCandidate.email := None;
     FloatCandidate.phone := None;
     FloatCandidate.path := py name ++ py ".pdf"; FloatCandidate.text := py text;
     FloatCandidate.score := PyFloat.Num 0; FloatCandidate.matched := ∅;
     FloatCandidate.summary := [] |}.
Definition cand_X : FloatCandidate.t := candidate "X" "cd".
Definition cand_Y : FloatCandidate.t := candidate "Y" "ab".
Definition cand_Z : FloatCandidate.t := candidate "Z" "cd cd".
Definition nan_profile : list (str * PyFloat.t) :=
  [(py "ab", PyFloat.NaN); (py "cd", PyFloat.Num 1)].

(** A world whose [float] reads unsigned whole numbers and "nan". *)
Definition nan_world : FloatCTkApp.World :=
  {| FloatCTkApp.float := fun s =>
       if bool_decide (lower s = py "nan") then Some PyFloat.NaN
       else PyFloat.Num <$> Facts.digit_float s |}.

(** A window with the three candidates loaded. *)
Definition desk (kw : string) : FloatCTkApp.state :=
  {| FloatCTkApp.file_queue := [py "X.pdf"; py "Y.pdf"; py "Z.pdf"];
     FloatCTkApp.candidates := [cand_X; cand_Y; cand_Z];
     FloatCTkApp.filtered := [cand_X; cand_Y; cand_Z];
     FloatCTkApp.kw_var := py kw;
     FloatCTkApp.job_title := [];
     FloatCTkApp.search_var := [];
     FloatCTkApp.min_score_var := py "0" |}.

End FloatProps.

(* ================================================================== *)
(** * Properties of the scorer                                         *)
(* ================================================================== *)

Section StringFacts.
Import PyStr.

Lemma startswith_app (p s : str) : startswith p (p ++ s) = true.
Proof.
  induction p as [|a p IH]; simpl; [reflexivity|].
  rewrite Ascii.eqb_refl. exact IH.
Qed.

Lemma startswith_spec (p s : str) :
  startswith p s = true <-> exists rest, s = p ++ rest.
Proof.
  split.
  - revert s. induction p as [|a p IH]; intros s H.
    + exists s. reflexivity.
    + destruct s as [|b s]; simpl in H; [discriminate|].
      apply andb_true_iff in H as [Hab Hps].
      apply Ascii.eqb_eq in Hab. subst b.
      destruct (IH s Hps) as [rest ->]. exists rest. reflexivity.
  - intros [rest ->]. apply startswith_app.
Qed.

Lemma lower_app (a b : str) : lower (a ++ b) = lower a ++ lower b.
Proof. apply map_app. Qed.

Lemma lower_length (s : str) : length (lower s) = length s.
Proof. apply length_map. Qed.

(** A substring that occurs nowhere is counted zero times, whatever is
    still to be skipped. *)
Lemma count_from_absent (sub : str) (s : str) (skip : nat) :
  contains sub s = false -> count_from sub skip s = 0.
Proof.
  revert skip. induction s as [|c s IH]; intros skip H; [reflexivity|].
  cbn [contains] in H. apply orb_false_iff in H as [Hhere Hlater].
  cbn [count_from]. destruct skip as [|n].
  - rewrite Hhere. apply IH, Hlater.
  - apply IH, Hlater.
Qed.

Lemma count_absent (sub s : str) : contains sub s = false -> count sub s = 0.
Proof.
  destruct sub as [|a sub]; intros H.
  - destruct s; discriminate H.
  - apply count_from_absent, H.
Qed.

Lemma count_present (sub s : str) : contains sub s = true -> 0 < count sub s.
Proof.
  destruct sub as [|a sub]; intros H; [unfold count; lia|].
  unfold count. induction s as [|c s IH]; [discriminate H|].
  cbn [contains] in H. cbn [count_from].
  destruct (startswith (a :: sub) (c :: s)) eqn:E.
  - lia.
  - apply IH, H.
Qed.

(** [count] is positive exactly on the substrings that occur. *)
Lemma count_pos_iff (sub s : str) : 0 < count sub s <-> contains sub s = true.
Proof.
  split; [|apply count_present].
  destruct (contains sub s) eqn:E; [reflexivity|].
  rewrite (count_absent _ _ E). lia.
Qed.

End StringFacts.

Section RankerFacts.
Import PyStr Ranker Props.

Lemma of_nat_nonneg (n : nat) : (0 <= of_nat n)%Q.
Proof. unfold of_nat, Qle; simpl. lia. Qed.

Lemma of_nat_pos (n : nat) : 0 < n -> (0 < of_nat n)%Q.
Proof. intros H. unfold of_nat, Qlt; simpl. lia. Qed.

(** ** The dictionary built by [__init__] *)

Lemma dict_set_keys_other (d : list (str * Q)) (k : str) (v : Q) (k' : str) :
  k' ∈ (dict_set d k v).*1 <-> k' = k \/ k' ∈ d.*1.
Proof.
  induction d as [|[k0 v0] d IH]; simpl.
  - rewrite list_elem_of_singleton, elem_of_nil. tauto.
  - case_bool_decide as E; simpl.
    + subst k0. rewrite !elem_of_cons. tauto.
    + rewrite !elem_of_cons, IH. tauto.
Qed.

Lemma dict_set_NoDup (d : list (str * Q)) (k : str) (v : Q) :
  NoDup d.*1 -> NoDup (dict_set d k v).*1.
Proof.
  induction d as [|[k0 v0] d IH]; simpl; intros H.
  - apply NoDup_singleton.
  - apply NoDup_cons in H as [Hk0 Hd].
    case_bool_decide as E; simpl.
    + apply NoDup_cons. split; assumption.
    + apply NoDup_cons. split; [|apply IH, Hd].
      rewrite dict_set_keys_other. intros [->|Hin]; [apply E; reflexivity|].
      apply Hk0, Hin.
Qed.

Lemma lower_keys_acc_NoDup (items d : list (str * Q)) :
  NoDup d.*1 ->
  NoDup (fold_left (fun d kv => dict_set d (lower kv.1) kv.2) items d).*1.
Proof.
  revert d. induction items as [|kv items IH]; intros d H; simpl; [exact H|].
  apply IH, dict_set_NoDup, H.
Qed.

(** The profile a [Ranker] holds has each keyword once. *)
Lemma init_keywords_NoDup (kws : list (str * Q)) (role : str) :
  NoDup (keywords (init kws role)).*1.
Proof. apply lower_keys_acc_NoDup. constructor. Qed.

(** ** The keyword loop *)

Lemma keyword_loop_total (t : str) (kws : list (str * Q)) (tot : Q) (m : gmap str Q) :
  ((fold_left (keyword_step t) kws (tot, m)).1 == tot + keyword_contributions kws t)%Q.
Proof.
  revert tot m. induction kws as [|[k w] kws IH]; intros tot m; simpl.
  - rewrite Qplus_0_r. reflexivity.
  - destruct (count k t) as [|n] eqn:E; simpl.
    + rewrite IH. unfold of_nat. simpl inject_Z.
      rewrite Qmult_0_l, Qplus_0_l. reflexivity.
    + rewrite IH. rewrite Qplus_assoc. reflexivity.
Qed.

Lemma keyword_loop_other (t : str) (kws : list (str * Q)) (tot : Q) (m : gmap str Q)
  (k : str) :
  k ∉ kws.*1 -> (fold_left (keyword_step t) kws (tot, m)).2 !! k = m !! k.
Proof.
  revert tot m. induction kws as [|[k0 w0] kws IH]; intros tot m Hk; simpl; [reflexivity|].
  simpl in Hk. apply not_elem_of_cons in Hk as [Hne Hk].
  destruct (count k0 t) as [|n]; simpl.
  - apply IH, Hk.
  - rewrite IH by exact Hk. apply lookup_insert_ne. congruence.
Qed.

Lemma keyword_loop_entry (t : str) (kws : list (str * Q)) (tot : Q) (m : gmap str Q)
  (k : str) (w : Q) :
  NoDup kws.*1 -> (k, w) ∈ kws ->
  (fold_left (keyword_step t) kws (tot, m)).2 !! k
  = if count k t =? 0 then m !! k else Some (of_nat (count k t) * w)%Q.
Proof.
  revert tot m. induction kws as [|[k0 w0] kws IH]; intros tot m Hnd Hin.
  - apply elem_of_nil in Hin. contradiction.
  - simpl in Hnd. apply NoDup_cons in Hnd as [Hk0 Hnd].
    apply elem_of_cons in Hin as [Heq|Hin].
    + injection Heq as <- <-. simpl.
      destruct (count k t) as [|n] eqn:E; simpl.
      * apply keyword_loop_other, Hk0.
      * rewrite keyword_loop_other by exact Hk0. apply lookup_insert_eq.
    + assert (k <> k0) as Hne.
      { intros ->. apply Hk0. apply list_elem_of_fmap. exists (k0, w). auto. }
      simpl. destruct (count k0 t) as [|n]; simpl.
      * apply IH; assumption.
      * rewrite IH by assumption.
        destruct (count k t =? 0); [|reflexivity].
        apply lookup_insert_ne. congruence.
Qed.

Lemma keyword_loop_keys (t : str) (kws : list (str * Q)) (tot : Q) (m : gmap str Q)
  (k : str) :
  is_Some ((fold_left (keyword_step t) kws (tot, m)).2 !! k) ->
  is_Some (m !! k) \/ k ∈ kws.*1.
Proof.
  intros H. destruct (decide (k ∈ kws.*1)) as [Hin|Hout]; [right; exact Hin|].
  left. rewrite keyword_loop_other in H by exact Hout. exact H.
Qed.

Lemma contributions_absent (t : str) (kws : list (str * Q)) :
  (forall k w, (k, w) ∈ kws -> contains k t = false) ->
  (keyword_contributions kws t == 0)%Q
  /\ forall tot m, (fold_left (keyword_step t) kws (tot, m)).2 = m.
Proof.
  induction kws as [|[k w] kws IH]; intros H; simpl.
  - split; [reflexivity|]. reflexivity.
  - assert (count k t = 0) as E.
    { apply count_absent. apply (H k w). apply elem_of_cons; left; reflexivity. }
    destruct IH as [IH1 IH2].
    { intros k' w' Hin. apply (H k' w'). apply elem_of_cons; right; exact Hin. }
    rewrite E. simpl. split.
    + rewrite IH1. unfold of_nat. simpl inject_Z. rewrite Qmult_0_l, Qplus_0_l. reflexivity.
    + intros tot m. apply IH2.
Qed.

(** [score] on a text that is not an error text, by its parts. *)
Lemma score_unfold (r : Ranker.t) (text : str) :
  startswith (py "[parse_error]") (lower text) = false ->
  score r text
  = let st := fold_left (keyword_step (lower text)) (keywords r) (0%Q, ∅) in
    ((add_role_bonus r (lower text) st.1 + diversity_bonus (lower text))%Q, st.2).
Proof.
  intros H. unfold score. rewrite H.
  destruct (fold_left _ _ _) as [total matched]. reflexivity.
Qed.

Lemma add_role_bonus_eq (r : Ranker.t) (t : str) (total : Q) :
  (add_role_bonus r t total == total + role_contribution (role r) t)%Q.
Proof.
  unfold add_role_bonus, role_contribution. destruct (role r).
  - rewrite Qplus_0_r. reflexivity.
  - reflexivity.
Qed.

(** The keyword rule holds of every scorer with distinct keywords, on
    every text that is not an error text. *)
Lemma keyword_rule_holds (r : Ranker.t) (text : str) :
  NoDup (keywords r).*1 ->
  startswith (py "[parse_error]") (lower text) = false ->
  keyword_rule r text.
Proof.
  intros Hnd Hok. unfold keyword_rule. rewrite (score_unfold r text Hok).
  cbn zeta. cbn [fst snd]. repeat split.
  - rewrite (keyword_loop_entry _ _ _ _ _ _ Hnd H), lookup_empty.
    destruct (count k (lower text)); simpl; intros Hs; [|lia].
    destruct Hs as [? Hs]; discriminate Hs.
  - rewrite (keyword_loop_entry _ _ _ _ _ _ Hnd H), lookup_empty.
    destruct (count k (lower text)); simpl; intros Hs; [lia|eauto].
  - intros Hpos. rewrite (keyword_loop_entry _ _ _ _ _ _ Hnd H).
    destruct (count k (lower text)); simpl; [lia|reflexivity].
  - intros k Hs. apply keyword_loop_keys in Hs as [Hs|Hin].
    + rewrite lookup_empty in Hs. destruct Hs as [? Hs]; discriminate Hs.
    + apply list_elem_of_fmap in Hin as [[k' w] [-> Hin]]. exists w. exact Hin.
  - rewrite add_role_bonus_eq, keyword_loop_total, Qplus_0_l. reflexivity.
  - apply contributions_absent, H.
  - apply contributions_absent, H.
Qed.

End RankerFacts.

Section RankerClaims.
Import PyStr Ranker Props.

(** Claim C1, amended.  For every keyword profile and every text that
    does not begin with the error marker (in any letter case), the
    keyword rule holds: on the lowercased text, a profile keyword [k] of
    weight [w] is a key of [matched] if and only if its count is
    positive, [matched[k]] is then [cnt * w], these entries are summed
    into the total, and when no keyword occurs in the text [matched] is
    empty and the keyword contribution is zero. *)
Theorem score_keyword_rule (kws : list (str * Q)) (role text : str) :
  startswith (py "[parse_error]") (lower text) = false ->
  keyword_rule (init kws role) text.
Proof.
  intros Hok. apply keyword_rule_holds; [apply init_keywords_NoDup | exact Hok].
Qed.

Lemma score_keyword_rule_witness :
  startswith (py "[parse_error]") (lower text_A) = false
  /\ keyword_rule (init profile_A (py "Engineer")) text_A.
Proof.
  split; [reflexivity | apply score_keyword_rule; reflexivity].
Defined.

(** Claim C1 as worded fails on an error text: the keyword is counted
    once in the lowercased text and yet is no key of [matched]. *)
Lemma score_keyword_rule_fails_on_error_text :
  ~ keyword_rule (init [(py "python", 1%Q)] []) (py "[PARSE_ERROR] python").
Proof.
  intros [Hkeys _].
  destruct (Hkeys (py "python") 1%Q) as [[_ Hin] _].
  { vm_compute. apply elem_of_cons. left. reflexivity. }
  destruct Hin as [v Hv].
  - vm_compute. lia.
  - vm_compute in Hv. discriminate Hv.
Qed.

(** Claim C2.  Whatever the keywords, the weights and the role, a text
    that begins with the error marker scores exactly 0 with an empty
    [matched]. *)
Theorem score_error_text (r : Ranker.t) (rest : str) :
  score r (CVProcessor.PARSE_ERROR ++ rest) = (0%Q, ∅).
Proof.
  unfold score. rewrite lower_app.
  change (lower CVProcessor.PARSE_ERROR) with (py "[parse_error]").
  rewrite startswith_app. reflexivity.
Qed.

(** Scenario B: the text an extraction failure leaves scores nothing. *)
Example scenario_B (r : Ranker.t) :
  score r (CVProcessor.parse_error_text (CVProcessor.Exn (py "boom"))) = (0%Q, ∅).
Proof. unfold score. reflexivity. Qed.

(** Claim C10, amended.  With an empty role and a text that does not
    begin with the error marker, the total is the keyword contributions
    plus the capped diversity bonus and nothing else, although the empty
    role is counted [length + 1] times in the text. *)
Theorem empty_role_adds_nothing (kws : list (str * Q)) (text : str) :
  startswith (py "[parse_error]") (lower text) = false ->
  empty_role_rule kws text.
Proof.
  intros Hok. unfold empty_role_rule. cbn zeta. split.
  - rewrite (score_unfold _ _ Hok). cbn zeta. cbn [fst snd].
    unfold add_role_bonus. cbn [role init lower map].
    rewrite keyword_loop_total, Qplus_0_l. reflexivity.
  - cbn. rewrite lower_length. reflexivity.
Qed.

Lemma empty_role_adds_nothing_witness :
  startswith (py "[parse_error]") (lower text_A) = false
  /\ empty_role_rule profile_A text_A.
Proof.
  split; [reflexivity | apply empty_role_adds_nothing; reflexivity].
Defined.

(** Claim C10 as worded fails on an error text: the score is 0 while
    the three tokens of the text give a diversity bonus of 3/500. *)
Lemma empty_role_rule_fails_on_error_text :
  ~ empty_role_rule [] (py "[PARSE_ERROR] boom").
Proof.
  intros [Htotal _]. vm_compute in Htotal. discriminate Htotal.
Qed.

(** ** Monotonicity in the weights *)








(** ** Scenario A *)

(** Claim C3, amended.  With the profile [{python: 2, sql: 1}] and the
    empty role, the text of scenario A has [matched = {python: 4, sql:
    1}]; its lowercased form has six distinct alphabetic tokens of
    length at least 3 (jane, doe, example, com, python, sql), so the
    diversity bonus is 6/500 = 0.012 and the score 5.012; and
    [extract_contacts] finds the e-mail address
    [jane.doe@example.com]. *)
Theorem scenario_A :
  let r := init profile_A [] in
  (score r text_A).2 = {[ py "python" := 4%Q; py "sql" := 1%Q ]}
  /\ tokens (lower text_A)
     = list_to_set (map py ["jane"; "doe"; "example"; "com"; "python"; "sql"]%string)
  /\ size (tokens (lower text_A)) = 6
  /\ (diversity_bonus (lower text_A) == 12 # 1000)%Q
  /\ ((score r text_A).1 == 5012 # 1000)%Q
  /\ forall fallback,
       (CVProcessor.extract_contacts text_A fallback).1.2
       = Some (py "jane.doe@example.com").
Proof.
  cbn zeta. repeat split; try (vm_compute; reflexivity).
Qed.

(** Claim C3 as worded fails: the tokens behind the diversity bonus are
    six, not five or fewer. *)
Lemma scenario_A_not_as_worded : ~ scenario_A_as_worded.
Proof.
  intros (_ & (n & Hle & Hsize & _) & _).
  vm_compute in Hsize. subst n. lia.
Qed.

End RankerClaims.

(* ================================================================== *)
(** * Properties of the ranking pass                                   *)
(* ================================================================== *)

Section RankingFacts.
Import Props CTkApp.

Lemma insert_desc_perm (c : Candidate.t) (l : list Candidate.t) :
  Permutation (insert_desc c l) (c :: l).
Proof.
  induction l as [|d l IH]; simpl; [reflexivity|].
  destruct (Qle_bool _ _); [reflexivity|].
  rewrite IH. apply perm_swap.
Qed.

Lemma sort_perm (l : list Candidate.t) : Permutation (sort_by_score_desc l) l.
Proof.
  induction l as [|c l IH]; simpl; [reflexivity|].
  rewrite insert_desc_perm, IH. reflexivity.
Qed.

Lemma insert_desc_sorted (c : Candidate.t) (l : list Candidate.t) :
  descending l -> descending (insert_desc c l).
Proof.
  unfold descending. induction l as [|d l IH]; intros Hs; simpl.
  - constructor; constructor.
  - apply StronglySorted_inv in Hs as [Hl Hd].
    destruct (Qle_bool (Candidate.score d) (Candidate.score c)) eqn:E.
    + apply Qle_bool_iff in E.
      constructor; [constructor; assumption|].
      constructor; [exact E|].
      eapply List.Forall_impl; [|exact Hd].
      intros x Hx. unfold by_score_desc in *. eapply Qle_trans; eassumption.
    + constructor; [apply IH, Hl|].
      rewrite insert_desc_perm. constructor; [|exact Hd].
      unfold by_score_desc. apply Qlt_le_weak, Qnot_le_lt.
      intros Hle. apply Qle_bool_iff in Hle. congruence.
Qed.

Lemma sort_sorted (l : list Candidate.t) : descending (sort_by_score_desc l).
Proof.
  induction l as [|c l IH]; simpl; [constructor|].
  apply insert_desc_sorted, IH.
Qed.

(** Inserting never carries a candidate past one of the same score. *)
Lemma insert_desc_ties (v : Q) (c : Candidate.t) (l : list Candidate.t) :
  tied_at v (insert_desc c l) = tied_at v (c :: l).
Proof.
  induction l as [|d l IH]; [reflexivity|].
  cbn [insert_desc].
  destruct (Qle_bool (Candidate.score d) (Candidate.score c)) eqn:E; [reflexivity|].
  unfold tied_at in *. cbn [List.filter] in *. rewrite IH.
  destruct (Qeq_bool (Candidate.score c) v) eqn:Ec;
    destruct (Qeq_bool (Candidate.score d) v) eqn:Ed; try reflexivity.
  apply Qeq_bool_iff in Ec, Ed.
  assert (Qle_bool (Candidate.score d) (Candidate.score c) = true) as Hle.
  { apply Qle_bool_iff. rewrite Ec, Ed. apply Qle_refl. }
  congruence.
Qed.

Lemma sort_ties (v : Q) (l : list Candidate.t) :
  tied_at v (sort_by_score_desc l) = tied_at v l.
Proof.
  induction l as [|c l IH]; [reflexivity|].
  cbn [sort_by_score_desc fold_right]. rewrite insert_desc_ties.
  unfold tied_at in *. cbn [List.filter]. fold (sort_by_score_desc l).
  rewrite IH. reflexivity.
Qed.

(** Sorting a list that is already in order changes nothing. *)
Lemma sort_descending_id (l : list Candidate.t) :
  descending l -> sort_by_score_desc l = l.
Proof.
  unfold descending. induction l as [|c l IH]; intros Hs; [reflexivity|].
  apply StronglySorted_inv in Hs as [Hl Hc].
  cbn [sort_by_score_desc fold_right]. fold (sort_by_score_desc l).
  rewrite (IH Hl). destruct l as [|d l]; [reflexivity|].
  cbn [insert_desc]. apply List.Forall_inv in Hc.
  apply Qle_bool_iff in Hc. rewrite Hc. reflexivity.
Qed.

Lemma rank_now_eq (kws : list (str * Q)) (title : str) (cands : list Candidate.t) :
  rank_now kws title cands
  = sort_by_score_desc (map (rescore (Ranker.init kws title)) cands).
Proof. destruct cands; reflexivity. Qed.

Lemma rescore_identity (r : Ranker.t) (c : Candidate.t) :
  identity_fields (rescore r c) = identity_fields c.
Proof.
  unfold rescore. destruct (Ranker.score r (Candidate.text c)). reflexivity.
Qed.

Lemma rescore_result (r : Ranker.t) (c : Candidate.t) :
  (Candidate.score (rescore r c), Candidate.matched (rescore r c))
  = Ranker.score r (Candidate.text c).
Proof.
  unfold rescore. destruct (Ranker.score r (Candidate.text c)). reflexivity.
Qed.

Lemma rescore_text (r : Ranker.t) (c : Candidate.t) :
  Candidate.text (rescore r c) = Candidate.text c.
Proof.
  unfold rescore. destruct (Ranker.score r (Candidate.text c)). reflexivity.
Qed.

Lemma rescore_idempotent (r : Ranker.t) (c : Candidate.t) :
  rescore r (rescore r c) = rescore r c.
Proof.
  unfold rescore at 1. rewrite rescore_text.
  unfold rescore. destruct (Ranker.score r (Candidate.text c)). reflexivity.
Qed.

Lemma map_fixed {A : Type} (f : A -> A) (l : list A) :
  (forall x, In x l -> f x = x) -> map f l = l.
Proof.
  induction l as [|a l IH]; intros H; simpl; [reflexivity|].
  rewrite H by (left; reflexivity). rewrite IH; [reflexivity|].
  intros x Hx. apply H. right. exact Hx.
Qed.

(** Scenario D: the candidates X and Y both score 5.0 and stay in the
    order of insertion, behind Z, which scores 10.0. *)
Example scenario_D :
  map (fun c => (Candidate.name c, Qred (Candidate.score c)))
      (rank_now [(py "ab", 5%Q)] [] [cand_X; cand_Y; cand_Z])
  = [(py "Z", 10%Q); (py "X", 5%Q); (py "Y", 5%Q)].
Proof. vm_compute. reflexivity. Qed.

(** Claim C8.  A ranking pass leaves the name, e-mail, phone, path and
    text (and summary) of every candidate as they were and sets score
    and matched to what the scorer returns on the candidate's text; a
    second pass with the same profile and role changes nothing more,
    for each candidate and for the list. *)
Theorem rank_now_frame_idempotent (kws : list (str * Q)) (title : str)
  (cands : list Candidate.t) :
  let r := Ranker.init kws title in
  Permutation (map identity_fields (rank_now kws title cands))
              (map identity_fields cands)
  /\ (forall c, In c (rank_now kws title cands) ->
        (Candidate.score c, Candidate.matched c) = Ranker.score r (Candidate.text c))
  /\ (forall c, identity_fields (rescore r c) = identity_fields c
                /\ rescore r (rescore r c) = rescore r c)
  /\ rank_now kws title (rank_now kws title cands) = rank_now kws title cands.
Proof.
  cbn zeta. set (r := Ranker.init kws title).
  assert (forall c, In c (rank_now kws title cands) -> exists c0, c = rescore r c0) as Himg.
  { intros c Hc. rewrite rank_now_eq in Hc.
    apply (Permutation_in _ (sort_perm _)) in Hc.
    apply in_map_iff in Hc as (c0 & <- & _). exists c0. reflexivity. }
  repeat split.
  - rewrite rank_now_eq, sort_perm, map_map.
    erewrite map_ext; [reflexivity|]. intros c. apply rescore_identity.
  - intros c Hc. destruct (Himg c Hc) as [c0 ->].
    rewrite rescore_result, rescore_text. reflexivity.
  - apply rescore_identity.
  - apply rescore_idempotent.
  - rewrite (rank_now_eq kws title (rank_now kws title cands)). fold r.
    rewrite map_fixed.
    + rewrite rank_now_eq. apply sort_descending_id, sort_sorted.
    + intros c Hc. destruct (Himg c Hc) as [c0 ->]. apply rescore_idempotent.
Qed.

End RankingFacts.

(* ================================================================== *)
(** * Properties of [list.sort]                                        *)
(* ================================================================== *)

Section PySortPerm.
Import PyList.
Context {A K : Type} (lt : K -> K -> bool) (key : A -> K).

Lemma insert_at_perm (sorted : list A) (pivot : A) :
  Permutation (insert_at lt key sorted pivot) (sorted ++ [pivot]).
Proof.
  unfold insert_at. set (i := bisect _ _ _ _ _ _ _).
  transitivity ((firstn i sorted ++ skipn i sorted) ++ [pivot]);
    [|rewrite firstn_skipn; reflexivity].
  rewrite <- app_assoc.
  apply Permutation_app_head. apply Permutation_cons_append.
Qed.

Lemma binarysort_perm (rest sorted : list A) :
  Permutation (binarysort lt key sorted rest) (sorted ++ rest).
Proof.
  revert sorted. induction rest as [|x rest IH]; intros sorted; cbn [binarysort fold_left].
  - rewrite app_nil_r. reflexivity.
  - fold (binarysort lt key (insert_at lt key sorted x) rest).
    rewrite IH, insert_at_perm, <- app_assoc. reflexivity.
Qed.

Lemma sort_ascending_perm (l : list A) : Permutation (sort_ascending lt key l) l.
Proof.
  unfold sort_ascending. destruct (count_run lt key l) as [n descending].
  rewrite binarysort_perm.
  transitivity (firstn n l ++ skipn n l); [|rewrite firstn_skipn; reflexivity].
  apply Permutation_app_tail. destruct descending; [|reflexivity].
  symmetry. apply Permutation_rev.
Qed.

(** [list.sort] permutes the list, whatever the keys are. *)
Lemma list_sort_perm (reverse : bool) (l : list A) :
  Permutation (sort lt key reverse l) l.
Proof.
  unfold sort. destruct reverse; [|apply sort_ascending_perm].
  rewrite <- Permutation_rev, sort_ascending_perm, <- Permutation_rev. reflexivity.
Qed.

(** A list in order is left as it is. *)
Lemma run_asc_all (prev : A) (l : list A) :
  FloatProps.ascending lt key (prev :: l) -> run_asc lt key prev l = length l.
Proof.
  revert prev. induction l as [|x l IH]; intros prev Hs; [reflexivity|].
  unfold FloatProps.ascending in Hs. apply StronglySorted_inv in Hs as [Hl Hp].
  cbn [run_asc length]. rewrite (List.Forall_inv Hp). f_equal. apply IH, Hl.
Qed.

Lemma sort_ascending_id (l : list A) :
  FloatProps.ascending lt key l -> sort_ascending lt key l = l.
Proof.
  intros Hs. unfold sort_ascending.
  assert (count_run lt key l = (length l, false)) as ->.
  { destruct l as [|x [|y l]]; [reflexivity | reflexivity|].
    cbn [count_run]. pose proof (run_asc_all x (y :: l) Hs) as E.
    cbn [run_asc] in E. destruct (klt lt key y x); [discriminate E|].
    injection E as E. rewrite E. reflexivity. }
  rewrite firstn_all, skipn_all. reflexivity.
Qed.

Lemma ssorted_insert (R : A -> A -> Prop) (l1 l2 : list A) (x : A) :
  StronglySorted R (l1 ++ l2) ->
  List.Forall (fun a => R a x) l1 -> List.Forall (R x) l2 ->
  StronglySorted R (l1 ++ x :: l2).
Proof.
  induction l1 as [|a l1 IH]; intros Hs H1 H2; cbn [app] in *.
  - constructor; assumption.
  - apply StronglySorted_inv in Hs as [Hs Ha].
    apply List.Forall_cons_iff in H1 as [Hax H1].
    constructor; [apply IH; assumption|].
    apply List.Forall_app in Ha as [Ha1 Ha2].
    apply List.Forall_app. split; [exact Ha1|]. constructor; assumption.
Qed.

Lemma ssorted_rev (R : A -> A -> Prop) (l : list A) :
  StronglySorted R l -> StronglySorted (fun a b => R b a) (rev l).
Proof.
  induction 1 as [|x l Hl IH Hx]; [constructor|].
  cbn [rev]. rewrite <- (app_nil_r (rev l)) in IH.
  apply (ssorted_insert _ _ [] x IH); [|constructor].
  apply List.Forall_forall. intros a Ha. apply List.in_rev in Ha.
  rewrite List.Forall_forall in Hx. apply Hx, Ha.
Qed.

Lemma list_sort_id (reverse : bool) (l : list A) :
  FloatProps.in_order lt key reverse l -> sort lt key reverse l = l.
Proof.
  unfold FloatProps.in_order, sort. destruct reverse; [|apply sort_ascending_id].
  intros Hs. rewrite sort_ascending_id; [apply rev_involutive|].
  apply (ssorted_rev _ _ Hs).
Qed.

End PySortPerm.


(** ** Keys that [<] orders *)

Section PySortOrdered.
Import PyList FloatProps.
Context {A K : Type} (lt : K -> K -> bool) (key : A -> K) (P : K -> Prop).

(** On the keys that satisfy [P], [<] is strict and its converse is
    transitive. *)
Hypothesis lt_asym : forall a b, P a -> P b -> lt a b = true -> lt b a = false.
Hypothesis ge_trans : forall a b c, P a -> P b -> P c ->
  lt a b = false -> lt b c = false -> lt a c = false.

Lemma key_lt_irrefl (a : K) : P a -> lt a a = false.
Proof using lt_asym.
  intros Ha. destruct (lt a a) eqn:E; [|reflexivity]. rewrite (lt_asym a a Ha Ha E) in E.
  discriminate E.
Qed.

(** [a < b] and [b <= c] give [a < c]. *)
Lemma key_lt_le_lt (a b c : K) :
  P a -> P b -> P c -> lt a b = true -> lt c b = false -> lt a c = true.
Proof using ge_trans.
  intros Ha Hb Hc Hab Hcb. destruct (lt a c) eqn:E; [reflexivity|].
  rewrite (ge_trans a c b Ha Hc Hb E Hcb) in Hab. discriminate Hab.
Qed.

(** [a <= b] and [b < c] give [a < c]. *)
Lemma key_le_lt_lt (a b c : K) :
  P a -> P b -> P c -> lt b a = false -> lt b c = true -> lt a c = true.
Proof using ge_trans.
  intros Ha Hb Hc Hba Hbc. destruct (lt a c) eqn:E; [reflexivity|].
  rewrite (ge_trans b a c Hb Ha Hc Hba E) in Hbc. discriminate Hbc.
Qed.

Lemma key_lt_trans (a b c : K) :
  P a -> P b -> P c -> lt a b = true -> lt b c = true -> lt a c = true.
Proof using lt_asym ge_trans.
  intros Ha Hb Hc Hab Hbc. apply (key_lt_le_lt a b c); try assumption.
  apply lt_asym; assumption.
Qed.

(** *** Binary insertion *)

Lemma ssorted_nth (R : A -> A -> Prop) (l : list A) (d : A) (i j : nat) :
  StronglySorted R l -> i < j < length l -> R (nth i l d) (nth j l d).
Proof.
  intros Hs. revert i j. induction Hs as [|x l Hl IH Hx]; intros i j Hij; [simpl in Hij; lia|].
  destruct j as [|j]; [lia|]. destruct i as [|i].
  - cbn [nth]. rewrite List.Forall_forall in Hx. apply Hx, nth_In. simpl in Hij. lia.
  - cbn [nth]. apply IH. simpl in Hij. lia.
Qed.

Lemma keys_in_nth (l : list A) (d : A) (i : nat) :
  keys_in key P l -> i < length l -> P (key (nth i l d)).
Proof.
  intros Hl Hi. unfold keys_in in Hl. rewrite List.Forall_forall in Hl.
  apply Hl, nth_In, Hi.
Qed.

(** The search ends at the place behind the elements that are not above
    the pivot and before those that are. *)
Lemma bisect_spec (fuel : nat) (pivot : A) (v : list A) (l r : nat) :
  ascending lt key v -> keys_in key P v -> P (key pivot) ->
  l < r <= length v -> r - l <= fuel ->
  (forall j, j < l -> klt lt key pivot (nth j v pivot) = false) ->
  (forall j, r <= j < length v -> klt lt key pivot (nth j v pivot) = true) ->
  let i := bisect lt key fuel pivot v l r in
  i <= length v
  /\ (forall j, j < i -> klt lt key pivot (nth j v pivot) = false)
  /\ (forall j, i <= j < length v -> klt lt key pivot (nth j v pivot) = true).
Proof using lt_asym ge_trans.
  intros Hs Hk Hp. revert l r. induction fuel as [|fuel IH]; intros l r Hlr Hfuel Hlo Hhi; [lia|].
  cbn [bisect]. cbv zeta.
  set (p := l + Nat.div2 (r - l)).
  assert (l <= p < r) as Hpr.
  { subst p. assert (Nat.div2 (r - l) < r - l) as Hd by (apply Nat.lt_div2; lia).
    revert Hd. generalize (Nat.div2 (r - l)). intros d Hd. lia. }
  assert (P (key (nth p v pivot))) as Hkp by (apply keys_in_nth; [exact Hk | lia]).
  destruct (klt lt key pivot (nth p v pivot)) eqn:E.
  - (* the pivot is below the middle: it is below all behind the middle *)
    assert (forall j, p <= j < length v -> klt lt key pivot (nth j v pivot) = true) as Hhi'.
    { intros j Hj. destruct (Nat.eq_dec j p) as [-> | Hne]; [exact E|].
      unfold klt in *. apply (key_lt_le_lt _ (key (nth p v pivot))); try assumption.
      - apply keys_in_nth; [exact Hk | lia].
      - apply (ssorted_nth _ v pivot p j Hs). lia. }
    destruct (l <? p) eqn:Elp.
    + apply Nat.ltb_lt in Elp. apply IH; try assumption; lia.
    + apply Nat.ltb_ge in Elp. assert (p = l) as Epl by lia. rewrite Epl in Hhi'.
      split; [lia|]. split; assumption.
  - (* the pivot is not below the middle: nor below any before it *)
    assert (forall j, j < S p -> klt lt key pivot (nth j v pivot) = false) as Hlo'.
    { intros j Hj. destruct (Nat.eq_dec j p) as [-> | Hne]; [exact E|].
      unfold klt in *. apply (ge_trans _ (key (nth p v pivot))); try assumption.
      - apply keys_in_nth; [exact Hk | lia].
      - apply (ssorted_nth _ v pivot j p Hs). lia. }
    destruct (S p <? r) eqn:Epr.
    + apply Nat.ltb_lt in Epr. apply IH; try assumption; lia.
    + apply Nat.ltb_ge in Epr. assert (S p = r) as Epr' by lia.
      split; [lia|]. split; [exact Hlo'|]. rewrite Epr'. exact Hhi.
Qed.

Lemma insert_at_bounds (sorted : list A) (pivot : A) :
  ascending lt key sorted -> keys_in key P sorted -> P (key pivot) ->
  let i := bisect lt key (length sorted) pivot sorted 0 (length sorted) in
  List.Forall (fun e => klt lt key pivot e = false) (firstn i sorted)
  /\ List.Forall (fun e => klt lt key pivot e = true) (skipn i sorted).
Proof using lt_asym ge_trans.
  intros Hs Hk Hp. cbv zeta.
  destruct sorted as [|x sorted]; [split; constructor|].
  set (v := x :: sorted) in *.
  destruct (bisect_spec (length v) pivot v 0 (length v) Hs Hk Hp) as (Hi & Hlo & Hhi);
    [simpl; lia | lia | intros j Hj; lia | intros j Hj; lia|].
  set (i := bisect lt key (length v) pivot v 0 (length v)) in *.
  split.
  - apply (List.Forall_nth _ (firstn i v)). intros j d Hj.
    rewrite length_firstn in Hj. rewrite nth_firstn.
    replace (j <? i) with true by (symmetry; apply Nat.ltb_lt; lia).
    rewrite (nth_indep v d pivot) by lia. apply Hlo. lia.
  - apply (List.Forall_nth _ (skipn i v)). intros j d Hj.
    rewrite length_skipn in Hj. rewrite nth_skipn.
    rewrite (nth_indep v d pivot) by lia. apply Hhi. lia.
Qed.

Lemma ssorted_app_inv (R : A -> A -> Prop) (l1 l2 : list A) :
  StronglySorted R (l1 ++ l2) ->
  StronglySorted R l1 /\ StronglySorted R l2
  /\ forall a b, In a l1 -> In b l2 -> R a b.
Proof.
  induction l1 as [|x l1 IH]; cbn [app]; intros Hs.
  - split; [constructor|]. split; [exact Hs|]. intros a b [].
  - apply StronglySorted_inv in Hs as [Hs Hx]. destruct (IH Hs) as (H1 & H2 & H12).
    apply List.Forall_app in Hx as [Hx1 Hx2].
    split; [constructor; assumption|]. split; [exact H2|].
    intros a b [<- | Ha] Hb.
    + rewrite List.Forall_forall in Hx2. apply Hx2, Hb.
    + apply H12; assumption.
Qed.

Lemma insert_at_sorted (sorted : list A) (pivot : A) :
  ascending lt key sorted -> keys_in key P sorted -> P (key pivot) ->
  ascending lt key (insert_at lt key sorted pivot).
Proof using lt_asym ge_trans.
  intros Hs Hk Hp. destruct (insert_at_bounds sorted pivot Hs Hk Hp) as [Hlo Hhi].
  unfold insert_at. set (i := bisect _ _ _ _ _ _ _) in *.
  apply ssorted_insert.
  - rewrite firstn_skipn. exact Hs.
  - exact Hlo.
  - rewrite List.Forall_forall in Hhi. apply List.Forall_forall. intros e He.
    unfold klt in *. apply lt_asym; [exact Hp | | apply Hhi, He].
    unfold keys_in in Hk. rewrite List.Forall_forall in Hk. apply Hk.
    rewrite <- (firstn_skipn i sorted). apply in_or_app. right. exact He.
Qed.

(** The pivot goes behind every element of its key. *)
Lemma insert_at_level (k0 : K) (sorted : list A) (pivot : A) :
  P k0 -> ascending lt key sorted -> keys_in key P sorted -> P (key pivot) ->
  level lt key k0 (insert_at lt key sorted pivot) = level lt key k0 (sorted ++ [pivot]).
Proof using lt_asym ge_trans.
  intros H0 Hs Hk Hp. destruct (insert_at_bounds sorted pivot Hs Hk Hp) as [_ Hhi].
  unfold insert_at. set (i := bisect _ _ _ _ _ _ _) in *.
  rewrite <- (firstn_skipn i sorted) at 3. unfold level.
  rewrite <- app_assoc, !List.filter_app. f_equal. cbn [List.filter].
  destruct (negb (lt k0 (key pivot)) && negb (lt (key pivot) k0)) eqn:E; [|rewrite app_nil_r; reflexivity].
  apply andb_true_iff in E as [E1 E2]. apply negb_true_iff in E1, E2.
  assert (List.filter (fun x => negb (lt k0 (key x)) && negb (lt (key x) k0)) (skipn i sorted) = [])
    as ->; [|reflexivity].
  assert (keys_in key P (skipn i sorted)) as Hk'.
  { unfold keys_in in *. rewrite <- (firstn_skipn i sorted) in Hk.
    apply List.Forall_app in Hk as [_ Hk]. exact Hk. }
  clear - Hhi Hk' E2 H0 Hp ge_trans.
  induction (skipn i sorted) as [|e m IH]; [reflexivity|].
  apply List.Forall_cons_iff in Hhi as [He Hhi]. apply List.Forall_cons_iff in Hk' as [Hke Hk'].
  cbn [List.filter]. unfold klt in He.
  rewrite (key_le_lt_lt k0 (key pivot) (key e) H0 Hp Hke E2 He). cbn [negb andb].
  apply IH; assumption.
Qed.

Lemma keys_in_perm (l m : list A) : Permutation l m -> keys_in key P l -> keys_in key P m.
Proof. intros Hp Hl. unfold keys_in in *. rewrite <- Hp. exact Hl. Qed.

Lemma binarysort_sorted (rest sorted : list A) :
  ascending lt key sorted -> keys_in key P sorted -> keys_in key P rest ->
  ascending lt key (binarysort lt key sorted rest)
  /\ forall k0, P k0 ->
       level lt key k0 (binarysort lt key sorted rest) = level lt key k0 (sorted ++ rest).
Proof using lt_asym ge_trans.
  revert sorted. induction rest as [|x rest IH]; intros sorted Hs Hk Hr.
  - cbn [binarysort fold_left]. rewrite app_nil_r. split; [exact Hs | reflexivity].
  - cbn [binarysort fold_left]. fold (binarysort lt key (insert_at lt key sorted x) rest).
    apply List.Forall_cons_iff in Hr as [Hx Hr].
    destruct (IH (insert_at lt key sorted x)) as [IH1 IH2].
    + apply insert_at_sorted; assumption.
    + apply (keys_in_perm (sorted ++ [x])); [symmetry; apply insert_at_perm|].
      apply List.Forall_app. split; [exact Hk | constructor; [exact Hx | constructor]].
    + exact Hr.
    + split; [exact IH1|]. intros k0 H0. rewrite (IH2 k0 H0).
      unfold level in *. rewrite List.filter_app.
      pose proof (insert_at_level k0 sorted x H0 Hs Hk Hx) as E. unfold level in E.
      rewrite E. rewrite <- List.filter_app, <- app_assoc. reflexivity.
Qed.

(** *** The run at the head *)

Lemma run_asc_sorted (l : list A) (prev : A) :
  keys_in key P (prev :: l) ->
  ascending lt key (firstn (S (run_asc lt key prev l)) (prev :: l)).
Proof using ge_trans.
  revert prev. induction l as [|x l IH]; intros prev Hk.
  - cbn. constructor; constructor.
  - apply List.Forall_cons_iff in Hk as [Hp Hk]. cbn [run_asc].
    destruct (klt lt key x prev) eqn:E; [cbn; constructor; constructor|].
    specialize (IH x Hk). cbn [firstn] in *.
    constructor; [exact IH|].
    apply StronglySorted_inv in IH as [_ IH].
    constructor; [exact E|].
    assert (keys_in key P (firstn (run_asc lt key x l) l)) as Hk'.
    { apply List.Forall_cons_iff in Hk as [_ Hk]. unfold keys_in in *.
      rewrite <- (firstn_skipn (run_asc lt key x l) l) in Hk.
      apply List.Forall_app in Hk as [Hk _]. exact Hk. }
    apply List.Forall_cons_iff in Hk as [Hx _].
    clear - IH Hk' E Hp Hx ge_trans.
    induction IH as [|b m Hb _ IHm]; [constructor|].
    apply List.Forall_cons_iff in Hk' as [Hkb Hk'].
    constructor; [|apply IHm, Hk'].
    unfold klt in *. apply (ge_trans _ (key x)); assumption.
Qed.

(** A run that descends strictly. *)
Lemma run_desc_sorted (l : list A) (prev : A) :
  keys_in key P (prev :: l) ->
  StronglySorted (fun a b => klt lt key b a = true)
                 (firstn (S (run_desc lt key prev l)) (prev :: l)).
Proof using lt_asym ge_trans.
  revert prev. induction l as [|x l IH]; intros prev Hk.
  - cbn. constructor; constructor.
  - apply List.Forall_cons_iff in Hk as [Hp Hk]. cbn [run_desc].
    destruct (klt lt key x prev) eqn:E; [|cbn; constructor; constructor].
    specialize (IH x Hk). cbn [firstn] in *.
    constructor; [exact IH|].
    apply StronglySorted_inv in IH as [_ IH].
    constructor; [exact E|].
    assert (keys_in key P (firstn (run_desc lt key x l) l)) as Hk'.
    { apply List.Forall_cons_iff in Hk as [_ Hk]. unfold keys_in in *.
      rewrite <- (firstn_skipn (run_desc lt key x l) l) in Hk.
      apply List.Forall_app in Hk as [Hk _]. exact Hk. }
    apply List.Forall_cons_iff in Hk as [Hx _].
    clear - IH Hk' E Hp Hx ge_trans lt_asym.
    induction IH as [|b m Hb _ IHm]; [constructor|].
    apply List.Forall_cons_iff in Hk' as [Hkb Hk'].
    constructor; [|apply IHm, Hk'].
    unfold klt in *. apply (key_lt_trans _ (key x)); assumption.
Qed.

(** No two elements of a strictly descending run have the same key, so
    that reversing the run changes the order of no two such. *)
Lemma level_strict_run (k0 : K) (run : list A) :
  P k0 -> keys_in key P run ->
  StronglySorted (fun a b => klt lt key b a = true) run ->
  level lt key k0 (rev run) = level lt key k0 run.
Proof using ge_trans.
  intros H0 Hk Hs. unfold level. rewrite List.filter_rev.
  assert (length (List.filter (fun x => negb (lt k0 (key x)) && negb (lt (key x) k0)) run) <= 1)
    as Hlen.
  { induction Hs as [|a run Hs IH Ha]; [simpl; lia|].
    apply List.Forall_cons_iff in Hk as [Hka Hk].
    cbn [List.filter].
    destruct (negb (lt k0 (key a)) && negb (lt (key a) k0)) eqn:E; [|apply IH, Hk].
    apply andb_true_iff in E as [E1 E2]. apply negb_true_iff in E1, E2.
    assert (List.filter (fun x => negb (lt k0 (key x)) && negb (lt (key x) k0)) run = [])
      as ->; [|simpl; lia].
    clear IH Hs. induction Ha as [|b m Hb _ IHm]; [reflexivity|].
    apply List.Forall_cons_iff in Hk as [Hkb Hk].
    cbn [List.filter]. unfold klt in Hb.
    (* [b] is below [a], which is not above [k0]: [b] is below [k0] *)
    rewrite (key_lt_le_lt (key b) (key a) k0 Hkb Hka H0 Hb E1).
    rewrite andb_false_r. apply IHm, Hk. }
  destruct (List.filter _ run) as [|a [|b m]]; [reflexivity | reflexivity | simpl in Hlen; lia].
Qed.

Lemma strict_run_ascending (run : list A) :
  keys_in key P run ->
  StronglySorted (fun a b => klt lt key b a = true) run ->
  ascending lt key (rev run).
Proof using lt_asym.
  intros Hk Hs. apply ssorted_rev in Hs. unfold ascending.
  assert (keys_in key P (rev run)) as Hk'
    by (apply (keys_in_perm run); [apply Permutation_rev | exact Hk]).
  clear Hk. induction Hs as [|a m Hm IH Ha]; [constructor|].
  apply List.Forall_cons_iff in Hk' as [Hka Hk'].
  constructor; [apply IH, Hk'|].
  unfold keys_in in Hk'. rewrite List.Forall_forall in Ha, Hk'.
  apply List.Forall_forall. intros b Hb. unfold klt in *.
  apply lt_asym; [exact Hka | apply Hk', Hb | apply Ha, Hb].
Qed.

(** *** The sort *)

Lemma count_run_spec (l : list A) :
  keys_in key P l ->
  let '(n, descending) := count_run lt key l in
  if descending
  then StronglySorted (fun a b => klt lt key b a = true) (firstn n l)
  else ascending lt key (firstn n l).
Proof using lt_asym ge_trans.
  intros Hk. destruct l as [|x [|y l]].
  - cbn. constructor.
  - cbn. constructor; constructor.
  - cbn [count_run]. destruct (klt lt key y x) eqn:E.
    + pose proof (run_desc_sorted (y :: l) x Hk) as H. cbn [run_desc] in H.
      rewrite E in H. exact H.
    + pose proof (run_asc_sorted (y :: l) x Hk) as H. cbn [run_asc] in H.
      rewrite E in H. exact H.
Qed.

Lemma sort_ascending_sorted (l : list A) :
  keys_in key P l ->
  ascending lt key (sort_ascending lt key l)
  /\ forall k0, P k0 -> level lt key k0 (sort_ascending lt key l) = level lt key k0 l.
Proof using lt_asym ge_trans.
  intros Hk. pose proof (count_run_spec l Hk) as Hrun. unfold sort_ascending.
  destruct (count_run lt key l) as [n descending].
  assert (keys_in key P (firstn n l) /\ keys_in key P (skipn n l)) as [Hk1 Hk2].
  { unfold keys_in in *. rewrite <- (firstn_skipn n l) in Hk.
    apply List.Forall_app in Hk. exact Hk. }
  destruct descending.
  - destruct (binarysort_sorted (skipn n l) (rev (firstn n l))) as [H1 H2].
    + apply strict_run_ascending; assumption.
    + apply (keys_in_perm (firstn n l)); [apply Permutation_rev | exact Hk1].
    + exact Hk2.
    + split; [exact H1|]. intros k0 H0. rewrite (H2 k0 H0).
      unfold level. rewrite List.filter_app.
      pose proof (level_strict_run k0 (firstn n l) H0 Hk1 Hrun) as E. unfold level in E.
      rewrite E, <- List.filter_app, firstn_skipn. reflexivity.
  - destruct (binarysort_sorted (skipn n l) (firstn n l) Hrun Hk1 Hk2) as [H1 H2].
    split; [exact H1|]. intros k0 H0. rewrite (H2 k0 H0), firstn_skipn. reflexivity.
Qed.

(** Where [<] orders the keys of the list, [list.sort] brings the list
    into order and leaves the elements of each key in the order they had. *)
Lemma list_sort_sorted (reverse : bool) (l : list A) :
  keys_in key P l ->
  in_order lt key reverse (sort lt key reverse l)
  /\ forall k0, P k0 -> level lt key k0 (sort lt key reverse l) = level lt key k0 l.
Proof using lt_asym ge_trans.
  intros Hk. unfold sort, in_order. destruct reverse; [|apply sort_ascending_sorted, Hk].
  destruct (sort_ascending_sorted (rev l)) as [H1 H2].
  { apply (keys_in_perm l); [apply Permutation_rev | exact Hk]. }
  split.
  - apply (ssorted_rev _ _ H1).
  - intros k0 H0. unfold level in *. rewrite List.filter_rev, (H2 k0 H0), List.filter_rev.
    apply rev_involutive.
Qed.

(** *** One list in order *)

Lemma level_head (k0 : K) (a : A) (l : list A) :
  level lt key k0 (a :: l)
  = if negb (lt k0 (key a)) && negb (lt (key a) k0) then a :: level lt key k0 l
    else level lt key k0 l.
Proof. reflexivity. Qed.

Lemma level_self (a : A) (l : list A) :
  P (key a) -> level lt key (key a) (a :: l) = a :: level lt key (key a) l.
Proof using lt_asym.
  intros Ha. rewrite level_head, (key_lt_irrefl (key a) Ha). reflexivity.
Qed.

Lemma level_In (k0 : K) (x : A) (l : list A) : In x (level lt key k0 l) -> In x l.
Proof. unfold level. intros H. apply List.filter_In in H as [H _]. exact H. Qed.

(** Two ascending lists with the same elements of each key, in the same
    order, are one list. *)
Lemma ascending_unique (l1 l2 : list A) :
  keys_in key P l1 -> keys_in key P l2 -> ascending lt key l1 -> ascending lt key l2 ->
  (forall k0, P k0 -> level lt key k0 l1 = level lt key k0 l2) ->
  l1 = l2.
Proof using lt_asym ge_trans.
  revert l2. induction l1 as [|a l1 IH]; intros l2 Hk1 Hk2 Hs1 Hs2 Hlev.
  - destruct l2 as [|b l2]; [reflexivity|].
    apply List.Forall_cons_iff in Hk2 as [Hb _].
    specialize (Hlev (key b) Hb). rewrite level_self in Hlev by exact Hb. discriminate Hlev.
  - apply List.Forall_cons_iff in Hk1 as [Ha Hk1].
    pose proof (Hlev (key a) Ha) as Hla. rewrite level_self in Hla by exact Ha.
    destruct l2 as [|b l2]; [discriminate Hla|].
    apply List.Forall_cons_iff in Hk2 as [Hb Hk2].
    unfold ascending in Hs1, Hs2.
    apply StronglySorted_inv in Hs1 as [Hs1 Ha1]. apply StronglySorted_inv in Hs2 as [Hs2 Hb2].
    assert (a = b) as <-.
    { rewrite level_head in Hla.
      destruct (negb (lt (key a) (key b)) && negb (lt (key b) (key a))) eqn:E;
        [injection Hla as Hab _; exact Hab|].
      exfalso.
      (* [a] stands behind [b] in the second list, [b] behind [a] in the first *)
      assert (In a l2) as Hin2 by (apply (level_In (key a)); rewrite <- Hla; left; reflexivity).
      pose proof (Hlev (key b) Hb) as Hlb. rewrite (level_self b) in Hlb by exact Hb.
      rewrite level_head in Hlb. rewrite andb_comm in E. rewrite E in Hlb.
      assert (In b l1) as Hin1 by (apply (level_In (key b)); rewrite Hlb; left; reflexivity).
      rewrite List.Forall_forall in Ha1, Hb2.
      pose proof (Ha1 b Hin1) as H1. pose proof (Hb2 a Hin2) as H2.
      unfold klt in H1, H2. rewrite H1, H2 in E. discriminate E. }
    f_equal. apply IH; try assumption.
    intros k0 H0. specialize (Hlev k0 H0). rewrite !level_head in Hlev.
    destruct (negb (lt k0 (key a)) && negb (lt (key a) k0)); [injection Hlev as Hlev|];
      exact Hlev.
Qed.

(** Where [<] orders the keys, a list in order with the elements of each
    key in the order they had is what [list.sort] returns: every stable
    sort returns the same list. *)
Lemma sort_unique (reverse : bool) (l m : list A) :
  keys_in key P l -> keys_in key P m ->
  in_order lt key reverse m ->
  (forall k0, P k0 -> level lt key k0 m = level lt key k0 l) ->
  sort lt key reverse l = m.
Proof using lt_asym ge_trans.
  intros Hl Hm Hs Hlev.
  destruct (list_sort_sorted reverse l Hl) as [H1 H2].
  assert (keys_in key P (sort lt key reverse l)) as Hk
    by (apply (keys_in_perm l); [symmetry; apply list_sort_perm | exact Hl]).
  unfold in_order in *. destruct reverse.
  - rewrite <- (rev_involutive (sort lt key true l)), <- (rev_involutive m). f_equal.
    apply ascending_unique.
    + apply (keys_in_perm _ _ (Permutation_rev _)), Hk.
    + apply (keys_in_perm _ _ (Permutation_rev _)), Hm.
    + apply (ssorted_rev _ _ H1).
    + apply (ssorted_rev _ _ Hs).
    + intros k0 H0. unfold level. rewrite !List.filter_rev. f_equal.
      fold (level lt key k0 (sort lt key true l)). fold (level lt key k0 m).
      rewrite (H2 k0 H0), (Hlev k0 H0). reflexivity.
  - apply ascending_unique; try assumption.
    intros k0 H0. rewrite (H2 k0 H0), (Hlev k0 H0). reflexivity.
Qed.

End PySortOrdered.

(* ================================================================== *)
(** * Properties of the ranking pass over floats                       *)
(* ================================================================== *)

Section FloatOrder.
Import PyFloat.

Lemma Qle_bool_total (a b : Q) : Qle_bool a b = false -> Qle_bool b a = true.
Proof.
  intros H. apply Qle_bool_iff. destruct (Qlt_le_dec b a) as [Hlt | Hle].
  - apply Qlt_le_weak, Hlt.
  - apply Qle_bool_iff in Hle. congruence.
Qed.

Lemma Qle_bool_trans (a b c : Q) :
  Qle_bool a b = true -> Qle_bool b c = true -> Qle_bool a c = true.
Proof.
  intros H1 H2. apply Qle_bool_iff in H1, H2. apply Qle_bool_iff.
  eapply Qle_trans; eassumption.
Qed.

(** Between two floats that are not NaN, [x <= y] holds exactly when
    [y < x] does not. *)
Lemma float_le_not_lt (x y : t) :
  is_nan x = false -> is_nan y = false -> le x y = negb (lt y x).
Proof.
  destruct x as [a| | |], y as [b| | |]; intros Hx Hy; try discriminate; try reflexivity.
  cbn. rewrite negb_involutive. reflexivity.
Qed.

Lemma float_lt_asym (x y : t) :
  is_nan x = false -> is_nan y = false -> lt x y = true -> lt y x = false.
Proof.
  destruct x as [a| | |], y as [b| | |]; intros Hx Hy H; try discriminate; try reflexivity.
  cbn in *. apply negb_true_iff in H. apply negb_false_iff. apply Qle_bool_total, H.
Qed.

Lemma float_ge_trans (x y z : t) :
  is_nan x = false -> is_nan y = false -> is_nan z = false ->
  lt x y = false -> lt y z = false -> lt x z = false.
Proof.
  destruct x as [a| | |], y as [b| | |], z as [c| | |]; intros Hx Hy Hz H1 H2;
    try discriminate; try reflexivity.
  cbn in *. apply negb_false_iff in H1, H2. apply negb_false_iff.
  eapply Qle_bool_trans; eassumption.
Qed.

Lemma float_le_trans (x y z : t) : le x y = true -> le y z = true -> le x z = true.
Proof.
  destruct x as [a| | |], y as [b| | |], z as [c| | |]; intros H1 H2;
    try discriminate; try reflexivity.
  cbn in *. eapply Qle_bool_trans; eassumption.
Qed.

Lemma float_le_refl (x : t) : is_nan x = false -> le x x = true.
Proof.
  destruct x as [a| | |]; intros H; try discriminate; try reflexivity.
  cbn. apply Qle_bool_iff, Qle_refl.
Qed.

Lemma float_le_no_nan (x y : t) : le x y = true -> is_nan x = false /\ is_nan y = false.
Proof. destruct x, y; intros H; try discriminate; split; reflexivity. Qed.

(** Two floats that are not NaN are equal when neither is below the
    other. *)
Lemma float_eqb_level (x k0 : t) :
  is_nan x = false -> is_nan k0 = false ->
  negb (lt k0 x) && negb (lt x k0) = eqb x k0.
Proof.
  destruct x as [a| | |], k0 as [b| | |]; intros Hx Hk; try discriminate; try reflexivity.
  cbn. rewrite !negb_involutive.
  destruct (Qle_bool a b) eqn:E1, (Qle_bool b a) eqn:E2; cbn; symmetry.
  - apply Qeq_bool_iff. apply Qle_bool_iff in E1, E2. apply Qle_antisym; assumption.
  - destruct (Qeq_bool a b) eqn:E; [|reflexivity]. apply Qeq_bool_iff in E.
    assert (Qle_bool b a = true) as H by (apply Qle_bool_iff; rewrite E; apply Qle_refl).
    congruence.
  - destruct (Qeq_bool a b) eqn:E; [|reflexivity]. apply Qeq_bool_iff in E.
    assert (Qle_bool a b = true) as H by (apply Qle_bool_iff; rewrite E; apply Qle_refl).
    congruence.
  - apply Qle_bool_total in E1. congruence.
Qed.

Lemma float_eqb_no_nan (x y : t) : eqb x y = true -> is_nan x = false /\ is_nan y = false.
Proof. destruct x, y; intros H; try discriminate; split; reflexivity. Qed.

End FloatOrder.

Section FloatRanking.
Import PyStr FloatCTkApp FloatProps.

Lemma rank_candidates_eq (kws : list (str * PyFloat.t)) (title : str)
  (cands : list FloatCandidate.t) :
  rank_candidates kws title cands
  = PyList.sort PyFloat.lt FloatCandidate.score true
                (map (rescore (FloatRanker.init kws title)) cands).
Proof. destruct cands; reflexivity. Qed.

(** A list without NaN that [list.sort] has in order by score is in
    descending order of score. *)
Lemma in_order_descending (l : list FloatCandidate.t) :
  no_nan l ->
  in_order PyFloat.lt FloatCandidate.score true l <-> descending l.
Proof.
  intros Hn. unfold in_order, not_ascending_back, descending, by_score_desc, PyList.klt.
  induction l as [|c l IH].
  - split; constructor.
  - apply List.Forall_cons_iff in Hn as [Hc Hn]. specialize (IH Hn).
    assert (forall d, In d l ->
              (PyFloat.lt (FloatCandidate.score c) (FloatCandidate.score d) = false
               <-> PyFloat.le (FloatCandidate.score d) (FloatCandidate.score c) = true)) as Heq.
    { intros d Hd. unfold no_nan in Hn. rewrite List.Forall_forall in Hn.
      rewrite (float_le_not_lt _ _ (Hn d Hd) Hc). rewrite negb_true_iff. reflexivity. }
    split; intros Hs; apply StronglySorted_inv in Hs as [Hl Hx];
      (constructor; [apply IH, Hl|]);
      rewrite List.Forall_forall in Hx; apply List.Forall_forall; intros d Hd;
      apply (Heq d Hd), Hx, Hd.
Qed.

Lemma tied_at_level (v : PyFloat.t) (l : list FloatCandidate.t) :
  no_nan l -> PyFloat.is_nan v = false ->
  level PyFloat.lt FloatCandidate.score v l = tied_at v l.
Proof.
  intros Hn Hv. unfold level, tied_at. apply List.filter_ext_in. intros c Hc.
  unfold no_nan in Hn. rewrite List.Forall_forall in Hn.
  apply float_eqb_level; [apply Hn, Hc | exact Hv].
Qed.

Lemma tied_at_nan (l : list FloatCandidate.t) : tied_at PyFloat.NaN l = [].
Proof.
  unfold tied_at. induction l as [|c l IH]; [reflexivity|].
  cbn [List.filter]. destruct (FloatCandidate.score c); cbn [PyFloat.eqb]; exact IH.
Qed.

Lemma no_nan_perm (l m : list FloatCandidate.t) : Permutation l m -> no_nan l -> no_nan m.
Proof. intros Hp Hl. unfold no_nan in *. rewrite <- Hp. exact Hl. Qed.

(** The sort of the ranking pass and of the score column, on scores
    without NaN. *)
Lemma sort_by_score (l : list FloatCandidate.t) :
  no_nan l ->
  descending (PyList.sort PyFloat.lt FloatCandidate.score true l)
  /\ forall v, tied_at v (PyList.sort PyFloat.lt FloatCandidate.score true l) = tied_at v l.
Proof.
  intros Hn.
  destruct (list_sort_sorted PyFloat.lt FloatCandidate.score (fun x => PyFloat.is_nan x = false)
              float_lt_asym float_ge_trans true l Hn) as [H1 H2].
  assert (no_nan (PyList.sort PyFloat.lt FloatCandidate.score true l)) as Hn'
    by (apply (no_nan_perm l); [symmetry; apply list_sort_perm | exact Hn]).
  split; [apply in_order_descending; assumption|].
  intros v. destruct (PyFloat.is_nan v) eqn:Ev.
  - destruct v; try discriminate Ev. rewrite !tied_at_nan. reflexivity.
  - rewrite <- !tied_at_level by assumption. apply H2, Ev.
Qed.

Lemma sort_by_score_id (l : list FloatCandidate.t) :
  no_nan l -> descending l -> PyList.sort PyFloat.lt FloatCandidate.score true l = l.
Proof. intros Hn Hd. apply list_sort_id, in_order_descending; assumption. Qed.

Lemma rescore_identity_f (r : FloatRanker.t) (c : FloatCandidate.t) :
  identity_fields (rescore r c) = identity_fields c.
Proof.
  unfold rescore. destruct (FloatRanker.score r (FloatCandidate.text c)). reflexivity.
Qed.

Lemma rescore_result_f (r : FloatRanker.t) (c : FloatCandidate.t) :
  (FloatCandidate.score (rescore r c), FloatCandidate.matched (rescore r c))
  = FloatRanker.score r (FloatCandidate.text c).
Proof.
  unfold rescore. destruct (FloatRanker.score r (FloatCandidate.text c)). reflexivity.
Qed.

(** Claim C5, amended.  A ranking pass permutes the rescored
    candidates.  When none of their scores is NaN, the list then stands
    in descending order of score and the candidates of each score keep
    the order they had; in particular two candidates [X], [Y] of the
    same score stay in the order [X], [Y]. *)
Theorem rank_now_sorted_stable (kws : list (str * PyFloat.t)) (title : str)
  (cands : list FloatCandidate.t) :
  let r := FloatRanker.init kws title in
  Permutation (rank_candidates kws title cands) (map (rescore r) cands)
  /\ (no_nan (map (rescore r) cands) ->
      descending (rank_candidates kws title cands)
      /\ forall v, tied_at v (rank_candidates kws title cands)
                   = tied_at v (map (rescore r) cands))
  /\ (forall X Y,
        PyFloat.eqb (FloatCandidate.score (rescore r X))
                    (FloatCandidate.score (rescore r Y)) = true ->
        rank_candidates kws title [X; Y] = [rescore r X; rescore r Y]).
Proof.
  cbn zeta. rewrite rank_candidates_eq. split; [apply list_sort_perm|]. split.
  - intros Hn. apply sort_by_score, Hn.
  - intros X Y Heq. rewrite rank_candidates_eq. cbn [map].
    destruct (float_eqb_no_nan _ _ Heq) as [HX HY].
    apply sort_by_score_id.
    + constructor; [exact HX|]. constructor; [exact HY | constructor].
    + constructor; [constructor; constructor|]. constructor; [|constructor].
      unfold by_score_desc. rewrite (float_le_not_lt _ _ HY HX).
      rewrite <- (float_eqb_level _ _ HX HY) in Heq. apply andb_true_iff in Heq as [_ H]. exact H.
Qed.

Lemma rank_now_sorted_stable_witness :
  no_nan (map (rescore (FloatRanker.init [(py "cd", PyFloat.Num 1); (py "ab", PyFloat.Num 2)] []))
              [cand_X; cand_Y; cand_Z])
  /\ map FloatCandidate.name
         (rank_candidates [(py "cd", PyFloat.Num 1); (py "ab", PyFloat.Num 2)] []
                          [cand_X; cand_Y; cand_Z])
     = [py "Y"; py "Z"; py "X"]
  /\ descending (rank_candidates [(py "cd", PyFloat.Num 1); (py "ab", PyFloat.Num 2)] []
                                 [cand_X; cand_Y; cand_Z]).
Proof.
  assert (no_nan (map (rescore (FloatRanker.init
                                  [(py "cd", PyFloat.Num 1); (py "ab", PyFloat.Num 2)] []))
                      [cand_X; cand_Y; cand_Z])) as H.
  { vm_compute. repeat constructor. }
  split; [exact H|]. split; [vm_compute; reflexivity|].
  exact (proj1 (proj1 (proj2 (rank_now_sorted_stable
                                [(py "cd", PyFloat.Num 1); (py "ab", PyFloat.Num 2)] []
                                [cand_X; cand_Y; cand_Z])) H)).
Defined.

(** With a NaN among the scores the list can stay out of order: the
    keyword "ab" weighs NaN (as [float("nan")] reads it), so that [Y]
    scores NaN; the pass leaves [X] (1.0), [Y] (NaN), [Z] (2.0) as they
    stood. *)
Lemma rank_now_unsorted_with_nan :
  map FloatCandidate.name (rank_candidates nan_profile [] [cand_X; cand_Y; cand_Z])
  = [py "X"; py "Y"; py "Z"]
  /\ map (fun c => PyFloat.is_nan (FloatCandidate.score c))
         (rank_candidates nan_profile [] [cand_X; cand_Y; cand_Z])
     = [false; true; false]
  /\ ~ descending (rank_candidates nan_profile [] [cand_X; cand_Y; cand_Z]).
Proof.
  split; [vm_compute; reflexivity|]. split; [vm_compute; reflexivity|].
  intros Hd.
  assert (rank_candidates nan_profile [] [cand_X; cand_Y; cand_Z]
          = map (rescore (FloatRanker.init nan_profile [])) [cand_X; cand_Y; cand_Z]) as E
    by (vm_compute; reflexivity).
  rewrite E in Hd. cbn [map] in Hd. unfold descending in Hd.
  apply StronglySorted_inv in Hd as [_ Hd]. apply List.Forall_inv in Hd.
  unfold by_score_desc in Hd. vm_compute in Hd. discriminate Hd.
Qed.

End FloatRanking.

(* ================================================================== *)
(** * The two embeddings agree on numbers                              *)
(* ================================================================== *)

Section OnNumbers.
Import PyStr FloatProps.

Lemma dict_set_num (d : list (str * Q)) (k : str) (v : Q) :
  FloatRanker.dict_set (num_profile d) k (PyFloat.Num v)
  = num_profile (Ranker.dict_set d k v).
Proof.
  induction d as [|[k' v'] d IH]; cbn; [reflexivity|].
  case_bool_decide; cbn; [reflexivity|]. unfold num_profile in IH. rewrite IH. reflexivity.
Qed.

Lemma lower_keys_acc_num (items d : list (str * Q)) :
  fold_left (fun d kv => FloatRanker.dict_set d (lower (fst kv)) (snd kv))
            (num_profile items) (num_profile d)
  = num_profile (fold_left (fun d kv => Ranker.dict_set d (lower (fst kv)) (snd kv))
                           items d).
Proof.
  revert d. induction items as [|[k v] items IH]; intros d; cbn; [reflexivity|].
  rewrite dict_set_num. apply IH.
Qed.

Lemma init_num (kws : list (str * Q)) (role : str) :
  FloatRanker.init (num_profile kws) role = num_ranker (Ranker.init kws role).
Proof.
  unfold FloatRanker.init, Ranker.init, num_ranker, FloatRanker.lower_keys, Ranker.lower_keys.
  cbn [Ranker.keywords Ranker.role]. f_equal. apply (lower_keys_acc_num kws []).
Qed.

Lemma keyword_loop_num (t : str) (kws : list (str * Q)) (tot : Q) (m : gmap str Q) :
  fold_left (FloatRanker.keyword_step t) (num_profile kws)
            (PyFloat.Num tot, PyFloat.Num <$> m)
  = (PyFloat.Num (fold_left (Ranker.keyword_step t) kws (tot, m)).1,
     PyFloat.Num <$> (fold_left (Ranker.keyword_step t) kws (tot, m)).2).
Proof.
  revert tot m. induction kws as [|[k w] kws IH]; intros tot m; [reflexivity|].
  cbn [num_profile map fold_left fst snd].
  unfold FloatRanker.keyword_step at 2. unfold Ranker.keyword_step at 2 4.
  destruct (negb (count k t =? 0)).
  - cbn [PyFloat.mul PyFloat.add]. rewrite <- fmap_insert. apply IH.
  - apply IH.
Qed.

(** The scorer over floats, on a profile of numbers, gives the score and
    the contributions of the scorer over numbers. *)
Lemma score_on_numbers (r : Ranker.t) (text : str) :
  FloatRanker.score (num_ranker r) text
  = (PyFloat.Num (Ranker.score r text).1, PyFloat.Num <$> (Ranker.score r text).2).
Proof.
  unfold FloatRanker.score, Ranker.score.
  destruct (startswith (py "[parse_error]") (lower text)).
  - cbn [fst snd]. rewrite fmap_empty. reflexivity.
  - cbn [FloatRanker.keywords num_ranker].
    rewrite <- (fmap_empty PyFloat.Num), keyword_loop_num.
    destruct (fold_left (Ranker.keyword_step (lower text)) (Ranker.keywords r) (0%Q, ∅))
      as [tot m].
    cbn [fst snd]. unfold FloatRanker.add_role_bonus, Ranker.add_role_bonus.
    unfold num_ranker at 1 2. cbn [FloatRanker.role num_ranker].
    destruct (Ranker.role r); reflexivity.
Qed.

Lemma rescore_on_numbers (r : Ranker.t) (c : Candidate.t) :
  FloatCTkApp.rescore (num_ranker r) (num_candidate c) = num_candidate (CTkApp.rescore r c).
Proof.
  unfold FloatCTkApp.rescore, CTkApp.rescore. cbn [FloatCandidate.text num_candidate].
  rewrite score_on_numbers. destruct (Ranker.score r (Candidate.text c)). reflexivity.
Qed.

Lemma num_candidates_no_nan (l : list Candidate.t) : no_nan (map num_candidate l).
Proof. unfold no_nan. apply List.Forall_map, List.Forall_forall. intros c _. reflexivity. Qed.

Lemma level_num (k0 : PyFloat.t) (l : list Candidate.t) :
  PyFloat.is_nan k0 = false ->
  level PyFloat.lt FloatCandidate.score k0 (map num_candidate l)
  = map num_candidate
        (match k0 with PyFloat.Num v => Props.tied_at v l | _ => [] end).
Proof.
  intros Hk.
  assert (forall a v, negb (negb (Qle_bool a v)) && negb (negb (Qle_bool v a))
                      = Qeq_bool a v) as Htie.
  { intros a v. rewrite !negb_involutive. destruct (Qeq_bool a v) eqn:E.
    - apply Qeq_bool_iff in E. apply andb_true_iff.
      split; apply Qle_bool_iff; rewrite E; apply Qle_refl.
    - apply andb_false_iff.
      destruct (Qle_bool a v) eqn:E1; [|left; reflexivity].
      destruct (Qle_bool v a) eqn:E2; [|right; reflexivity].
      apply Qle_bool_iff in E1, E2. pose proof (Qle_antisym _ _ E1 E2) as H.
      apply Qeq_bool_iff in H. congruence. }
  unfold level, Props.tied_at. rewrite List.filter_map_swap. f_equal.
  destruct k0 as [v| | |].
  - apply List.filter_ext. intros c.
    cbn [FloatCandidate.score num_candidate PyFloat.lt].
    apply Htie.
  - induction l as [|c l IH]; [reflexivity|]. cbn. exact IH.
  - induction l as [|c l IH]; [reflexivity|]. cbn. exact IH.
  - discriminate Hk.
Qed.

(** On scores that are numbers [list.sort] gives what the insertion sort
    of the embedding over numbers gives. *)
Lemma sort_on_numbers (l : list Candidate.t) :
  PyList.sort PyFloat.lt FloatCandidate.score true (map num_candidate l)
  = map num_candidate (CTkApp.sort_by_score_desc l).
Proof.
  apply (sort_unique PyFloat.lt FloatCandidate.score (fun x => PyFloat.is_nan x = false)
           float_lt_asym float_ge_trans).
  - apply num_candidates_no_nan.
  - apply num_candidates_no_nan.
  - unfold in_order, not_ascending_back.
    pose proof (sort_sorted l) as Hs. unfold Props.descending in Hs.
    induction Hs as [|c m Hs IH Hc]; [constructor|].
    cbn [map]. constructor; [exact IH|].
    apply List.Forall_map. revert Hc. apply List.Forall_impl. intros d Hd.
    unfold Props.by_score_desc in Hd. unfold PyList.klt. cbn.
    apply negb_false_iff, Qle_bool_iff, Hd.
  - intros k0 Hk. rewrite !level_num by exact Hk. destruct k0; try reflexivity.
    rewrite sort_ties. reflexivity.
Qed.

(** On a profile of numbers the ranking pass over floats gives the list
    of the ranking pass over numbers. *)
Lemma rank_on_numbers (kws : list (str * Q)) (title : str) (cands : list Candidate.t) :
  FloatCTkApp.rank_candidates (num_profile kws) title (map num_candidate cands)
  = map num_candidate (CTkApp.rank_now kws title cands).
Proof.
  rewrite rank_candidates_eq, rank_now_eq, init_num, List.map_map.
  rewrite (List.map_ext _ _ (rescore_on_numbers (Ranker.init kws title))).
  rewrite <- List.map_map. apply sort_on_numbers.
Qed.

(** And the filter keeps the same candidates. *)
Lemma shown_on_numbers (q : str) (minimum : Q) (c : Candidate.t) :
  FloatCTkApp.shown q (PyFloat.Num minimum) (num_candidate c) = Screen.shown q minimum c.
Proof. reflexivity. Qed.

End OnNumbers.

(* ================================================================== *)
(** * Properties of the text extractor                                 *)
(* ================================================================== *)

Section ExtractorFacts.
Import PyStr CVProcessor Props.

(** Unfold one step of the [outcome] monad. *)
Tactic Notation "step_outcome" :=
  unfold mbind, outcome_bind, mret, outcome_ret.
Tactic Notation "step_outcome" "in" hyp(H) :=
  unfold mbind, outcome_bind, mret, outcome_ret in H.

Lemma parse_error_text_marked (e : exn) :
  startswith PARSE_ERROR (parse_error_text e) = true.
Proof. apply startswith_app. Qed.

Lemma parse_pdf_of_body (env : Env) (path : str) :
  parse_pdf env path
  = Returned match parse_pdf_body env path with
             | Returned text => text
             | Raised e => parse_error_text e
             end.
Proof. unfold parse_pdf, try_except. destruct (parse_pdf_body env path); reflexivity. Qed.

(** A failure of the library extractor, when it is the one in use. *)
Lemma body_extractor_fails (env : Env) (path : str) (extract : str -> outcome (option str))
  (e : exn) :
  HAS_PDFMINER env = true -> pdfminer_extract_text env = Some extract ->
  extract path = Raised e ->
  parse_pdf_body env path = Raised e.
Proof.
  intros Hflag Hfun Hfail. unfold parse_pdf_body. rewrite Hflag, Hfun.
  step_outcome. rewrite Hfail. reflexivity.
Qed.

(** A failure of the file read, when the library extractor is not in use. *)
Lemma body_read_fails (env : Env) (path : str) (e : exn) :
  HAS_PDFMINER env = false \/ pdfminer_extract_text env = None ->
  read_file env path = Raised e ->
  parse_pdf_body env path = Raised e.
Proof.
  intros Hno Hfail. unfold parse_pdf_body.
  destruct Hno as [-> | ->]; [|destruct (HAS_PDFMINER env)];
    step_outcome; rewrite Hfail; reflexivity.
Qed.

(** The body raises only what one of its two fallible steps raised. *)
Lemma body_raises_from_step (env : Env) (path : str) (e : exn) :
  parse_pdf_body env path = Raised e ->
  (exists extract, HAS_PDFMINER env = true
                   /\ pdfminer_extract_text env = Some extract
                   /\ extract path = Raised e)
  \/ ((HAS_PDFMINER env = false \/ pdfminer_extract_text env = None)
      /\ read_file env path = Raised e).
Proof.
  unfold parse_pdf_body. intros H.
  destruct (HAS_PDFMINER env) eqn:Hflag; [destruct (pdfminer_extract_text env) as [extract|] eqn:Hfun|].
  - left. exists extract. repeat split.
    step_outcome in H. destruct (extract path); [discriminate H | congruence].
  - right. split; [right; reflexivity|].
    step_outcome in H. destruct (read_file env path) as [data|e']; [|congruence].
    destruct (negb _); [discriminate H|]. destruct (flush _ _). discriminate H.
  - right. split; [left; reflexivity|].
    step_outcome in H. destruct (read_file env path) as [data|e']; [|congruence].
    destruct (negb _); [discriminate H|]. destruct (flush _ _). discriminate H.
Qed.

(** Claim C4.  For every surrounding and every path [parse_pdf] returns
    a string and raises nothing; when the library extractor or the file
    read fails with [e], what it returns is the error marker followed by
    the description of [e]; and so for whatever its body raises. *)
Theorem parse_pdf_never_raises (env : Env) (path : str) :
  (exists text, parse_pdf env path = Returned text)
  /\ (forall extract e,
        HAS_PDFMINER env = true -> pdfminer_extract_text env = Some extract ->
        extract path = Raised e ->
        parse_pdf env path = Returned (parse_error_text e))
  /\ (forall e,
        HAS_PDFMINER env = false \/ pdfminer_extract_text env = None ->
        read_file env path = Raised e ->
        parse_pdf env path = Returned (parse_error_text e))
  /\ (forall e, parse_error_text e = PARSE_ERROR ++ py " " ++ exn_str e
                /\ startswith PARSE_ERROR (parse_error_text e) = true)
  /\ (forall e, parse_pdf_body env path = Raised e ->
        parse_pdf env path = Returned (parse_error_text e)).
Proof.
  split; [|split; [|split; [|split]]].
  - rewrite parse_pdf_of_body. eexists. reflexivity.
  - intros extract e Hflag Hfun Hfail.
    rewrite parse_pdf_of_body, (body_extractor_fails _ _ _ _ Hflag Hfun Hfail). reflexivity.
  - intros e Hno Hfail.
    rewrite parse_pdf_of_body, (body_read_fails _ _ _ Hno Hfail). reflexivity.
  - intros e. split; [reflexivity | apply parse_error_text_marked].
  - intros e Hbody. rewrite parse_pdf_of_body, Hbody. reflexivity.
Qed.

(** The unreadable file of the sample becomes an error text, and the
    small PDF is scavenged for its printable runs. *)
Example parse_pdf_unreadable :
  parse_pdf sample_env (py "missing.pdf") = Returned (py "[PARSE_ERROR] boom").
Proof. vm_compute. reflexivity. Qed.

Example parse_pdf_scavenged :
  parse_pdf sample_env (py "cv.pdf") = Returned (py "%PDF-1.4 BT Jane Doe ET").
Proof. vm_compute. reflexivity. Qed.

End ExtractorFacts.

(* ================================================================== *)
(** * Properties of the contact extractor                              *)
(* ================================================================== *)

Section ContactFacts.
Import PyStr Re CVProcessor Props.

(** Substituting for a one-character class rewrites the text character
    by character. *)
Lemma sub_loop_class (p : ascii -> bool) (repl : str) (fuel : nat) (pre rest : str) :
  length rest < fuel ->
  sub_loop fuel (Cls p) repl pre rest
  = flat_map (fun c => if p c then repl else [c]) rest.
Proof.
  revert pre rest. induction fuel as [|fuel IH]; intros pre rest Hfuel; [lia|].
  destruct rest as [|c rest]; [reflexivity|].
  simpl in Hfuel. cbn [sub_loop flat_map].
  unfold match_at. cbn [rmatch m_rest m_pre m_g1].
  destruct (p c) eqn:Hc.
  - unfold group0, span. cbn [mo_start mo_end m_pre m_rest length].
    replace (S (length pre) - length pre) with 1 by lia.
    cbn [firstn rev app]. rewrite IH by lia. reflexivity.
  - rewrite IH by lia. reflexivity.
Qed.

Lemma re_sub_class (p : ascii -> bool) (repl s : str) :
  re_sub (Cls p) repl s = flat_map (fun c => if p c then repl else [c]) s.
Proof. unfold re_sub. apply sub_loop_class. lia. Qed.

Lemma lstrip_Forall (P : ascii -> Prop) (s : str) :
  List.Forall P s -> List.Forall P (lstrip s).
Proof.
  induction 1 as [|c s Hc Hs IH]; simpl; [constructor|].
  destruct (isspace c); [exact IH | constructor; assumption].
Qed.

Lemma rev_Forall (P : ascii -> Prop) (s : str) :
  List.Forall P s -> List.Forall P (rev s).
Proof.
  rewrite !List.Forall_forall. intros H x Hx. apply H, in_rev, Hx.
Qed.

Lemma strip_Forall (P : ascii -> Prop) (s : str) :
  List.Forall P s -> List.Forall P (strip s).
Proof.
  intros H. unfold strip, rstrip.
  apply rev_Forall, lstrip_Forall, rev_Forall, lstrip_Forall, H.
Qed.

(** What is read off the file name holds letters, spaces, apostrophes
    and hyphens only. *)
Lemma filename_base_name_chars (fallback : str) :
  List.Forall (fun c => name_char c = true) (filename_base fallback).
Proof.
  unfold filename_base. apply strip_Forall. unfold NON_NAME. rewrite re_sub_class.
  apply List.Forall_forall. intros c Hc.
  apply in_flat_map in Hc as (c0 & _ & Hc).
  destruct (negb (name_char c0)) eqn:E.
  - destruct Hc as [<-|[]]. reflexivity.
  - destruct Hc as [<-|[]]. apply negb_false_iff, E.
Qed.

Lemma extract_contacts_fallback (text fallback : str) :
  name_from_head text = None -> name_from_context text = None ->
  (extract_contacts text fallback).1.1 = name_from_filename fallback.
Proof.
  intros Ha Hb. unfold extract_contacts. rewrite Ha. cbn [falsy]. rewrite Hb.
  reflexivity.
Qed.

(** A file name without a letter leaves the placeholder. *)
Example name_placeholder :
  (extract_contacts (py "ten years of payroll and ledger work") (py "2024_03.pdf")).1.1
  = py "(Unknown)".
Proof. vm_compute. reflexivity. Qed.

End ContactFacts.

(* ================================================================== *)
(** * Properties of the archive expander                               *)
(* ================================================================== *)

Section PathFacts.
Import PyStr OsPath Props.

Lemma tail_after_split (c : ascii) (s t : str) :
  tail_after c s = Some t -> exists x, s = x ++ c :: t /\ ~ In c t.
Proof.
  revert t. induction s as [|a s IH]; intros t H; [discriminate H|].
  cbn [tail_after] in H. destruct (tail_after c s) as [t'|] eqn:E.
  - injection H as ->. destruct (IH t eq_refl) as (x & -> & Hout).
    exists (a :: x). split; [reflexivity | exact Hout].
  - destruct (Ascii.eqb a c) eqn:Ea; [|discriminate H].
    injection H as ->. apply Ascii.eqb_eq in Ea. subst a.
    exists []. split; [reflexivity|].
    clear IH. induction t as [|b t IHt]; [intros []|].
    cbn [tail_after] in E. destruct (tail_after c t); [discriminate E|].
    destruct (Ascii.eqb b c) eqn:Eb; [discriminate E|].
    apply Ascii.eqb_neq in Eb. intros [Hb|Hin]; [congruence|].
    apply IHt; [reflexivity | exact Hin].
Qed.

Lemma tail_after_none (c : ascii) (s : str) :
  tail_after c s = None <-> ~ In c s.
Proof.
  induction s as [|a s IH]; cbn [tail_after].
  - split; [intros _ [] | reflexivity].
  - destruct (tail_after c s) as [t|] eqn:E.
    + split; [discriminate|]. intros Hout. exfalso.
      destruct (tail_after_split _ _ _ E) as (x & -> & _).
      apply Hout. right. apply in_or_app. right. left. reflexivity.
    + destruct (Ascii.eqb a c) eqn:Ea.
      * apply Ascii.eqb_eq in Ea. subst a. split; [discriminate|].
        intros Hout. exfalso. apply Hout. left. reflexivity.
      * apply Ascii.eqb_neq in Ea. split; [|reflexivity].
        intros _ [Hac|Hin]; [congruence|]. apply IH; [reflexivity | exact Hin].
Qed.

Lemma tail_after_app (c : ascii) (x t : str) :
  ~ In c t -> tail_after c (x ++ c :: t) = Some t.
Proof.
  intros Hout. induction x as [|a x IH].
  - cbn [app tail_after]. apply tail_after_none in Hout. rewrite Hout.
    rewrite Ascii.eqb_refl. reflexivity.
  - cbn [app tail_after]. rewrite IH. reflexivity.
Qed.

(** [rfind] finds the place where the last tail begins. *)
Lemma rfind_from_tail (c : ascii) (s : str) (i found : Z) :
  rfind_from c i found s
  = match tail_after c s with
    | Some t => (i + Z.of_nat (length s - S (length t)))%Z
    | None => found
    end.
Proof.
  revert i found. induction s as [|a s IH]; intros i found; [reflexivity|].
  cbn [rfind_from tail_after]. rewrite IH.
  destruct (tail_after c s) as [t|] eqn:E.
  - destruct (tail_after_split _ _ _ E) as (x & Hs & _).
    apply (f_equal (@length ascii)) in Hs. rewrite length_app in Hs. simpl in Hs.
    simpl length. lia.
  - destruct (Ascii.eqb a c); [|reflexivity].
    simpl length. replace (S (length s) - S (length s)) with 0 by lia. lia.
Qed.

Lemma basename_tail (p : str) : basename p = default p (tail_after "/" p).
Proof.
  unfold basename, rfind, slice_from. rewrite rfind_from_tail.
  destruct (tail_after "/" p) as [t|] eqn:E; [|reflexivity].
  destruct (tail_after_split _ _ _ E) as (x & -> & _). cbn [default].
  rewrite length_app. simpl length.
  replace (Z.to_nat (0 + Z.of_nat (length x + S (length t) - S (length t)) + 1))
    with (length (x ++ ["/"%char])) by (rewrite length_app; simpl; lia).
  change (x ++ "/"%char :: t) with (x ++ ["/"%char] ++ t). rewrite app_assoc.
  apply drop_app_length.
Qed.

Lemma basename_no_slash (p : str) : ~ In "/"%char (basename p).
Proof.
  rewrite basename_tail. destruct (tail_after "/" p) as [t|] eqn:E; cbn [default].
  - destruct (tail_after_split _ _ _ E) as (x & _ & Hout). exact Hout.
  - apply tail_after_none, E.
Qed.

Lemma basename_plain (b : str) : ~ In "/"%char b -> basename b = b.
Proof.
  intros Hout. rewrite basename_tail. apply tail_after_none in Hout.
  rewrite Hout. reflexivity.
Qed.

Lemma basename_idem (p : str) : basename (basename p) = basename p.
Proof. apply basename_plain, basename_no_slash. Qed.

Lemma join_prefix_shape (dir : str) :
  join_prefix dir = [] \/ exists x, join_prefix dir = x ++ ["/"%char].
Proof.
  unfold join_prefix. destruct dir as [|a dir]; [left; reflexivity|]. right.
  destruct (endswith (py "/") (a :: dir)) eqn:E.
  - unfold endswith in E. apply startswith_spec in E as [rest E].
    exists (rev rest). apply (f_equal (@rev ascii)) in E.
    rewrite rev_involutive, rev_app_distr, rev_involutive in E. exact E.
  - exists (a :: dir). reflexivity.
Qed.

Lemma join_relative (dir n : str) :
  startswith (py "/") n = false -> join dir n = join_prefix dir ++ n.
Proof.
  intros Hrel. unfold join, join_prefix. rewrite Hrel.
  destruct dir as [|a dir]; [reflexivity|].
  destruct (endswith (py "/") (a :: dir)); [reflexivity|].
  rewrite <- app_assoc. reflexivity.
Qed.

Lemma startswith_slash (a : ascii) (b : str) :
  startswith (py "/") (a :: b) = Ascii.eqb "/" a.
Proof. change (py "/") with ["/"%char]. cbn [startswith]. apply andb_true_r. Qed.

Lemma no_slash_relative (b : str) : ~ In "/"%char b -> startswith (py "/") b = false.
Proof.
  intros Hout. destruct b as [|a b]; [reflexivity|].
  rewrite startswith_slash. destruct (Ascii.eqb "/" a) eqn:E; [|reflexivity].
  apply Ascii.eqb_eq in E. subst a. exfalso. apply Hout. left. reflexivity.
Qed.

Lemma basename_join (dir b : str) :
  ~ In "/"%char b -> basename (join dir b) = b.
Proof.
  intros Hout. rewrite join_relative by (apply no_slash_relative, Hout).
  destruct (join_prefix_shape dir) as [-> | [x ->]].
  - apply basename_plain, Hout.
  - rewrite <- app_assoc. cbn [app]. rewrite basename_tail, tail_after_app by exact Hout.
    reflexivity.
Qed.

End PathFacts.

Section ArchiveFacts.
Import PyStr OsPath CVProcessor Props.

Context {FS : Type} (D : Disk FS) (cache_dir : str).








End ArchiveFacts.

Section ArchiveClaims.
Import PyStr OsPath CVProcessor Props.


(** An archive whose PDF members differ in base file name, on an empty
    disk of files by path: the flattened paths, each with the content of
    its member. *)
Example unzip_pdfs_mixed :
  unzip_pdfs files cache mixed_archive ∅
  = ({[ py "/tmp/ocpro_k3/cv.pdf" := [Byte.x01];
        py "/tmp/ocpro_k3/Resume.PDF" := [Byte.x02];
        py "/tmp/ocpro_k3/carol.pdf" := [Byte.x04] ]},
     Returned [py "/tmp/ocpro_k3/cv.pdf"; py "/tmp/ocpro_k3/Resume.PDF";
               py "/tmp/ocpro_k3/carol.pdf"]).
Proof. vm_compute. reflexivity. Qed.



End ArchiveClaims.

(* ================================================================== *)
(** * Properties of the matcher                                        *)
(* ================================================================== *)

Section MatcherFacts.
Import PyStr Re Facts.

Lemma passed_refl (st : mstate) : passed [] st st.
Proof. split; reflexivity. Qed.

Lemma passed_trans (a b : str) (st1 st2 st3 : mstate) :
  passed a st1 st2 -> passed b st2 st3 -> passed (a ++ b) st1 st3.
Proof.
  intros [Hr1 Hp1] [Hr2 Hp2]. split.
  - rewrite Hr1, Hr2, app_assoc. reflexivity.
  - rewrite Hp2, Hp1, rev_app_distr, app_assoc. reflexivity.
Qed.

Lemma rmatch_rep (greedy : bool) (lo : nat) (hi : option nat) (r : regex)
  (st : mstate) (k : mstate -> option mstate) :
  rmatch (Rep greedy lo hi r) st k
  = rep_loop (rmatch r) greedy k
             (match hi with Some h => h | None => length (m_rest st) end) lo st.
Proof. reflexivity. Qed.

(** The matcher is sound: a match hands to its continuation a position
    further along the same text, and what it has passed is matched by
    the pattern. *)
Lemma rmatch_sound (r : regex) :
  forall st k e, rmatch r st k = Some e ->
    exists mid st', passed mid st st' /\ matches r mid /\ k st' = Some e.
Proof.
  induction r as [|p|r1 IH1 r2 IH2|r1 IH1 r2 IH2|greedy lo hi r1 IH1| | | |r1 IH1];
    intros st k e H.
  - exists [], st. split; [apply passed_refl | split; [reflexivity | exact H]].
  - cbn [rmatch] in H. destruct st as [pre rest g]. cbn [m_rest m_pre m_g1] in H.
    destruct rest as [|c rest]; [discriminate H|].
    destruct (p c) eqn:Hc; [|discriminate H].
    exists [c], (MState (c :: pre) rest g).
    split; [split; reflexivity | split; [exists c; auto | exact H]].
  - cbn [rmatch] in H.
    destruct (IH1 _ _ _ H) as (a & st1 & Ha & Ma & H1).
    destruct (IH2 _ _ _ H1) as (b & st2 & Hb & Mb & H2).
    exists (a ++ b), st2.
    split; [eapply passed_trans; eassumption | split; [exists a, b; auto | exact H2]].
  - cbn [rmatch] in H. destruct (rmatch r1 st k) eqn:E.
    + injection H as ->. destruct (IH1 _ _ _ E) as (a & st1 & Ha & Ma & H1).
      exists a, st1. split; [exact Ha | split; [left; exact Ma | exact H1]].
    + destruct (IH2 _ _ _ H) as (a & st1 & Ha & Ma & H1).
      exists a, st1. split; [exact Ha | split; [right; exact Ma | exact H1]].
  - rewrite rmatch_rep in H.
    set (fuel0 := match hi with Some h => h | None => length (m_rest st) end) in H.
    assert (exists parts st', passed (concat parts) st st' /\ Forall (matches r1) parts
                              /\ lo <= length parts <= Nat.max lo fuel0 /\ k st' = Some e)
      as (parts & st' & Hp & Hparts & Hlen & Hk).
    { revert H. generalize fuel0 as fuel. generalize lo as need. clear fuel0. intros need fuel.
      revert need st.
      induction fuel as [|fuel IHf]; intros need st H.
      - destruct need; cbn [rep_loop] in H; [|discriminate H].
        exists [], st. split; [apply passed_refl|]. split; [constructor|]. split; [simpl; lia|].
        destruct greedy; [exact H|]. destruct (k st); [congruence | discriminate H].
      - assert (forall need',
                  rmatch r1 st (fun st1 => rep_loop (rmatch r1) greedy k fuel need' st1) = Some e ->
                  exists parts st', passed (concat parts) st st' /\ Forall (matches r1) parts
                    /\ S need' <= length parts <= S (Nat.max need' fuel) /\ k st' = Some e)
          as Hmore.
        { intros need' Hm. destruct (IH1 _ _ _ Hm) as (a & st1 & Ha & Ma & H1).
          destruct (IHf _ _ H1) as (parts & st2 & Hb & Mb & Hlen & H2).
          exists (a :: parts), st2. cbn [concat length].
          split; [eapply passed_trans; eassumption|].
          split; [constructor; assumption|]. split; [lia | exact H2]. }
        assert (k st = Some e ->
                exists parts st', passed (concat parts) st st' /\ Forall (matches r1) parts
                  /\ 0 <= length parts <= Nat.max 0 (S fuel) /\ k st' = Some e) as Hstop.
        { intros Hk. exists [], st. split; [apply passed_refl|]. split; [constructor|].
          split; [simpl; lia | exact Hk]. }
        destruct need as [|need]; cbn [rep_loop] in H.
        + destruct greedy.
          * destruct (rmatch r1 st _) eqn:E.
            -- injection H as ->. destruct (Hmore 0 E) as (parts & st' & ? & ? & ? & ?).
               exists parts, st'. split; [assumption|]. split; [assumption|]. split; [lia | assumption].
            -- apply Hstop, H.
          * destruct (k st) eqn:E.
            -- injection H as ->. apply Hstop. reflexivity.
            -- destruct (Hmore 0 H) as (parts & st' & ? & ? & ? & ?).
               exists parts, st'. split; [assumption|]. split; [assumption|]. split; [lia | assumption].
        + destruct (Hmore need H) as (parts & st' & ? & ? & ? & ?).
          exists parts, st'. split; [assumption|]. split; [assumption|]. split; [lia | assumption]. }
    exists (concat parts), st'. split; [exact Hp|]. split; [|exact Hk].
    cbn [matches]. exists parts. split; [reflexivity|]. split; [exact Hparts|].
    split; [lia|].
    destruct hi as [h|]; [|exact I]. subst fuel0.
    destruct (Nat.le_gt_cases lo h) as [Hle|Hgt]; [lia|].
    exfalso. clear -H Hgt IH1. revert H. generalize st. generalize dependent lo.
    induction h as [|h IHh]; intros lo Hlo st0 H.
    + destruct lo; [lia|]. cbn [rep_loop] in H. discriminate H.
    + destruct lo as [|lo]; [lia|]. cbn [rep_loop] in H.
      destruct (IH1 _ _ _ H) as (a & st1 & _ & _ & H1).
      apply (IHh lo) in H1; [exact H1 | lia].
  - cbn [rmatch] in H. destruct (m_pre st); [|discriminate H].
    exists [], st. split; [apply passed_refl | split; [reflexivity | exact H]].
  - cbn [rmatch] in H. exists [], st. split; [apply passed_refl|]. split; [reflexivity|].
    destruct (m_rest st) as [|c [|d rest]]; [exact H | | discriminate H].
    destruct (ord c =? 10); [exact H | discriminate H].
  - cbn [rmatch] in H. destruct (at_boundary st); [|discriminate H].
    exists [], st. split; [apply passed_refl | split; [reflexivity | exact H]].
  - cbn [rmatch] in H. destruct (IH1 _ _ _ H) as (a & st1 & Ha & Ma & H1).
    exists a, (MState (m_pre st1) (m_rest st1) (Some (span st st1))).
    split; [exact Ha | split; [exact Ma | exact H1]].
Qed.

Lemma rmatch_passed (r : regex) (st : mstate) (k : mstate -> option mstate) (e : mstate) :
  rmatch r st k = Some e -> exists mid st', passed mid st st' /\ k st' = Some e.
Proof.
  intros H. destruct (rmatch_sound r _ _ _ H) as (mid & st' & Hp & _ & Hk). eauto.
Qed.

Lemma span_passed (mid : str) (st st' : mstate) : passed mid st st' -> span st st' = mid.
Proof.
  intros [_ Hp]. unfold span. rewrite Hp, length_app, length_rev.
  replace (length mid + length (m_pre st) - length (m_pre st)) with (length (rev mid))
    by (rewrite length_rev; lia).
  rewrite take_app_length. apply rev_involutive.
Qed.

(** A match at a position: what it spans is what lies ahead there. *)
Lemma match_at_spans (r : regex) (pre rest : str) (m : rmatch_obj) :
  match_at r pre rest = Some m ->
  mo_start m = MState pre rest None
  /\ passed (group0 m) (mo_start m) (mo_end m)
  /\ matches r (group0 m).
Proof.
  unfold match_at. intros H.
  destruct (rmatch r (MState pre rest None) Some) as [e|] eqn:E; [|discriminate H].
  injection H as <-. cbn [mo_start mo_end]. split; [reflexivity|].
  destruct (rmatch_sound _ _ _ _ E) as (mid & st' & Hp & Hm & Hk).
  injection Hk as ->. unfold group0. cbn [mo_start mo_end].
  rewrite (span_passed _ _ _ Hp). split; [exact Hp | exact Hm].
Qed.

(** What a search finds lies in the text searched. *)
Lemma search_from_within (r : regex) (rest pre : str) (m : rmatch_obj) :
  search_from r pre rest = Some m ->
  exists a b, rest = a ++ group0 m ++ b
              /\ mo_start m = MState (rev a ++ pre) (group0 m ++ b) None
              /\ matches r (group0 m).
Proof.
  revert pre. induction rest as [|c rest IH]; intros pre H; cbn [search_from] in H.
  - destruct (match_at r pre []) as [m'|] eqn:E; [|discriminate H].
    injection H as ->. destruct (match_at_spans _ _ _ _ E) as (Hs & (Hr & _) & Hm).
    rewrite Hs in Hr. cbn [m_rest] in Hr.
    exists [], (m_rest (mo_end m)). split; [exact Hr|]. split; [|exact Hm]. rewrite Hs. cbn [rev app]. f_equal. exact Hr.
  - destruct (match_at r pre (c :: rest)) as [m'|] eqn:E.
    + injection H as ->. destruct (match_at_spans _ _ _ _ E) as (Hs & (Hr & _) & Hm).
      rewrite Hs in Hr. cbn [m_rest] in Hr.
      exists [], (m_rest (mo_end m)). split; [exact Hr|]. split; [|exact Hm]. rewrite Hs. cbn [rev app]. f_equal. exact Hr.
    + destruct (IH _ H) as (a & b & Hrest & Hs & Hm).
      exists (c :: a), b. split; [rewrite Hrest; reflexivity|]. split; [|exact Hm].
      rewrite Hs. cbn [rev]. rewrite <- app_assoc. reflexivity.
Qed.

End MatcherFacts.

Section SqueezeFacts.
Import PyStr Re Facts.

(** A greedy run over a class takes every character of the class that
    lies ahead, when the rest of the pattern accepts what follows. *)
Lemma rep_class_greedy (p : ascii -> bool) (k : mstate -> option mstate) (e : mstate)
  (run : str) :
  forall (rest' pre : str) (g : option str) (fuel need : nat),
    Forall (fun c => p c = true) run ->
    match rest' with [] => True | d :: _ => p d = false end ->
    need <= length run <= fuel ->
    k (MState (rev run ++ pre) rest' g) = Some e ->
    rep_loop (rmatch (Cls p)) true k fuel need (MState pre (run ++ rest') g) = Some e.
Proof.
  induction run as [|c run IH]; intros rest' pre g fuel need Hrun Hstop Hlen Hk.
  - simpl in Hlen. assert (need = 0) as -> by lia. cbn [app rev] in *.
    destruct fuel as [|fuel]; cbn [rep_loop]; [exact Hk|].
    cbn [rmatch m_rest]. destruct rest' as [|d rest']; [exact Hk|].
    rewrite Hstop. exact Hk.
  - apply Forall_cons in Hrun as [Hc Hrun]. simpl in Hlen.
    destruct fuel as [|fuel]; [lia|].
    assert (forall need', need' <= length run ->
              rmatch (Cls p) (MState pre ((c :: run) ++ rest') g)
                     (fun st1 => rep_loop (rmatch (Cls p)) true k fuel need' st1) = Some e)
      as Hstep.
    { intros need' Hn. cbn [rmatch m_rest m_pre m_g1 app]. rewrite Hc.
      apply IH; [exact Hrun | exact Hstop | lia|].
      cbn [rev] in Hk. rewrite <- app_assoc in Hk. exact Hk. }
    destruct need as [|need]; cbn [rep_loop].
    + rewrite Hstep by lia. reflexivity.
    + apply Hstep. lia.
Qed.

(** Every text splits into its leading run of a class and the rest. *)
Lemma leading_run (p : ascii -> bool) (s : str) :
  exists run rest', s = run ++ rest'
    /\ Forall (fun c => p c = true) run
    /\ match rest' with [] => True | d :: _ => p d = false end.
Proof.
  induction s as [|c s (run & rest' & -> & Hrun & Hstop)].
  - exists [], []. repeat split. constructor.
  - destruct (p c) eqn:Hc.
    + exists (c :: run), rest'. repeat split; [constructor; assumption | exact Hstop].
    + exists [], (c :: run ++ rest'). repeat split; [constructor | exact Hc].
Qed.

Lemma squeeze_run (p : ascii -> bool) (repl run rest' : str) :
  Forall (fun c => p c = true) run ->
  match rest' with [] => True | d :: _ => p d = false end ->
  squeeze p repl true (run ++ rest') = squeeze p repl false rest'.
Proof.
  intros Hrun Hstop. induction Hrun as [|c run Hc _ IH]; cbn [app squeeze].
  - destruct rest' as [|d rest']; [reflexivity|]. cbn [squeeze]. rewrite Hstop. reflexivity.
  - rewrite Hc. exact IH.
Qed.

(** Substituting for [p+] squeezes every run of the class into one
    replacement. *)
Lemma sub_loop_plus (p : ascii -> bool) (repl : str) (fuel : nat) :
  forall pre rest, length rest < fuel ->
    sub_loop fuel (Plus (Cls p)) repl pre rest = squeeze p repl false rest.
Proof.
  induction fuel as [|fuel IH]; intros pre rest Hfuel; [lia|].
  destruct rest as [|c rest]; [reflexivity|].
  simpl in Hfuel. cbn [sub_loop squeeze].
  destruct (p c) eqn:Hc.
  - destruct (leading_run p rest) as (run & rest' & -> & Hrun & Hstop).
    assert (match_at (Plus (Cls p)) pre (c :: run ++ rest')
            = Some (MatchObj (MState pre (c :: run ++ rest') None)
                             (MState (rev (c :: run) ++ pre) rest' None))) as Hm.
    { unfold match_at, Plus. rewrite rmatch_rep. cbn [m_rest].
      rewrite (rep_class_greedy p Some (MState (rev (c :: run) ++ pre) rest' None)
                 (c :: run) rest' pre None); [reflexivity | | exact Hstop | | reflexivity].
      - constructor; assumption.
      - simpl. rewrite length_app. lia. }
    rewrite Hm. unfold group0, span. cbn [mo_start mo_end m_pre m_rest].
    rewrite length_app, length_rev.
    replace (length (c :: run) + length pre - length pre) with (length (rev (c :: run)))
      by (rewrite length_rev; lia).
    rewrite take_app_length, rev_involutive.
    rewrite IH by (rewrite length_app in Hfuel; lia).
    rewrite (squeeze_run p repl run rest' Hrun Hstop). reflexivity.
  - unfold match_at, Plus. rewrite rmatch_rep. cbn [m_rest length rep_loop rmatch].
    rewrite Hc. rewrite IH by lia. reflexivity.
Qed.

Lemma re_sub_plus (p : ascii -> bool) (repl s : str) :
  re_sub (Plus (Cls p)) repl s = squeeze p repl false s.
Proof. unfold re_sub. apply sub_loop_plus. lia. Qed.

(** ** Trimming, from the left *)

Lemma lstrip_app_last (a : str) (c : ascii) :
  lstrip (a ++ [c])
  = match lstrip a with
    | [] => if isspace c then [] else [c]
    | _ :: _ => lstrip a ++ [c]
    end.
Proof.
  induction a as [|x a IH]; cbn [app lstrip].
  - destruct (isspace c); reflexivity.
  - destruct (isspace x); [exact IH | reflexivity].
Qed.

Lemma rstrip_cons (c : ascii) (s : str) :
  rstrip (c :: s)
  = match rstrip s with
    | [] => if isspace c then [] else [c]
    | _ :: _ => c :: rstrip s
    end.
Proof.
  unfold rstrip. cbn [rev]. rewrite lstrip_app_last.
  destruct (lstrip (rev s)) as [|x l] eqn:E.
  - cbn [rev]. destruct (isspace c); reflexivity.
  - rewrite rev_app_distr. cbn [rev app].
    destruct (rev l ++ [x]) eqn:E2; [destruct (rev l); discriminate E2 | reflexivity].
Qed.

Lemma squeeze_loose (s : str) (b : bool) :
  loose b (squeeze isspace (py " ") b s) = true.
Proof.
  revert b. induction s as [|c s IH]; intros b; [reflexivity|].
  cbn [squeeze]. destruct (isspace c) eqn:Hc.
  - destruct b; cbn [app].
    + apply IH.
    + change (py " ") with [" "%char]. cbn [app loose].
      change (isspace " ") with true. cbn. apply IH.
  - cbn [loose]. rewrite Hc. apply IH.
Qed.

Lemma lstrip_loose (s : str) (b : bool) : loose b s = true -> loose true (lstrip s) = true.
Proof.
  revert b. induction s as [|c s IH]; intros b H; [reflexivity|].
  cbn [lstrip]. cbn [loose] in H. destruct (isspace c) eqn:Hc.
  - apply andb_true_iff in H as [_ H]. apply (IH true H).
  - cbn [loose]. rewrite Hc. exact H.
Qed.

Lemma rstrip_tidy_from (s : str) (b : bool) :
  loose b s = true -> rstrip s <> [] -> tidy_from b (rstrip s) = true.
Proof.
  revert b. induction s as [|c s IH]; intros b H Hne; [contradiction Hne; reflexivity|].
  rewrite rstrip_cons in *. cbn [loose] in H.
  destruct (rstrip s) as [|x l] eqn:E.
  - destruct (isspace c) eqn:Hc; [contradiction Hne; reflexivity|].
    cbn [tidy_from]. rewrite Hc. reflexivity.
  - cbn [tidy_from]. destruct (isspace c) eqn:Hc.
    + apply andb_true_iff in H as [H1 H2]. rewrite H1. apply (IH true H2). discriminate.
    + apply (IH false H). discriminate.
Qed.

(** Squeezing the blanks and trimming leaves a tidy text. *)
Lemma strip_squeeze_tidy (s : str) :
  tidy (strip (squeeze isspace (py " ") false s)) = true.
Proof.
  unfold tidy, strip.
  destruct (rstrip (lstrip (squeeze isspace (py " ") false s))) as [|c l] eqn:E; [reflexivity|].
  rewrite <- E. apply rstrip_tidy_from.
  - eapply lstrip_loose, squeeze_loose.
  - rewrite E. discriminate.
Qed.

Lemma tidy_squeeze (s : str) (ab b : bool) :
  tidy_from ab s = true -> (b = true -> ab = true) ->
  squeeze isspace (py " ") b s = s.
Proof.
  revert ab b. induction s as [|c s IH]; intros ab b H Hb; [reflexivity|].
  cbn [tidy_from] in H. cbn [squeeze]. destruct (isspace c) eqn:Hc.
  - apply andb_true_iff in H as [H1 H3]. apply andb_true_iff in H1 as [H1 H2].
    apply negb_true_iff in H1. subst ab.
    destruct b; [discriminate (Hb eq_refl)|].
    apply Ascii.eqb_eq in H2. subst c.
    rewrite (IH true true H3 (fun _ => eq_refl)). reflexivity.
  - rewrite (IH false false H); [reflexivity | discriminate].
Qed.

Lemma tidy_rstrip (s : str) (ab : bool) : tidy_from ab s = true -> rstrip s = s.
Proof.
  revert ab. induction s as [|c s IH]; intros ab H; [discriminate H || reflexivity|].
  cbn [tidy_from] in H. rewrite rstrip_cons.
  destruct (isspace c) eqn:Hc.
  - apply andb_true_iff in H as [_ H]. rewrite (IH true H).
    destruct s; [discriminate H | reflexivity].
  - rewrite (IH false H). destruct s; reflexivity.
Qed.

(** A tidy text is left as it is by the squeeze and by the trim. *)
Lemma tidy_fixed (s : str) :
  tidy s = true -> strip (squeeze isspace (py " ") false s) = s.
Proof.
  destruct s as [|c s]; [reflexivity|]. unfold tidy. intros H.
  rewrite (tidy_squeeze _ true false H) by discriminate.
  unfold strip. assert (lstrip (c :: s) = c :: s) as ->.
  { cbn [tidy_from] in H. cbn [lstrip]. destruct (isspace c); [discriminate H | reflexivity]. }
  apply (tidy_rstrip _ true H).
Qed.

End SqueezeFacts.

(* ================================================================== *)
(** * Further properties of the contact extractor                      *)
(* ================================================================== *)

Section ContactShapes.
Import PyStr Re CVProcessor Facts.

Lemma matches_class (p : ascii -> bool) (mid : str) :
  matches (Cls p) mid -> length mid = 1 /\ Forall (fun c => p c = true) mid.
Proof. intros (c & -> & Hc). split; [reflexivity | repeat constructor; exact Hc]. Qed.

Lemma matches_chr (c : ascii) (mid : str) : matches (Chr c) mid -> mid = [c].
Proof.
  intros (x & -> & Hx). unfold is_char in Hx. apply Ascii.eqb_eq in Hx. subst x. reflexivity.
Qed.

(** A repetition of a class matches so many characters of the class as
    its bounds allow. *)
Lemma matches_rep_class (greedy : bool) (lo : nat) (hi : option nat)
  (p : ascii -> bool) (mid : str) :
  matches (Rep greedy lo hi (Cls p)) mid ->
  Forall (fun c => p c = true) mid
  /\ lo <= length mid
  /\ match hi with Some h => length mid <= h | None => True end.
Proof.
  intros (parts & -> & Hparts & Hlo & Hhi).
  assert (Forall (fun c => p c = true) (concat parts)
          /\ length (concat parts) = length parts) as [Hall Hlen].
  { clear Hlo Hhi. induction Hparts as [|part parts Hpart _ [IH1 IH2]]; [split; [constructor | reflexivity]|].
    destruct (matches_class _ _ Hpart) as [Hl Hp]. cbn [concat]. split.
    - apply Forall_app. split; assumption.
    - rewrite length_app, Hl, IH2. reflexivity. }
  rewrite Hlen. split; [exact Hall|]. split; [exact Hlo | exact Hhi].
Qed.

(** An optional part matches nothing or what the part matches. *)
Lemma matches_opt (r : regex) (mid : str) :
  matches (Opt r) mid -> mid = [] \/ matches r mid.
Proof.
  intros (parts & -> & Hparts & _ & Hhi).
  destruct parts as [|a [|b parts]]; [left; reflexivity | right | simpl in Hhi; lia].
  cbn [concat]. rewrite app_nil_r. apply Forall_inv in Hparts. exact Hparts.
Qed.

Lemma re_search_within (r : regex) (s : str) (m : rmatch_obj) :
  re_search r s = Some m ->
  (exists a b, s = a ++ group0 m ++ b) /\ matches r (group0 m).
Proof.
  intros H. destruct (search_from_within _ _ _ _ H) as (a & b & Hs & _ & Hm).
  split; [exists a, b; exact Hs | exact Hm].
Qed.

(** Property X1.  The e-mail address found lies in the text and has a local
    part, an at sign, a domain, a dot and at least two final letters. *)
Theorem email_shape (text fallback e : str) :
  (extract_contacts text fallback).1.2 = Some e ->
  (exists a b, text = a ++ e ++ b)
  /\ exists loc domain tld,
       e = loc ++ py "@" ++ domain ++ py "." ++ tld
       /\ 1 <= length loc /\ Forall (fun c => email_local c = true) loc
       /\ 1 <= length domain /\ Forall (fun c => email_domain c = true) domain
       /\ 2 <= length tld /\ Forall (fun c => is_alpha c = true) tld.
Proof.
  unfold extract_contacts. cbn [fst snd]. intros H.
  destruct (re_search EMAIL_RE text) as [m|] eqn:E; [|discriminate H].
  injection H as <-. destruct (re_search_within _ _ _ E) as [Hin Hm].
  split; [exact Hin|].
  unfold EMAIL_RE in Hm. cbn [Cat matches] in Hm.
  destruct Hm as (loc & r1 & -> & Hloc & at_ & r2 & -> & Hat & dom & r3 & -> & Hdom
                  & dot_ & tld & -> & Hdot & Htld).
  apply matches_chr in Hat, Hdot. subst at_ dot_.
  apply matches_rep_class in Hloc as (Hloc & Hlocn & _).
  apply matches_rep_class in Hdom as (Hdom & Hdomn & _).
  apply matches_rep_class in Htld as (Htld & Htldn & _).
  exists loc, dom, tld. repeat split; assumption.
Qed.

Lemma email_shape_witness :
  (extract_contacts Props.text_A []).1.2 = Some (py "jane.doe@example.com")
  /\ exists a b, Props.text_A = a ++ py "jane.doe@example.com" ++ b.
Proof.
  split; [reflexivity|].
  exact (proj1 (email_shape Props.text_A [] (py "jane.doe@example.com") eq_refl)).
Defined.

Lemma digits_app (a b : str) : digits (a ++ b) = digits a + digits b.
Proof. unfold digits. rewrite List.filter_app, length_app. reflexivity. Qed.

Lemma digits_all (s : str) : Forall (fun c => is_09 c = true) s -> digits s = length s.
Proof.
  unfold digits. induction 1 as [|c s Hc _ IH]; [reflexivity|].
  cbn [List.filter]. rewrite Hc. cbn [length]. rewrite IH. reflexivity.
Qed.

Lemma digits_phone_char (s : str) :
  Forall (fun c => is_09 c = true) s -> Forall (fun c => phone_char c = true) s.
Proof.
  intros H. eapply Forall_impl; [exact H|].
  intros c Hc. unfold phone_char. rewrite Hc. reflexivity.
Qed.

(** A separator, when there is one, is a hyphen or a space: a phone
    character and no digit. *)
Lemma matches_separator (mid : str) :
  matches (Opt (Cls (one_of "- "))) mid ->
  digits mid = 0 /\ length mid <= 1 /\ Forall (fun c => phone_char c = true) mid.
Proof.
  intros H. apply matches_opt in H as [-> | (c & -> & Hc)].
  - split; [reflexivity | split; [simpl; lia | constructor]].
  - assert (c = "-"%char \/ c = " "%char) as Hcases.
    { unfold one_of in Hc. cbn [py list_ascii_of_string existsb] in Hc.
      unfold is_char in Hc.
      destruct (Ascii.eqb "-" c) eqn:E1; [left; symmetry; apply Ascii.eqb_eq, E1|].
      destruct (Ascii.eqb " " c) eqn:E2; [right; symmetry; apply Ascii.eqb_eq, E2|].
      discriminate Hc. }
    destruct Hcases as [-> | ->]; (split; [reflexivity | split; [simpl; lia | repeat constructor]]).
Qed.

(** Property X2.  The phone number found lies in the text, is written with
    digits, plus, hyphen and space only, and has ten to thirteen digits. *)
Theorem phone_shape (text fallback ph : str) :
  (extract_contacts text fallback).2 = Some ph ->
  (exists a b, text = a ++ ph ++ b)
  /\ Forall (fun c => phone_char c = true) ph
  /\ 10 <= digits ph <= 13
  /\ length ph <= 17.
Proof.
  unfold extract_contacts. cbn [fst snd]. intros H.
  destruct (re_search PHONE_RE text) as [m|] eqn:E; [|discriminate H].
  injection H as <-. destruct (re_search_within _ _ _ E) as [Hin Hm].
  split; [exact Hin|].
  unfold PHONE_RE in Hm. cbn [Cat] in Hm.
  destruct Hm as (cc & r1 & -> & Hcc & d1 & r2 & -> & Hd1 & s1 & r3 & -> & Hs1
                  & d2 & r4 & -> & Hd2 & s2 & d3 & -> & Hs2 & Hd3).
  apply matches_rep_class in Hd1 as (Hd1 & Hd1lo & Hd1hi).
  apply matches_rep_class in Hd2 as (Hd2 & Hd2lo & Hd2hi).
  apply matches_rep_class in Hd3 as (Hd3 & Hd3lo & Hd3hi).
  apply matches_separator in Hs1 as (Hs1d & Hs1n & Hs1c).
  apply matches_separator in Hs2 as (Hs2d & Hs2n & Hs2c).
  assert (Forall (fun c => phone_char c = true) cc /\ digits cc <= 3 /\ length cc <= 5)
    as (Hccc & Hccd & Hccn).
  { apply matches_opt in Hcc as [-> | Hcc]; [split; [constructor | split; unfold digits; simpl; lia]|].
    cbn [matches] in Hcc.
    destruct Hcc as (plus & r & -> & Hplus & code & sep & -> & Hcode & Hsep).
    apply matches_chr in Hplus. subst plus.
    apply (matches_rep_class true 1 (Some 3)) in Hcode as (Hcode & _ & Hcodehi).
    apply matches_separator in Hsep as (Hsd & Hsn & Hsc).
    repeat split.
    - constructor; [reflexivity|]. apply Forall_app. split; [apply digits_phone_char, Hcode | exact Hsc].
    - change (["+"%char] ++ code ++ sep) with ("+"%char :: code ++ sep).
      unfold digits. cbn [List.filter]. change (is_09 "+") with false. cbn iota.
      fold (digits (code ++ sep)). rewrite digits_app, (digits_all _ Hcode), Hsd. lia.
    - cbn [app length]. rewrite length_app. lia. }
  repeat split.
  - repeat (apply Forall_app; split); try assumption; apply digits_phone_char; assumption.
  - rewrite !digits_app, (digits_all _ Hd1), (digits_all _ Hd2), (digits_all _ Hd3), Hs1d, Hs2d.
    lia.
  - rewrite !digits_app, (digits_all _ Hd1), (digits_all _ Hd2), (digits_all _ Hd3), Hs1d, Hs2d.
    lia.
  - rewrite !length_app. lia.
Qed.

Lemma phone_shape_witness :
  (extract_contacts (py "call +44 1234567890 now") []).2 = Some (py "+44 1234567890")
  /\ 10 <= digits (py "+44 1234567890") <= 13.
Proof.
  split; [reflexivity|].
  exact (proj1 (proj2 (proj2 (phone_shape (py "call +44 1234567890 now") []
                                          (py "+44 1234567890") eq_refl)))).
Defined.

End ContactShapes.

Section NameFacts.
Import PyStr Re CVProcessor Facts.

(** A substitution writes characters of the text and of the replacement
    only. *)
Lemma sub_loop_Forall (P : ascii -> Prop) (r : regex) (repl : str) (fuel : nat) :
  Forall P repl ->
  forall pre rest, Forall P rest -> Forall P (sub_loop fuel r repl pre rest).
Proof.
  intros Hrepl. induction fuel as [|fuel IH]; intros pre rest Hrest; [exact Hrest|].
  cbn [sub_loop]. destruct (match_at r pre rest) as [m|] eqn:E.
  - destruct (match_at_spans _ _ _ _ E) as (Hs & (Hr & _) & _).
    rewrite Hs in Hr. cbn [m_rest] in Hr.
    destruct (group0 m) as [|g0 g] eqn:Eg.
    + destruct rest as [|c rest]; [exact Hrepl|].
      apply Forall_cons in Hrest as [Hc Hrest].
      apply Forall_app. split; [exact Hrepl|]. constructor; [exact Hc|]. apply IH, Hrest.
    + apply Forall_app. split; [exact Hrepl|]. apply IH.
      rewrite Hr in Hrest. apply Forall_app in Hrest as [_ Hrest]. exact Hrest.
  - destruct rest as [|c rest]; [constructor|].
    apply Forall_cons in Hrest as [Hc Hrest]. constructor; [exact Hc|]. apply IH, Hrest.
Qed.

Lemma re_sub_Forall (P : ascii -> Prop) (r : regex) (repl s : str) :
  Forall P repl -> Forall P s -> Forall P (re_sub r repl s).
Proof. intros Hrepl Hs. apply sub_loop_Forall; assumption. Qed.

Lemma split_from_Forall (P : ascii -> Prop) (sep : str) (s : str) :
  forall skip cur, Forall P cur -> Forall P s ->
    Forall (Forall P) (split_from sep skip cur s).
Proof.
  induction s as [|c s IH]; intros skip cur Hcur Hs; cbn [split_from].
  - repeat constructor. apply Forall_rev, Hcur.
  - apply Forall_cons in Hs as [Hc Hs]. destruct skip as [|skip].
    + destruct (startswith sep (c :: s)).
      * constructor; [apply Forall_rev, Hcur|]. apply IH; [constructor | exact Hs].
      * apply IH; [constructor; assumption | exact Hs].
    + apply IH; assumption.
Qed.

(** The line the loop accepts is not empty and comes, trimmed, from one
    of the segments. *)
Lemma first_name_line_some (P : ascii -> Prop) (lns : list str) (ln : str) :
  Forall (Forall P) lns -> first_name_line lns = Some ln ->
  ln <> [] /\ Forall P ln /\ length ln <= 60.
Proof.
  induction 1 as [|ln0 lns Hln0 _ IH]; cbn [first_name_line]; intros H; [discriminate H|].
  destruct (falsy (Some (strip ln0)) || contains (py "@") (strip ln0)
            || existsb isdigit (strip ln0)) eqn:E1; [apply IH, H|].
  destruct ((length (strip ln0) <=? 60)
            && bool_decide (is_Some (re_match NAME_LINE_RE (strip ln0)))) eqn:E2;
    [|apply IH, H].
  injection H as <-.
  apply orb_false_iff in E1 as [E1 _]. apply orb_false_iff in E1 as [E1 _].
  apply andb_true_iff in E2 as [E2 _]. apply Nat.leb_le in E2.
  split; [|split; [apply strip_Forall, Hln0 | exact E2]].
  intros Hnil. rewrite Hnil in E1. discriminate E1.
Qed.

Lemma blanked_name_chars (s : str) :
  Forall (fun c => name_char c = true) (re_sub NON_NAME (py " ") s).
Proof.
  unfold NON_NAME. rewrite re_sub_class.
  apply Forall_forall. intros c Hc. apply list_elem_of_In in Hc.
  apply in_flat_map in Hc as (c0 & _ & Hc).
  destruct (negb (name_char c0)) eqn:E.
  - destruct Hc as [<-|[]]. reflexivity.
  - destruct Hc as [<-|[]]. apply negb_false_iff, E.
Qed.

Lemma name_from_head_some (text ln : str) :
  name_from_head text = Some ln ->
  ln <> [] /\ Forall (fun c => name_char c = true) ln /\ length ln <= 60.
Proof.
  unfold name_from_head. apply first_name_line_some.
  apply split_from_Forall; [constructor | apply blanked_name_chars].
Qed.

Lemma name_from_context_some (text guess : str) :
  name_from_context text = Some guess ->
  2 <= length guess <= 60 /\ Forall (fun c => name_char c = true) guess.
Proof.
  unfold name_from_context. destruct (re_search BEFORE_EMAIL text) as [m|]; [|discriminate].
  cbn zeta.
  set (g := re_sub WS_RUN2 (py " ") (strip (re_sub NON_NAME (py " ") (default [] (group1 m))))).
  destruct ((2 <=? length g) && (length g <=? 60)) eqn:E; [|discriminate].
  intros H. injection H as <-.
  apply andb_true_iff in E as [E1 E2]. apply Nat.leb_le in E1, E2.
  split; [lia|]. apply re_sub_Forall; [repeat constructor|].
  apply strip_Forall, blanked_name_chars.
Qed.

(** Property X3.  The name is never empty: it is a line of the head, a span
    before the address, what the file name leaves, or the placeholder; and
    but for the placeholder it is written with letters, spaces, apostrophes
    and hyphens only. *)
Theorem name_never_empty (text fallback : str) :
  let name := (extract_contacts text fallback).1.1 in
  name <> []
  /\ (name = py "(Unknown)" \/ Forall (fun c => name_char c = true) name).
Proof.
  cbn zeta. unfold extract_contacts. cbn [fst snd].
  destruct (name_from_head text) as [ln|] eqn:Ea.
  - destruct (name_from_head_some _ _ Ea) as (Hne & Hchars & _).
    destruct ln as [|c ln]; [contradiction Hne; reflexivity|]. cbn [falsy default].
    split; [discriminate | right; exact Hchars].
  - cbn [falsy]. destruct (name_from_context text) as [g|] eqn:Eb.
    + destruct (name_from_context_some _ _ Eb) as (Hlen & Hchars).
      destruct g as [|c g]; [simpl in Hlen; lia|]. cbn [falsy default].
      split; [discriminate | right; exact Hchars].
    + cbn [falsy]. unfold name_from_filename. cbn zeta.
      pose proof (filename_base_name_chars fallback) as Hchars.
      destruct (filename_base fallback) as [|c base].
      * split; [discriminate | left; reflexivity].
      * split; [discriminate | right; exact Hchars].
Qed.

End NameFacts.

(* ================================================================== *)
(** * The name read off the file name                                  *)
(* ================================================================== *)

Section FilenameFacts.
Import PyStr Re OsPath CVProcessor Props Facts.

Lemma rfind_absent (c : ascii) (s : str) : ~ In c s -> rfind c s = (-1)%Z.
Proof.
  intros Hout. unfold rfind. rewrite rfind_from_tail.
  apply tail_after_none in Hout. rewrite Hout. reflexivity.
Qed.

Lemma rfind_last (c : ascii) (x t : str) :
  ~ In c t -> rfind c (x ++ c :: t) = Z.of_nat (length x).
Proof.
  intros Hout. unfold rfind. rewrite rfind_from_tail, tail_after_app by exact Hout.
  rewrite length_app. simpl length. lia.
Qed.

(** Stripping the extension: a file name that ends in a dot and an
    extension loses both, if something other than dots precedes them;
    a file name without a dot stays as it is. *)
Lemma splitext_stem (stem ext : str) :
  ~ In "/"%char stem -> ~ In "/"%char ext -> ~ In "."%char ext ->
  existsb (fun c => negb (is_char "." c)) stem = true ->
  splitext (stem ++ "."%char :: ext) = (stem, "."%char :: ext).
Proof.
  intros Hs He Hd Hstem. unfold splitext.
  rewrite (rfind_last "." stem ext Hd).
  rewrite rfind_absent.
  2:{ intros Hin. apply in_app_or in Hin as [Hin | [E | Hin]];
        [apply Hs, Hin | discriminate E | apply He, Hin]. }
  assert ((-1 <? Z.of_nat (length stem))%Z = true) as -> by (apply Z.ltb_lt; lia).
  unfold slice, slice_to, slice_from.
  replace (Z.to_nat (-1 + 1)) with 0 by lia. rewrite Nat2Z.id. cbn [skipn].
  rewrite firstn_app, firstn_all, Nat.sub_diag. cbn [firstn]. rewrite app_nil_r.
  change (skipn 0 stem) with stem. rewrite Hstem. cbn [andb]. f_equal.
  rewrite skipn_app, skipn_all, Nat.sub_diag. reflexivity.
Qed.

Lemma splitext_no_dot (name : str) :
  ~ In "."%char name -> splitext name = (name, []).
Proof.
  intros Hd. unfold splitext. rewrite (rfind_absent "." name Hd).
  assert ((rfind "/" name <? -1)%Z = false) as ->; [|reflexivity].
  apply Z.ltb_ge. unfold rfind. rewrite rfind_from_tail.
  destruct (tail_after "/" name); lia.
Qed.

Lemma squeeze_ext (p q : ascii -> bool) (repl : str) (b : bool) (s : str) :
  (forall c, p c = q c) -> squeeze p repl b s = squeeze q repl b s.
Proof.
  intros Hpq. revert b. induction s as [|c s IH]; intros b; [reflexivity|].
  cbn [squeeze]. rewrite Hpq, !IH. reflexivity.
Qed.

(** The two substitutions of the source do what the steps say. *)
Lemma filename_base_cleaned (fallback : str) :
  filename_base fallback = cleaned (splitext (basename fallback)).1.
Proof.
  unfold filename_base, cleaned, UNDERSCORES, NON_NAME.
  rewrite re_sub_plus, re_sub_class. f_equal.
  rewrite (squeeze_ext (one_of "_-") is_separator).
  2:{ intros c. unfold one_of, is_separator. cbn [py list_ascii_of_string existsb].
      rewrite orb_false_r. reflexivity. }
  induction (squeeze is_separator _ _ _) as [|c s IH]; [reflexivity|].
  cbn [flat_map map]. rewrite IH.
  assert (name_char c = is_name_character c) as ->.
  { unfold name_char, is_name_character, one_of. cbn [py list_ascii_of_string existsb].
    rewrite orb_false_r, !orb_assoc. reflexivity. }
  destruct (is_name_character c); reflexivity.
Qed.

(** Claim C7, amended.  When the text offers no acceptable capitalised
    name segment and no usable span before "Email" or an at sign, the
    name is read off the fallback file name: the base name without its
    extension is taken, every run of underscores and hyphens becomes one
    space, every other character that is no letter, space or apostrophe
    becomes a space, and the blanks at the two ends are dropped.  The
    name is what is left, and it is the placeholder [(Unknown)] exactly
    when nothing is left.  The file name [john_smith_resume.pdf] gives
    [john smith resume]. *)
Theorem name_falls_back_to_filename (text fallback : str) :
  name_from_head text = None -> name_from_context text = None ->
  let name := (extract_contacts text fallback).1.1 in
  let left := cleaned (splitext (basename fallback)).1 in
  (left <> [] -> name = left)
  /\ (name = py "(Unknown)" <-> left = [])
  /\ (forall dir stem ext,
        fallback = dir ++ py "/" ++ stem ++ py "." ++ ext ->
        ~ In "/"%char stem -> ~ In "/"%char ext -> ~ In "."%char ext ->
        existsb (fun c => negb (is_char "." c)) stem = true ->
        left = cleaned stem)
  /\ (~ In "/"%char fallback -> ~ In "."%char fallback -> left = cleaned fallback)
  /\ (extract_contacts text (py "/tmp/ocpro_k3/john_smith_resume.pdf")).1.1
     = py "john smith resume"
  /\ (extract_contacts text (py "john_smith_resume.pdf")).1.1 = py "john smith resume".
Proof.
  intros Ha Hb. cbn zeta.
  rewrite !(extract_contacts_fallback _ _ Ha Hb).
  unfold name_from_filename. rewrite !filename_base_cleaned.
  split; [|split; [|split; [|split; [|split]]]].
  - destruct (cleaned _); [congruence | reflexivity].
  - pose proof (filename_base_name_chars fallback) as Hchars.
    rewrite filename_base_cleaned in Hchars.
    destruct (cleaned _) as [|c base] eqn:E.
    + split; reflexivity.
    + split; [|discriminate]. intros Hname. rewrite Hname in Hchars.
      apply List.Forall_inv in Hchars. vm_compute in Hchars. discriminate Hchars.
  - intros dir stem ext -> Hs He Hd Hstem. f_equal.
    assert (basename (dir ++ py "/" ++ stem ++ py "." ++ ext) = stem ++ "."%char :: ext) as ->.
    { rewrite basename_tail. change (py "/" ++ stem ++ py "." ++ ext)
        with ("/"%char :: (stem ++ "."%char :: ext)).
      rewrite tail_after_app; [reflexivity|].
      intros Hin. apply in_app_or in Hin as [Hin | [E | Hin]];
        [apply Hs, Hin | discriminate E | apply He, Hin]. }
    rewrite splitext_stem by assumption. reflexivity.
  - intros Hs Hd. f_equal. rewrite (basename_plain _ Hs), (splitext_no_dot _ Hd). reflexivity.
  - vm_compute. reflexivity.
  - vm_compute. reflexivity.
Qed.

Lemma name_falls_back_to_filename_witness :
  name_from_head (py "ten years of payroll and ledger work") = None
  /\ name_from_context (py "ten years of payroll and ledger work") = None
  /\ (extract_contacts (py "ten years of payroll and ledger work")
                       (py "/tmp/ocpro_k3/mary-jane__o'neil.v2.pdf")).1.1
     = py "mary jane o'neil v".
Proof.
  split; [reflexivity | split; [reflexivity|]].
  refine (proj1 (name_falls_back_to_filename
                   (py "ten years of payroll and ledger work")
                   (py "/tmp/ocpro_k3/mary-jane__o'neil.v2.pdf") _ _) _).
  - reflexivity.
  - reflexivity.
  - vm_compute. discriminate.
Defined.

(** Claim C7 as worded fails: a character that is no name character is
    not stripped but becomes a space, and a run of underscores becomes
    one space, not one for each. *)
Lemma name_not_as_worded :
  name_from_head (py "ten years of payroll and ledger work") = None
  /\ name_from_context (py "ten years of payroll and ledger work") = None
  /\ (extract_contacts (py "ten years of payroll and ledger work")
                       (py "john2smith.pdf")).1.1 = py "john smith"
  /\ name_as_worded (py "john2smith.pdf") = py "johnsmith"
  /\ (extract_contacts (py "ten years of payroll and ledger work")
                       (py "mary__doe.pdf")).1.1 = py "mary doe"
  /\ name_as_worded (py "mary__doe.pdf") = py "mary  doe"
  /\ (extract_contacts (py "ten years of payroll and ledger work")
                       (py "john2smith.pdf")).1.1
     <> name_as_worded (py "john2smith.pdf").
Proof. repeat split; try (vm_compute; reflexivity). vm_compute. discriminate. Qed.

End FilenameFacts.

(* ================================================================== *)
(** * Further properties of the text extractor                         *)
(* ================================================================== *)

Section NormalFacts.
Import PyStr Re CVProcessor Facts.

Lemma tidy_from_blanks (s : str) (ab : bool) :
  tidy_from ab s = true -> Forall (fun c => isspace c = true -> c = " "%char) s.
Proof.
  revert ab. induction s as [|c s IH]; intros ab H; [constructor|].
  cbn [tidy_from] in H. destruct (isspace c) eqn:Hc.
  - apply andb_true_iff in H as [H1 H3]. apply andb_true_iff in H1 as [_ H2].
    apply Ascii.eqb_eq in H2. constructor; [intros _; symmetry; exact H2 | apply (IH true H3)].
  - constructor; [intros Hc'; congruence | apply (IH false H)].
Qed.

Lemma tidy_from_no_double (s : str) (ab : bool) :
  tidy_from ab s = true -> contains (py "  ") s = false.
Proof.
  revert ab. induction s as [|c s IH]; intros ab H; [reflexivity|].
  cbn [contains]. cbn [tidy_from] in H.
  assert (contains (py "  ") s = false) as ->.
  { destruct (isspace c); [|apply (IH false H)].
    apply andb_true_iff in H as [_ H]. apply (IH true H). }
  rewrite orb_false_r. change (py "  ") with [" "%char; " "%char]. cbn [startswith].
  destruct (Ascii.eqb " " c) eqn:Ec; [|reflexivity].
  apply Ascii.eqb_eq in Ec. subst c. change (isspace " ") with true in H. cbn iota in H.
  apply andb_true_iff in H as [_ H]. destruct s as [|d s]; [reflexivity|].
  cbn [tidy_from] in H. destruct (Ascii.eqb " " d) eqn:Ed; [|reflexivity].
  apply Ascii.eqb_eq in Ed. subst d. change (isspace " ") with true in H. discriminate H.
Qed.

(** What tidy means: trimming changes nothing, every blank is a space,
    and no two spaces follow one another. *)
Lemma tidy_spec (s : str) :
  tidy s = true ->
  strip s = s
  /\ Forall (fun c => isspace c = true -> c = " "%char) s
  /\ contains (py "  ") s = false.
Proof.
  intros H. destruct s as [|c s]; [repeat split; constructor|].
  unfold tidy in H. split; [|split].
  - unfold strip. assert (lstrip (c :: s) = c :: s) as ->.
    { cbn [tidy_from] in H. cbn [lstrip]. destruct (isspace c); [discriminate H | reflexivity]. }
    apply (tidy_rstrip _ true H).
  - apply (tidy_from_blanks _ true H).
  - apply (tidy_from_no_double _ true H).
Qed.

(** Property X4.  The whitespace normal form ([re.sub(r"\s+", " ",
    s).strip()]) is tidy, and normalising a tidy text, or normalising twice,
    changes nothing. *)
Theorem whitespace_normal_form (s : str) :
  let norm := fun x => strip (re_sub WS_RUN (py " ") x) in
  tidy (norm s) = true
  /\ norm (norm s) = norm s
  /\ (tidy s = true -> norm s = s)
  /\ Forall (fun c => isspace c = true -> c = " "%char) (norm s)
  /\ contains (py "  ") (norm s) = false.
Proof.
  cbn zeta. unfold WS_RUN. rewrite !re_sub_plus.
  pose proof (strip_squeeze_tidy s) as Ht.
  split; [exact Ht|]. split; [apply tidy_fixed, Ht|]. split; [apply tidy_fixed|].
  destruct (tidy_spec _ Ht) as (_ & H2 & H3). split; assumption.
Qed.

Lemma body_returns_tidy (env : Env) (path t : str) :
  parse_pdf_body env path = Returned t -> tidy t = true.
Proof.
  unfold parse_pdf_body, WS_RUN. intros H.
  assert (forall x, Returned (strip (re_sub (Plus (Cls isspace)) (py " ") x))
                    = Returned t -> tidy t = true) as Hdone.
  { intros x Hx. injection Hx as <-. rewrite re_sub_plus. apply strip_squeeze_tidy. }
  destruct (HAS_PDFMINER env); [destruct (pdfminer_extract_text env) as [extract|]|].
  - unfold mbind, outcome_bind, mret, outcome_ret in H.
    destruct (extract path) as [found|e]; [|discriminate H]. apply (Hdone _ H).
  - unfold mbind, outcome_bind, mret, outcome_ret in H.
    destruct (read_file env path) as [data|e]; [|discriminate H].
    destruct (negb _); [apply (Hdone _ H)|].
    destruct (flush _ _) as [chars buf]. apply (Hdone _ H).
  - unfold mbind, outcome_bind, mret, outcome_ret in H.
    destruct (read_file env path) as [data|e]; [|discriminate H].
    destruct (negb _); [apply (Hdone _ H)|].
    destruct (flush _ _) as [chars buf]. apply (Hdone _ H).
Qed.

(** Property X5.  Whatever the surrounding and the path, the text
    [parse_pdf] returns is an error text made of the marker and the
    description of what was raised, or is tidy: trimmed, with single spaces
    as its only blanks. *)
Theorem parse_pdf_text_shape (env : Env) (path : str) :
  exists t, parse_pdf env path = Returned t
    /\ ((exists e, parse_pdf_body env path = Raised e /\ t = parse_error_text e)
        \/ (tidy t = true /\ strip t = t
            /\ Forall (fun c => isspace c = true -> c = " "%char) t
            /\ contains (py "  ") t = false
            /\ strip (re_sub WS_RUN (py " ") t) = t)).
Proof.
  rewrite parse_pdf_of_body. destruct (parse_pdf_body env path) as [t|e] eqn:E.
  - exists t. split; [reflexivity|]. right.
    pose proof (body_returns_tidy _ _ _ E) as Ht.
    destruct (tidy_spec _ Ht) as (H1 & H2 & H3).
    repeat split; try assumption.
    unfold WS_RUN. rewrite re_sub_plus. apply tidy_fixed, Ht.
  - exists (parse_error_text e). split; [reflexivity|]. left. exists e. split; reflexivity.
Qed.

End NormalFacts.

(* ================================================================== *)
(** * Further properties of the scorer                                 *)
(* ================================================================== *)

Section RankerMore.
Import PyStr Re Ranker Props Facts.

Lemma lower_char_idem (c : ascii) : lower_char (lower_char c) = lower_char c.
Proof. destruct c as [[] [] [] [] [] [] [] []]; reflexivity. Qed.

Lemma lower_idem (s : str) : lower (lower s) = lower s.
Proof.
  unfold lower. rewrite map_map. apply map_ext. intros c. apply lower_char_idem.
Qed.

(** ** The profile as a dictionary *)

Lemma dict_get_set (d : list (str * Q)) (k k' : str) (v : Q) :
  dict_get (dict_set d k v) k' = if bool_decide (k = k') then Some v else dict_get d k'.
Proof.
  induction d as [|[k0 v0] d IH]; cbn [dict_set dict_get].
  - reflexivity.
  - destruct (bool_decide (k0 = k)) eqn:E0; cbn [dict_get].
    + apply bool_decide_eq_true in E0. subst k0.
      destruct (bool_decide (k = k')); reflexivity.
    + apply bool_decide_eq_false in E0.
      destruct (bool_decide (k0 = k')) eqn:E1; [|exact IH].
      apply bool_decide_eq_true in E1. subst k0.
      rewrite bool_decide_eq_false_2 by congruence. reflexivity.
Qed.

Lemma last_weight_snoc (items : list (str * Q)) (kv : str * Q) (k : str) :
  last_weight (items ++ [kv]) k
  = if bool_decide (lower kv.1 = k) then Some kv.2 else last_weight items k.
Proof.
  unfold last_weight. rewrite List.filter_app. cbn [List.filter].
  destruct (bool_decide (lower kv.1 = k)).
  - rewrite last_snoc. reflexivity.
  - rewrite app_nil_r. reflexivity.
Qed.

Lemma lower_keys_get (items : list (str * Q)) (k : str) :
  dict_get (lower_keys items) k = last_weight items k.
Proof.
  unfold lower_keys. induction items as [|kv items IH] using rev_ind; [reflexivity|].
  rewrite fold_left_app. cbn [fold_left]. rewrite dict_get_set, IH, last_weight_snoc.
  reflexivity.
Qed.

(** Property X6.  The weight a [Ranker] holds for a keyword is the one its
    profile gives last to a keyword of that lowercase spelling, and it holds
    no weight for a keyword the profile does not spell. *)
Theorem init_weight_lookup (items : list (str * Q)) (role k : str) :
  dict_get (keywords (init items role)) k = last_weight items k
  /\ (dict_get (keywords (init items role)) k = None
      <-> forall kv, In kv items -> lower kv.1 <> k)
  /\ NoDup (keywords (init items role)).*1.
Proof.
  split; [apply lower_keys_get|]. split; [|apply init_keywords_NoDup].
  cbn [keywords init]. rewrite lower_keys_get. unfold last_weight.
  rewrite fmap_None, last_None. split.
  - intros Hnil kv Hin Heq.
    assert (In kv (List.filter (fun kv => bool_decide (lower kv.1 = k)) items)) as Hf.
    { apply List.filter_In. split; [exact Hin | apply bool_decide_eq_true, Heq]. }
    rewrite Hnil in Hf. destruct Hf.
  - intros Hnone. destruct (List.filter _ items) as [|kv l] eqn:E; [reflexivity|].
    assert (In kv (List.filter (fun kv => bool_decide (lower kv.1 = k)) items)) as Hf
      by (rewrite E; left; reflexivity).
    apply List.filter_In in Hf as [Hin Hk]. apply bool_decide_eq_true in Hk.
    destruct (Hnone kv Hin Hk).
Qed.

(** ** Letter case *)

Lemma lower_keys_lowered (items d : list (str * Q)) :
  fold_left (fun d kv => dict_set d (lower kv.1) kv.2)
            (map (fun kv => (lower kv.1, kv.2)) items) d
  = fold_left (fun d kv => dict_set d (lower kv.1) kv.2) items d.
Proof.
  revert d. induction items as [|kv items IH]; intros d; [reflexivity|].
  cbn [map fold_left fst snd]. rewrite lower_idem. apply IH.
Qed.

(** Property X7.  Scoring takes no notice of letter case, in the text, in
    the keywords or in the role. *)
Theorem score_ignores_case (items : list (str * Q)) (role text : str) :
  score (init (map (fun kv => (lower kv.1, kv.2)) items) (lower role)) (lower text)
  = score (init items role) text.
Proof.
  unfold init, lower_keys. rewrite lower_keys_lowered, lower_idem.
  unfold score. rewrite lower_idem. reflexivity.
Qed.

(** ** Bounds *)

Lemma diversity_bonus_bounds (t : str) :
  (0 <= diversity_bonus t <= 5)%Q.
Proof.
  unfold diversity_bonus. split.
  - apply Q.min_glb; [|discriminate].
    apply Qle_shift_div_l; [reflexivity|]. rewrite Qmult_0_l. apply of_nat_nonneg.
  - apply Q.le_min_r.
Qed.

Lemma contributions_nonneg (d : list (str * Q)) (t : str) :
  Forall (fun kv => (0 <= kv.2)%Q) d -> (0 <= keyword_contributions d t)%Q.
Proof.
  induction 1 as [|kv d Hkv _ IH]; cbn [keyword_contributions fold_right]; [apply Qle_refl|].
  change 0%Q with (0 + 0)%Q. apply Qplus_le_compat; [|exact IH].
  apply Qmult_le_0_compat; [apply of_nat_nonneg | exact Hkv].
Qed.

Lemma score_value (r : Ranker.t) (text : str) :
  startswith (py "[parse_error]") (lower text) = false ->
  ((score r text).1 == keyword_contributions (keywords r) (lower text)
                       + role_contribution (role r) (lower text)
                       + diversity_bonus (lower text))%Q.
Proof.
  intros Hok. rewrite (score_unfold r text Hok). cbn zeta. cbn [fst snd].
  rewrite add_role_bonus_eq, keyword_loop_total, Qplus_0_l. reflexivity.
Qed.

Lemma score_nonneg (r : Ranker.t) (text : str) :
  Forall (fun kv => (0 <= kv.2)%Q) (keywords r) -> (0 <= (score r text).1)%Q.
Proof.
  intros Hw. destruct (startswith (py "[parse_error]") (lower text)) eqn:Hok.
  - unfold score. rewrite Hok. apply Qle_refl.
  - rewrite (score_value r text Hok).
    destruct (diversity_bonus_bounds (lower text)) as [Hlo _].
    change 0%Q with (0 + 0 + 0)%Q.
    apply Qplus_le_compat; [|exact Hlo].
    apply Qplus_le_compat; [apply contributions_nonneg, Hw|].
    unfold role_contribution. destruct (role r); [apply Qle_refl|].
    apply Qmult_le_0_compat; [discriminate | apply of_nat_nonneg].
Qed.

(** Property X8.  The diversity bonus moves a score by 5 at most, and with
    weights that are not negative no score is negative. *)
Theorem score_bounds (r : Ranker.t) (text : str) :
  let t := lower text in
  let base := (keyword_contributions (keywords r) t + role_contribution (role r) t)%Q in
  (startswith (py "[parse_error]") t = false ->
     (base <= (score r text).1 <= base + 5)%Q)
  /\ (Forall (fun kv => (0 <= kv.2)%Q) (keywords r) -> (0 <= (score r text).1)%Q).
Proof.
  cbn zeta. split; [|apply score_nonneg].
  intros Hok. rewrite (score_value r text Hok).
  destruct (diversity_bonus_bounds (lower text)) as [Hlo Hhi]. split.
  - rewrite <- (Qplus_0_r (_ + _)) at 1. apply Qplus_le_compat; [apply Qle_refl | exact Hlo].
  - apply Qplus_le_compat; [apply Qle_refl | exact Hhi].
Qed.

End RankerMore.

(* ================================================================== *)
(** * Properties of the keyword field                                  *)
(* ================================================================== *)

Section KeywordField.
Import PyStr Re CVProcessor Ranker Screen Props Facts.

Lemma dict_set_Forall (P : str * Q -> Prop) (d : list (str * Q)) (k : str) (v : Q) :
  Forall P d -> P (k, v) -> Forall P (dict_set d k v).
Proof.
  intros Hd Hkv. induction Hd as [|[k0 v0] d H0 Hd IH]; cbn [dict_set].
  - repeat constructor. exact Hkv.
  - case_bool_decide as E.
    + subst k0. constructor; [exact Hkv | assumption].
    + constructor; assumption.
Qed.

Lemma dict_set_fresh (d : list (str * Q)) (k : str) (v : Q) :
  k ∉ d.*1 -> dict_set d k v = d ++ [(k, v)].
Proof.
  induction d as [|[k0 v0] d IH]; intros Hk; [reflexivity|].
  cbn [dict_set]. cbn in Hk. apply not_elem_of_cons in Hk as [Hne Hk].
  rewrite bool_decide_eq_false_2 by congruence. rewrite IH by exact Hk. reflexivity.
Qed.

(** A dictionary with lowercase keys comes out of the comprehension of
    [Ranker.__init__] as it went in. *)
Lemma lower_keys_acc_fixed (d acc : list (str * Q)) :
  NoDup (acc ++ d).*1 -> Forall (fun kv => lower kv.1 = kv.1) d ->
  fold_left (fun d kv => dict_set d (lower kv.1) kv.2) d acc = acc ++ d.
Proof.
  revert acc. induction d as [|[k v] d IH]; intros acc Hnd Hlow.
  - rewrite app_nil_r. reflexivity.
  - apply Forall_cons in Hlow as [Hk Hlow]. cbn [fold_left fst snd] in *. rewrite Hk.
    assert (k ∉ acc.*1) as Hfresh.
    { rewrite fmap_app in Hnd. apply NoDup_app in Hnd as (_ & Hdis & _).
      intros Hin. apply (Hdis k Hin). cbn. apply elem_of_cons. left. reflexivity. }
    rewrite dict_set_fresh by exact Hfresh.
    rewrite IH; [rewrite <- app_assoc; reflexivity | | exact Hlow].
    rewrite <- app_assoc. exact Hnd.
Qed.

Lemma lower_keys_fixed (d : list (str * Q)) :
  NoDup d.*1 -> Forall (fun kv => lower kv.1 = kv.1) d -> lower_keys d = d.
Proof. intros Hnd Hlow. apply (lower_keys_acc_fixed d []); assumption. Qed.

Lemma keyword_token_profile (w : World) (kw : list (str * Q)) (token : str) :
  field_profile w kw -> field_profile w (keyword_token w kw token).
Proof.
  intros (Hnd & Hlow & Hw). unfold keyword_token.
  destruct (strip token) as [|c tok] eqn:Et; [exact (conj Hnd (conj Hlow Hw))|].
  destruct (contains (py ":") (c :: tok)).
  - destruct (cut_at ":" (c :: tok)) as [k v].
    split; [|split].
    + apply dict_set_NoDup, Hnd.
    + apply dict_set_Forall; [exact Hlow | apply lower_idem].
    + apply dict_set_Forall; [exact Hw|]. cbn [snd].
      destruct (float w (strip v)) as [x|] eqn:Ef; [right; exists (strip v); exact Ef | left; reflexivity].
  - split; [|split].
    + apply dict_set_NoDup, Hnd.
    + apply dict_set_Forall; [exact Hlow | apply lower_idem].
    + apply dict_set_Forall; [exact Hw | left; reflexivity].
Qed.

Lemma parse_keywords_field_profile (w : World) (raw : str) :
  field_profile w (parse_keywords w raw).
Proof.
  unfold parse_keywords.
  assert (field_profile w []) as H0 by (split; [constructor | split; constructor]).
  revert H0. generalize (@nil (str * Q)). induction (split (py ",") raw) as [|tok toks IH];
    intros kw Hkw; [exact Hkw|].
  cbn [fold_left]. apply IH, keyword_token_profile, Hkw.
Qed.

Lemma contains_char_In (c : ascii) (s : str) : contains [c] s = true -> In c s.
Proof.
  induction s as [|x s IH]; cbn [contains startswith]; [discriminate|].
  rewrite andb_true_r. destruct (Ascii.eqb c x) eqn:E.
  - intros _. left. symmetry. apply Ascii.eqb_eq, E.
  - cbn [orb]. intros H. right. apply IH, H.
Qed.

Lemma keyword_token_plain (w : World) (kw : list (str * Q)) (token : str) :
  Forall (fun c => c <> ":"%char) token ->
  Forall (fun kv => kv.2 = 1%Q) kw ->
  Forall (fun kv => kv.2 = 1%Q) (keyword_token w kw token).
Proof.
  intros Htok Hkw. unfold keyword_token.
  pose proof (strip_Forall _ _ Htok) as Hs.
  destruct (strip token) as [|c tok] eqn:Et; [exact Hkw|].
  destruct (contains (py ":") (c :: tok)) eqn:Ec.
  - apply (contains_char_In ":") in Ec.
    apply Forall_forall with (x := ":"%char) in Hs; [contradiction Hs; reflexivity|].
    apply list_elem_of_In, Ec.
  - apply dict_set_Forall; [exact Hkw | reflexivity].
Qed.

(** Property X9.  The profile read from the keyword field has each keyword
    once and in lower case, so that [Ranker.__init__] keeps it as it is;
    every weight is 1 or a number that [float] reads; a field without colon
    gives weight 1 throughout, and an empty field the empty profile. *)
Theorem parse_keywords_profile (w : World) (raw role : str) :
  let kw := parse_keywords w raw in
  NoDup kw.*1
  /\ Forall (fun kv => lower kv.1 = kv.1) kw
  /\ Forall (fun kv => kv.2 = 1%Q \/ exists s, float w s = Some kv.2) kw
  /\ keywords (init kw role) = kw
  /\ (~ In ":"%char raw -> Forall (fun kv => kv.2 = 1%Q) kw)
  /\ parse_keywords w [] = [].
Proof.
  cbn zeta. destruct (parse_keywords_field_profile w raw) as (Hnd & Hlow & Hw).
  split; [exact Hnd|]. split; [exact Hlow|]. split; [exact Hw|].
  split; [apply lower_keys_fixed; assumption|]. split; [|reflexivity].
  intros Hraw. unfold parse_keywords.
  assert (Forall (Forall (fun c => c <> ":"%char)) (split (py ",") raw)) as Htoks.
  { apply split_from_Forall; [constructor|].
    apply Forall_forall. intros c Hc ->. apply Hraw, list_elem_of_In, Hc. }
  assert (Forall (fun kv : str * Q => kv.2 = 1%Q) []) as H0 by constructor.
  revert H0. generalize (@nil (str * Q)).
  induction Htoks as [|tok toks Htok _ IH]; intros kw Hkw; [exact Hkw|].
  cbn [fold_left]. apply IH, keyword_token_plain; assumption.
Qed.

End KeywordField.

(* ================================================================== *)
(** * Properties of [list.sort] by a key                               *)
(* ================================================================== *)

Section SortFacts.
Import Screen Facts.
Context {A K : Type} (lt : K -> K -> bool) (key : A -> K) (reverse : bool).

(** The order on the keys is strict, and its converse is transitive. *)
Hypothesis lt_asym : forall a b, lt a b = true -> lt b a = false.
Hypothesis ge_trans : forall a b c, lt a b = false -> lt b c = false -> lt a c = false.

Lemma follow_asym (x y : A) :
  must_follow lt key reverse x y = true -> must_follow lt key reverse y x = false.
Proof using lt_asym. unfold must_follow. destruct reverse; apply lt_asym. Qed.

Lemma follow_trans (x y z : A) :
  must_follow lt key reverse y x = false -> must_follow lt key reverse z y = false ->
  must_follow lt key reverse z x = false.
Proof using ge_trans.
  unfold must_follow. destruct reverse; intros H1 H2; eapply ge_trans; eassumption.
Qed.

Lemma insert_sorted_perm (x : A) (l : list A) :
  Permutation (insert_sorted lt key reverse x l) (x :: l).
Proof using Type.
  induction l as [|y l IH]; cbn [insert_sorted]; [reflexivity|].
  destruct (must_follow lt key reverse x y); [|reflexivity].
  rewrite IH. apply perm_swap.
Qed.

Lemma sort_by_perm (l : list A) : Permutation (sort_by lt key reverse l) l.
Proof using Type.
  induction l as [|x l IH]; cbn [sort_by fold_right]; [reflexivity|].
  rewrite insert_sorted_perm. fold (sort_by lt key reverse l). rewrite IH. reflexivity.
Qed.

Lemma insert_sorted_sorted (x : A) (l : list A) :
  StronglySorted (fun a b => must_follow lt key reverse a b = false) l ->
  StronglySorted (fun a b => must_follow lt key reverse a b = false)
                 (insert_sorted lt key reverse x l).
Proof using lt_asym ge_trans.
  induction l as [|y l IH]; intros Hs; cbn [insert_sorted].
  - constructor; constructor.
  - apply StronglySorted_inv in Hs as [Hl Hy].
    destruct (must_follow lt key reverse x y) eqn:E.
    + constructor; [apply IH, Hl|].
      rewrite insert_sorted_perm. constructor; [|exact Hy].
      apply follow_asym, E.
    + constructor; [constructor; assumption|].
      constructor; [exact E|].
      eapply List.Forall_impl; [|exact Hy]. intros z Hz. cbn beta in *.
      eapply follow_trans; eassumption.
Qed.

Lemma sort_by_sorted (l : list A) :
  StronglySorted (fun a b => must_follow lt key reverse a b = false)
                 (sort_by lt key reverse l).
Proof using lt_asym ge_trans.
  induction l as [|x l IH]; cbn [sort_by fold_right]; [constructor|].
  apply insert_sorted_sorted, IH.
Qed.

(** Inserting never carries an element past one of the same key. *)
Lemma insert_sorted_same_key (c0 x : A) (l : list A) :
  same_key (must_follow lt key reverse) c0 (insert_sorted lt key reverse x l)
  = same_key (must_follow lt key reverse) c0 (x :: l).
Proof using ge_trans.
  induction l as [|y l IH]; [reflexivity|].
  cbn [insert_sorted]. destruct (must_follow lt key reverse x y) eqn:E; [|reflexivity].
  unfold same_key in *. cbn [List.filter] in *. rewrite IH.
  destruct (must_follow lt key reverse c0 x) eqn:E1; cbn [negb andb];
    [destruct (negb (must_follow lt key reverse c0 y) && negb (must_follow lt key reverse y c0));
       reflexivity|].
  destruct (must_follow lt key reverse x c0) eqn:E2; cbn [negb andb];
    [destruct (negb (must_follow lt key reverse c0 y) && negb (must_follow lt key reverse y c0));
       reflexivity|].
  destruct (must_follow lt key reverse c0 y) eqn:E3; cbn [negb andb]; [reflexivity|].
  (* [x] does not follow [c0], which does not follow [y]: [x] does not follow [y] *)
  rewrite (follow_trans y c0 x E3 E2) in E. discriminate.
Qed.

Lemma sort_by_same_key (c0 : A) (l : list A) :
  same_key (must_follow lt key reverse) c0 (sort_by lt key reverse l)
  = same_key (must_follow lt key reverse) c0 l.
Proof using ge_trans.
  induction l as [|x l IH]; [reflexivity|].
  cbn [sort_by fold_right]. rewrite insert_sorted_same_key.
  unfold same_key in *. cbn [List.filter]. fold (sort_by lt key reverse l).
  rewrite IH. reflexivity.
Qed.

(** Sorting a list that is in order changes nothing. *)
Lemma sort_by_sorted_id (l : list A) :
  StronglySorted (fun a b => must_follow lt key reverse a b = false) l ->
  sort_by lt key reverse l = l.
Proof using Type.
  induction l as [|x l IH]; intros Hs; [reflexivity|].
  apply StronglySorted_inv in Hs as [Hl Hx].
  cbn [sort_by fold_right]. fold (sort_by lt key reverse l).
  rewrite (IH Hl). destruct l as [|y l]; [reflexivity|].
  cbn [insert_sorted]. apply List.Forall_inv in Hx. rewrite Hx. reflexivity.
Qed.

End SortFacts.

(* ================================================================== *)
(** * Properties of the table: sorting, ranking and filtering          *)
(* ================================================================== *)

Section TableFacts.
Import PyStr CVProcessor Screen Facts Props.

Lemma str_lt_asym (a b : str) : str_lt a b = true -> str_lt b a = false.
Proof.
  revert b. induction a as [|x a IH]; intros [|y b] H; cbn [str_lt] in *;
    try reflexivity; try discriminate.
  apply orb_true_iff in H. apply orb_false_iff.
  destruct H as [H | H].
  - apply Nat.ltb_lt in H. split; [apply Nat.ltb_ge; lia|].
    apply andb_false_iff. left. apply Nat.eqb_neq. lia.
  - apply andb_true_iff in H as [H1 H2]. apply Nat.eqb_eq in H1.
    split; [apply Nat.ltb_ge; lia|]. apply andb_false_iff. right. apply IH, H2.
Qed.

Lemma str_ge_trans (a b c : str) :
  str_lt a b = false -> str_lt b c = false -> str_lt a c = false.
Proof.
  revert b c. induction a as [|x a IH]; intros [|y b] [|z c] H1 H2;
    cbn [str_lt] in *; try reflexivity; try discriminate.
  apply orb_false_iff in H1 as [H1 H1']. apply orb_false_iff in H2 as [H2 H2'].
  apply Nat.ltb_ge in H1, H2. apply orb_false_iff. split; [apply Nat.ltb_ge; lia|].
  destruct (ord x =? ord z) eqn:E; [|reflexivity]. apply Nat.eqb_eq in E.
  cbn [andb]. assert (ord x = ord y) as Exy by lia. assert (ord y = ord z) as Eyz by lia.
  apply Nat.eqb_eq in Exy, Eyz. rewrite Exy in H1'. rewrite Eyz in H2'.
  cbn [andb] in *. eapply IH; eassumption.
Qed.

Lemma Qlt_bool_asym (a b : Q) : Qlt_bool a b = true -> Qlt_bool b a = false.
Proof.
  unfold Qlt_bool. intros H. apply negb_true_iff in H. apply negb_false_iff.
  apply Qle_bool_iff. destruct (Qlt_le_dec b a) as [Hlt | Hle].
  - apply Qlt_le_weak in Hlt. apply Qle_bool_iff in Hlt. congruence.
  - pose proof (Qle_bool_iff b a). 
    destruct (Qle_bool b a) eqn:E; [discriminate|].
    apply Qnot_lt_le. intros Hlt. apply Qlt_le_weak in Hlt.
    apply H0 in Hlt. discriminate.
Qed.

Lemma Qge_bool_trans (a b c : Q) :
  Qlt_bool a b = false -> Qlt_bool b c = false -> Qlt_bool a c = false.
Proof.
  unfold Qlt_bool. intros H1 H2. apply negb_false_iff in H1, H2. apply negb_false_iff.
  apply Qle_bool_iff in H1, H2. apply Qle_bool_iff. eapply Qle_trans; eassumption.
Qed.

Lemma column_sort (col : column) (st : state) :
  exists (K : Type) (lt : K -> K -> bool) (key : Candidate.t -> K) (reverse : bool),
    (forall a b, lt a b = true -> lt b a = false)
    /\ (forall a b c, lt a b = false -> lt b c = false -> lt a c = false)
    /\ column_follow col = must_follow lt key reverse
    /\ filtered (_sort_by col st) = sort_by lt key reverse (filtered st).
Proof.
  destruct col.
  - exists str, str_lt, (fun c => lower (Candidate.name c)), false.
    split; [exact str_lt_asym|]. split; [exact str_ge_trans|]. split; reflexivity.
  - exists str, str_lt, (fun c => lower (default [] (Candidate.email c))), false.
    split; [exact str_lt_asym|]. split; [exact str_ge_trans|]. split; reflexivity.
  - exists str, str_lt, (fun c => default [] (Candidate.phone c)), false.
    split; [exact str_lt_asym|]. split; [exact str_ge_trans|]. split; reflexivity.
  - exists Q, Qlt_bool, Candidate.score, true.
    split; [exact Qlt_bool_asym|]. split; [exact Qge_bool_trans|]. split; reflexivity.
  - exists str, str_lt, (fun c => lower (OsPath.basename (Candidate.path c))), false.
    split; [exact str_lt_asym|]. split; [exact str_ge_trans|]. split; reflexivity.
Qed.

(** Property X10.  A click on a column heading, [_sort_by], permutes the
    rows of the table into the order of that column (ascending, the score
    descending); rows of equal key keep their order, a second click changes
    nothing more, and the candidates and the queue are left as they are. *)
Theorem sort_by_column (col : column) (st : state) :
  Permutation (filtered (_sort_by col st)) (filtered st)
  /\ StronglySorted (fun a b => column_follow col a b = false) (filtered (_sort_by col st))
  /\ (forall c0, same_key (column_follow col) c0 (filtered (_sort_by col st))
                 = same_key (column_follow col) c0 (filtered st))
  /\ _sort_by col (_sort_by col st) = _sort_by col st
  /\ candidates (_sort_by col st) = candidates st
  /\ file_queue (_sort_by col st) = file_queue st.
Proof.
  destruct (column_sort col st) as (K & lt & key & reverse & Ha & Ht & Hf & Hs).
  assert (_sort_by col (_sort_by col st) = _sort_by col st) as Hidem.
  { destruct (column_sort col (_sort_by col st))
      as (K' & lt' & key' & reverse' & Ha' & Ht' & Hf' & Hs').
    assert (filtered (_sort_by col (_sort_by col st)) = filtered (_sort_by col st)) as E.
    { rewrite Hs'. apply sort_by_sorted_id. rewrite <- Hf', Hf, Hs.
      apply sort_by_sorted; assumption. }
    clear - E. destruct col; unfold _sort_by, set_lists in *; cbn in *;
      rewrite E; reflexivity. }
  rewrite Hs, Hf.
  split; [apply sort_by_perm|].
  split; [apply sort_by_sorted; assumption|].
  split; [intros c0; apply sort_by_same_key; assumption|].
  split; [exact Hidem|].
  split; destruct col; reflexivity.
Qed.

End TableFacts.

(* ================================================================== *)
(** * Properties of the table over floats                              *)
(* ================================================================== *)

Section FloatTable.
Import PyStr FloatCTkApp FloatProps.

Lemma filter_descending_f (f : FloatCandidate.t -> bool) (l : list FloatCandidate.t) :
  descending l -> descending (List.filter f l).
Proof.
  unfold descending. induction l as [|c l IH]; intros Hs; [constructor|].
  apply StronglySorted_inv in Hs as [Hl Hc]. cbn [List.filter].
  destruct (f c); [|apply IH, Hl].
  constructor; [apply IH, Hl|].
  apply List.Forall_forall. intros d Hd. apply List.filter_In in Hd as [Hd _].
  rewrite List.Forall_forall in Hc. apply Hc, Hd.
Qed.

Lemma filter_no_nan (f : FloatCandidate.t -> bool) (l : list FloatCandidate.t) :
  no_nan l -> no_nan (List.filter f l).
Proof.
  unfold no_nan. intros H. apply List.Forall_forall. intros c Hc.
  apply List.filter_In in Hc as [Hc _]. rewrite List.Forall_forall in H. apply H, Hc.
Qed.

(** Property X11.  [rank_now] on a window that holds candidates none of
    which comes to score NaN: the rows of the table are the ranked
    candidates that pass the filters, they stand by descending score,
    the candidate then previewed is a row of the highest score, a click
    on the score heading would change nothing, and the queue is not
    touched. *)
Theorem rank_now_table (w : World) (st : state) :
  candidates st <> [] ->
  no_nan (map (rescore (FloatRanker.init (parse_keywords w (kw_var st)) (job_title st)))
              (candidates st)) ->
  filtered (rank_now w st)
  = filter_candidates w (search_var st) (min_score_var st) (candidates (rank_now w st))
  /\ descending (filtered (rank_now w st))
  /\ (forall c, previewed (rank_now w st) = Some c ->
        In c (candidates (rank_now w st))
        /\ forall d, In d (filtered (rank_now w st)) ->
             PyFloat.le (FloatCandidate.score d) (FloatCandidate.score c) = true)
  /\ _sort_by Screen.col_score (rank_now w st) = rank_now w st
  /\ file_queue (rank_now w st) = file_queue st.
Proof.
  intros Hne Hn. unfold rank_now.
  destruct (candidates st) as [|c0 cs] eqn:Ec; [contradiction|]. rewrite <- Ec in *. clear Ec Hne.
  set (r := FloatRanker.init (parse_keywords w (kw_var st)) (job_title st)) in *.
  set (ranked := rank_candidates (parse_keywords w (kw_var st)) (job_title st) (candidates st)).
  assert (descending ranked /\ no_nan ranked) as [Hdesc Hnn].
  { subst ranked. rewrite rank_candidates_eq. fold r. split.
    - apply sort_by_score, Hn.
    - apply (no_nan_perm (map (rescore r) (candidates st))); [symmetry; apply list_sort_perm | exact Hn]. }
  unfold apply_filters, set_lists.
  cbn [filtered candidates file_queue search_var min_score_var].
  split; [reflexivity|].
  assert (descending (filter_candidates w (search_var st) (min_score_var st) ranked)) as Hf
    by (apply filter_descending_f, Hdesc).
  assert (no_nan (filter_candidates w (search_var st) (min_score_var st) ranked)) as Hfn
    by (apply filter_no_nan, Hnn).
  split; [exact Hf|]. split; [|split; [|reflexivity]].
  - unfold previewed. cbn [filtered]. intros c Hc.
    destruct (filter_candidates w (search_var st) (min_score_var st) ranked)
      as [|row rows] eqn:Er; [discriminate|].
    cbn [head] in Hc. injection Hc as ->.
    split.
    + assert (In c (filter_candidates w (search_var st) (min_score_var st) ranked)) as Hin
        by (rewrite Er; left; reflexivity).
      apply List.filter_In in Hin as [Hin _]. exact Hin.
    + intros d [<- | Hd].
      * apply float_le_refl. apply List.Forall_inv in Hfn. exact Hfn.
      * apply StronglySorted_inv in Hf as [_ Hall].
        rewrite List.Forall_forall in Hall. apply Hall, Hd.
  - unfold _sort_by, set_lists.
    cbn [filtered candidates file_queue search_var min_score_var kw_var job_title].
    rewrite (sort_by_score_id _ Hfn Hf). reflexivity.
Qed.

Lemma rank_now_table_witness :
  candidates (desk "cd:1, ab:2") <> []
  /\ map FloatCandidate.name (filtered (rank_now nan_world (desk "cd:1, ab:2")))
     = [py "Y"; py "Z"; py "X"]
  /\ descending (filtered (rank_now nan_world (desk "cd:1, ab:2"))).
Proof.
  assert (candidates (desk "cd:1, ab:2") <> []) as H1 by discriminate.
  assert (no_nan (map (rescore (FloatRanker.init
                                  (parse_keywords nan_world (kw_var (desk "cd:1, ab:2")))
                                  (job_title (desk "cd:1, ab:2"))))
                      (candidates (desk "cd:1, ab:2")))) as H2.
  { vm_compute. repeat constructor. }
  split; [exact H1|]. split; [vm_compute; reflexivity|].
  exact (proj1 (proj2 (rank_now_table nan_world (desk "cd:1, ab:2") H1 H2))).
Defined.

(** With the weight NaN in the keyword field the second candidate scores
    NaN and is no row of the table, whatever the minimum score; the
    ranking pass leaves the other two in the order they had, the lower
    score first, and the first of them is previewed. *)
Example rank_now_table_with_nan :
  map FloatCandidate.name (candidates (rank_now nan_world (desk "ab:nan, cd:1")))
  = [py "X"; py "Y"; py "Z"]
  /\ map FloatCandidate.name (filtered (rank_now nan_world (desk "ab:nan, cd:1")))
     = [py "X"; py "Z"]
  /\ FloatCandidate.name <$> previewed (rank_now nan_world (desk "ab:nan, cd:1"))
     = Some (py "X")
  /\ ~ descending (filtered (rank_now nan_world (desk "ab:nan, cd:1"))).
Proof.
  split; [vm_compute; reflexivity|]. split; [vm_compute; reflexivity|].
  split; [vm_compute; reflexivity|].
  intros H. unfold descending in H. apply StronglySorted_inv in H as [_ H].
  apply List.Forall_inv in H. vm_compute in H. discriminate H.
Qed.

(** ** Weights that are not negative *)

Lemma at_least_zero_add (x y : PyFloat.t) :
  at_least_zero x -> at_least_zero y -> at_least_zero (PyFloat.add x y).
Proof.
  unfold at_least_zero.
  destruct x as [a| | |], y as [b| | |]; cbn; intros Hx Hy; try discriminate; try reflexivity.
  apply Qle_bool_iff in Hx, Hy. apply Qle_bool_iff.
  change 0%Q with (0 + 0)%Q. apply Qplus_le_compat; assumption.
Qed.

Lemma at_least_zero_times (n : nat) (x : PyFloat.t) :
  0 < n -> at_least_zero x ->
  at_least_zero (PyFloat.mul (PyFloat.Num (Ranker.of_nat n)) x).
Proof.
  unfold at_least_zero. intros Hn.
  destruct x as [a| | |]; cbn; intros Hx; try discriminate.
  - apply Qle_bool_iff in Hx. apply Qle_bool_iff.
    apply Qmult_le_0_compat; [apply of_nat_nonneg | exact Hx].
  - unfold PyFloat.scale.
    assert ((Ranker.of_nat n ?= 0)%Q = Gt) as ->; [|reflexivity].
    apply Qgt_alt. apply of_nat_pos. exact Hn.
Qed.

Lemma dict_set_Forall_f (Q0 : str * PyFloat.t -> Prop) (d : list (str * PyFloat.t))
  (k : str) (v : PyFloat.t) :
  List.Forall Q0 d -> Q0 (k, v) -> List.Forall Q0 (FloatRanker.dict_set d k v).
Proof.
  intros Hd Hkv. induction Hd as [|[k0 v0] d H0 Hd IH]; cbn [FloatRanker.dict_set].
  - constructor; [exact Hkv | constructor].
  - case_bool_decide as E.
    + subst k0. constructor; [exact Hkv | exact Hd].
    + constructor; assumption.
Qed.

Lemma lower_keys_weights (Q0 : PyFloat.t -> Prop) (items : list (str * PyFloat.t)) :
  List.Forall (fun kv => Q0 kv.2) items ->
  List.Forall (fun kv => Q0 kv.2) (FloatRanker.lower_keys items).
Proof.
  unfold FloatRanker.lower_keys. intros H.
  assert (List.Forall (fun kv : str * PyFloat.t => Q0 kv.2) []) as H0 by constructor.
  revert H0. generalize (@nil (str * PyFloat.t)).
  induction H as [|kv items Hkv _ IH]; intros d Hd; [exact Hd|].
  cbn [fold_left]. apply IH. apply dict_set_Forall_f; [exact Hd | exact Hkv].
Qed.

Lemma keyword_loop_at_least_zero (t : str) (kws : list (str * PyFloat.t))
  (total : PyFloat.t) (matched : gmap str PyFloat.t) :
  List.Forall (fun kv => at_least_zero kv.2) kws -> at_least_zero total ->
  at_least_zero (fold_left (FloatRanker.keyword_step t) kws (total, matched)).1.
Proof.
  intros H. revert total matched.
  induction H as [|[k wt] kws Hkv _ IH]; intros total matched Ht; [exact Ht|].
  cbn [fold_left]. unfold FloatRanker.keyword_step at 2.
  destruct (count k t =? 0) eqn:E; cbn [negb]; [apply IH, Ht|].
  apply IH. apply at_least_zero_add; [exact Ht|].
  apply at_least_zero_times; [|exact Hkv]. apply Nat.eqb_neq in E. lia.
Qed.

Lemma score_at_least_zero (r : FloatRanker.t) (text : str) :
  List.Forall (fun kv => at_least_zero kv.2) (FloatRanker.keywords r) ->
  at_least_zero (FloatRanker.score r text).1.
Proof.
  intros Hw. unfold FloatRanker.score.
  destruct (startswith (py "[parse_error]") (lower text)); [reflexivity|].
  pose proof (keyword_loop_at_least_zero (lower text) _ (PyFloat.Num 0) ∅ Hw eq_refl) as H.
  destruct (fold_left _ _ _) as [total matched]. cbn [fst] in *.
  apply at_least_zero_add.
  - unfold FloatRanker.add_role_bonus. destruct (FloatRanker.role r); [exact H|].
    apply at_least_zero_add; [exact H|]. unfold at_least_zero. cbn.
    apply Qle_bool_iff. apply Qmult_le_0_compat; [discriminate | apply of_nat_nonneg].
  - unfold at_least_zero. cbn. apply Qle_bool_iff.
    unfold Ranker.diversity_bonus. apply Q.min_glb; [|discriminate].
    apply Qle_shift_div_l; [reflexivity|]. rewrite Qmult_0_l. apply of_nat_nonneg.
Qed.

Lemma filter_all_f (f : FloatCandidate.t -> bool) (l : list FloatCandidate.t) :
  (forall c, In c l -> f c = true) -> List.filter f l = l.
Proof.
  induction l as [|c l IH]; intros H; [reflexivity|].
  cbn [List.filter]. rewrite (H c (or_introl eq_refl)). f_equal.
  apply IH. intros d Hd. apply H. right. exact Hd.
Qed.

(** Property X12.  Nothing is hidden without a reason.  When every
    keyword weight is at least 0 (which NaN is not), the search field is
    blank and the minimum score is at most 0 (which NaN is not), the
    table after [rank_now] shows every candidate: its rows are the
    ranked candidates, and these are the candidates there were, each
    with the name, address, phone, path and text it had. *)
Theorem rank_now_shows_all (w : World) (st : state) :
  candidates st <> [] ->
  List.Forall (fun kv => PyFloat.le (PyFloat.Num 0) kv.2 = true) (parse_keywords w (kw_var st)) ->
  strip (lower (search_var st)) = [] ->
  PyFloat.le (min_score w (min_score_var st)) (PyFloat.Num 0) = true ->
  filtered (rank_now w st) = candidates (rank_now w st)
  /\ Permutation (map identity_fields (filtered (rank_now w st)))
                 (map identity_fields (candidates st)).
Proof.
  intros Hne Hw Hq Hmin. unfold rank_now.
  destruct (candidates st) as [|c0 cs] eqn:Ec; [contradiction|]. rewrite <- Ec. clear Ec Hne.
  unfold apply_filters, set_lists.
  cbn [filtered candidates file_queue search_var min_score_var].
  set (r := FloatRanker.init (parse_keywords w (kw_var st)) (job_title st)).
  rewrite rank_candidates_eq. fold r.
  set (ranked := PyList.sort PyFloat.lt FloatCandidate.score true
                             (map (rescore r) (candidates st))).
  assert (filter_candidates w (search_var st) (min_score_var st) ranked = ranked) as Eall.
  { unfold filter_candidates. apply filter_all_f. intros c Hc.
    apply (Permutation_in _ (list_sort_perm _ _ _ _)) in Hc.
    apply List.in_map_iff in Hc as (c1 & <- & _).
    unfold shown. rewrite Hq, bool_decide_eq_true_2 by reflexivity. cbn [orb].
    rewrite andb_true_r. eapply float_le_trans; [exact Hmin|].
    pose proof (rescore_result_f r c1) as E. apply (f_equal fst) in E. cbn [fst] in E.
    rewrite E. apply score_at_least_zero. subst r. cbn [FloatRanker.keywords FloatRanker.init].
    apply (lower_keys_weights at_least_zero), Hw. }
  rewrite Eall. split; [reflexivity|].
  subst ranked. rewrite (Permutation_map identity_fields (list_sort_perm _ _ _ _)).
  rewrite List.map_map.
  erewrite List.map_ext; [reflexivity|]. intros c. apply rescore_identity_f.
Qed.

Lemma rank_now_shows_all_witness :
  candidates (desk "cd:1, ab:2") <> []
  /\ map FloatCandidate.name (filtered (rank_now nan_world (desk "cd:1, ab:2")))
     = [py "Y"; py "Z"; py "X"]
  /\ filtered (rank_now nan_world (desk "cd:1, ab:2"))
     = candidates (rank_now nan_world (desk "cd:1, ab:2")).
Proof.
  assert (candidates (desk "cd:1, ab:2") <> []) as H1 by discriminate.
  assert (List.Forall (fun kv => PyFloat.le (PyFloat.Num 0) kv.2 = true)
                      (parse_keywords nan_world (kw_var (desk "cd:1, ab:2")))) as H2.
  { vm_compute. repeat constructor. }
  split; [exact H1|]. split; [vm_compute; reflexivity|].
  refine (proj1 (rank_now_shows_all nan_world (desk "cd:1, ab:2") H1 H2 _ _));
    vm_compute; reflexivity.
Defined.

End FloatTable.

(* ================================================================== *)
(** * Properties of the queue and of the loader                        *)
(* ================================================================== *)

Section QueueFacts.
Import PyStr CVProcessor Screen Facts Props.

Lemma enqueue_fold_app (new queue : list str) :
  exists more, fold_left enqueue new queue = queue ++ more
               /\ List.Forall (fun p => In p new /\ ~ In p queue) more.
Proof.
  revert queue. induction new as [|p new IH]; intros queue; cbn [fold_left].
  - exists []. rewrite app_nil_r. split; [reflexivity | constructor].
  - unfold enqueue at 2. case_bool_decide as Hin.
    + destruct (IH queue) as (more & E & Hall). exists more. split; [exact E|].
      eapply List.Forall_impl; [|exact Hall]. intros q [Hq Hn]. split; [right; exact Hq | exact Hn].
    + destruct (IH (queue ++ [p])) as (more & E & Hall). exists (p :: more).
      rewrite E, <- app_assoc. split; [reflexivity|].
      constructor.
      * split; [left; reflexivity|]. intros H. apply Hin. apply list_elem_of_In, H.
      * eapply List.Forall_impl; [|exact Hall]. intros q [Hq Hn].
        split; [right; exact Hq|]. intros H. apply Hn, in_or_app. left. exact H.
Qed.

Lemma enqueue_fold_NoDup (new queue : list str) :
  List.NoDup queue -> List.NoDup (fold_left enqueue new queue).
Proof.
  revert queue. induction new as [|p new IH]; intros queue Hnd; cbn [fold_left]; [exact Hnd|].
  apply IH. unfold enqueue. case_bool_decide as Hin; [exact Hnd|].
  apply NoDup_ListNoDup. apply NoDup_app. split; [apply NoDup_ListNoDup, Hnd|].
  split; [|apply NoDup_singleton].
  intros x Hx Hx'. apply list_elem_of_singleton in Hx'. subst x. contradiction.
Qed.

Lemma enqueue_fold_In (new queue : list str) (p : str) :
  In p new \/ In p queue -> In p (fold_left enqueue new queue).
Proof.
  revert queue. induction new as [|q new IH]; intros queue H; cbn [fold_left].
  - destruct H as [[]|H]; exact H.
  - apply IH. destruct H as [[<- | H] | H].
    + right. unfold enqueue. case_bool_decide as Hin.
      * apply list_elem_of_In, Hin.
      * apply in_or_app. right. left. reflexivity.
    + left. exact H.
    + right. unfold enqueue. case_bool_decide; [exact H|]. apply in_or_app. left. exact H.
Qed.

Lemma new_candidate_fields (w : World) (d : gmap str bytes) (path : str) :
  Candidate.path (new_candidate w d path) = path
  /\ Candidate.score (new_candidate w d path) = 0%Q
  /\ Candidate.matched (new_candidate w d path) = ∅
  /\ Candidate.name (new_candidate w d path) <> [].
Proof.
  unfold new_candidate.
  destruct (extract_contacts _ path) as [[name email] phone].
  cbn. repeat split. destruct name; discriminate.
Qed.

Lemma new_candidate_text (w : World) (d : gmap str bytes) (path : str) :
  Candidate.text (new_candidate w d path)
  = match parse_pdf_body (env_of w d) path with
    | Returned t => t
    | Raised e => parse_error_text e
    end.
Proof.
  unfold new_candidate. rewrite parse_pdf_of_body.
  destruct (extract_contacts _ path) as [[name email] phone]. reflexivity.
Qed.

Lemma new_candidate_text_shape (w : World) (d : gmap str bytes) (path : str) :
  tidy (Candidate.text (new_candidate w d path)) = true
  \/ startswith PARSE_ERROR (Candidate.text (new_candidate w d path)) = true.
Proof.
  rewrite new_candidate_text.
  destruct (parse_pdf_body (env_of w d) path) as [t|e] eqn:E.
  - left. eapply body_returns_tidy, E.
  - right. apply parse_error_text_marked.
Qed.

(** What the loader does to the lists once it has found new files. *)
Lemma load_paths_lists (w : World) (paths : list str) (st : state) :
  let '(new, d, raised) := expand w (cache_dir st) paths (disk st) in
  (file_queue (_load_paths w paths st) = file_queue st
   /\ candidates (_load_paths w paths st) = candidates st
   /\ filtered (_load_paths w paths st) = filtered st
   /\ (raised <> None \/ new = []))
  \/ (raised = None /\ new <> []
      /\ file_queue (_load_paths w paths st) = fold_left enqueue new (file_queue st)
      /\ candidates (_load_paths w paths st)
         = candidates st
           ++ map (new_candidate w d)
                  (List.filter
                     (fun p => negb (bool_decide (p ∈ map Candidate.path (candidates st))))
                     new)
      /\ filtered (_load_paths w paths st)
         = filter_candidates w (search_var st) (min_score_var st)
                             (candidates (_load_paths w paths st))).
Proof.
  unfold _load_paths.
  destruct (expand w (cache_dir st) paths (disk st)) as [[new d] raised].
  destruct raised as [e|].
  - left. repeat split. left. discriminate.
  - destruct new as [|p new].
    + left. repeat split. right. reflexivity.
    + right. split; [reflexivity|]. split; [discriminate|]. repeat split.
Qed.

(** Property X13.  The loader appends. Whatever is chosen, the queue and the
    candidates a window held stay, in their order, at the head of the new
    lists; the files added to the queue were not in it; and every candidate
    added has the score 0, no matched keyword, a name that is not empty, a
    path that is in the queue and was the path of no candidate before, and a
    text that is either tidy (single spaces between the words, none at the
    ends) or starts with the error marker. *)
Theorem load_paths_appends (w : World) (paths : list str) (st : state) :
  exists (more : list str) (added : list Candidate.t),
    file_queue (_load_paths w paths st) = file_queue st ++ more
    /\ candidates (_load_paths w paths st) = candidates st ++ added
    /\ List.Forall (fun p => ~ In p (file_queue st)) more
    /\ List.Forall
         (fun c => Candidate.score c = 0%Q
                   /\ Candidate.matched c = ∅
                   /\ Candidate.name c <> []
                   /\ In (Candidate.path c) (file_queue (_load_paths w paths st))
                   /\ ~ In (Candidate.path c) (map Candidate.path (candidates st))
                   /\ (tidy (Candidate.text c) = true
                       \/ startswith PARSE_ERROR (Candidate.text c) = true))
         added.
Proof.
  pose proof (load_paths_lists w paths st) as H.
  destruct (expand w (cache_dir st) paths (disk st)) as [[new d] raised].
  destruct H as [(Hq & Hc & _ & _) | (_ & _ & Hq & Hc & _)].
  - exists [], []. rewrite !app_nil_r. repeat split; try assumption; constructor.
  - destruct (enqueue_fold_app new (file_queue st)) as (more & E & Hmore).
    exists more. eexists. split; [rewrite Hq; exact E|]. split; [exact Hc|].
    split.
    + eapply List.Forall_impl; [|exact Hmore]. intros p [_ Hp]. exact Hp.
    + apply List.Forall_forall. intros c Hin.
      apply List.in_map_iff in Hin as (p & <- & Hp).
      apply List.filter_In in Hp as [Hnew Hfresh].
      destruct (new_candidate_fields w d p) as (Epath & Escore & Ematched & Ename).
      rewrite Epath.
      split; [exact Escore|]. split; [exact Ematched|]. split; [exact Ename|].
      split; [|split].
      * rewrite Hq. apply enqueue_fold_In. left. exact Hnew.
      * intros Hold. apply negb_true_iff, bool_decide_eq_false in Hfresh.
        apply Hfresh, list_elem_of_In, Hold.
      * apply new_candidate_text_shape.
Qed.

(** ** Removing the selected files *)

Lemma unselected_above {A : Type} (a i : nat) (sel : list nat) (l : list A) :
  a < i -> unselected (a :: sel) i l = unselected sel i l.
Proof.
  revert i. induction l as [|x l IH]; intros i Hi; [reflexivity|].
  cbn [unselected existsb]. replace (i =? a) with false by (symmetry; apply Nat.eqb_neq; lia).
  cbn [orb]. rewrite IH by lia. reflexivity.
Qed.

Lemma existsb_above (i : nat) (sel : list nat) :
  List.Forall (fun j => i < j) sel -> existsb (Nat.eqb i) sel = false.
Proof.
  induction 1 as [|j sel Hj _ IH]; [reflexivity|].
  cbn [existsb]. rewrite IH. replace (i =? j) with false by (symmetry; apply Nat.eqb_neq; lia).
  reflexivity.
Qed.

(** Deleting a position below all those already deleted. *)
Lemma delete_unselected {A : Type} (a i : nat) (sel : list nat) (l : list A) :
  i <= a -> List.Forall (fun j => a < j) sel ->
  delete (a - i) (unselected sel i l) = unselected (a :: sel) i l.
Proof.
  revert i. induction l as [|x l IH]; intros i Hi Hsel.
  - cbn [unselected]. destruct (a - i); reflexivity.
  - cbn [unselected existsb].
    rewrite (existsb_above i sel)
      by (eapply List.Forall_impl; [|exact Hsel]; intros j Hj; cbn beta in *; lia).
    destruct (i =? a) eqn:E; cbn [orb].
    + apply Nat.eqb_eq in E. subst i. rewrite Nat.sub_diag. cbn [delete list_delete].
      symmetry. apply unselected_above. lia.
    + apply Nat.eqb_neq in E. replace (a - i) with (S (a - S i)) by lia.
      cbn [delete list_delete]. f_equal. apply IH; [lia | exact Hsel].
Qed.

Lemma unselected_lookup {A : Type} (sel : list nat) (i : nat) (l : list A) (x : A) :
  In x (unselected sel i l)
  <-> exists j, l !! j = Some x /\ ~ In (i + j) sel.
Proof.
  revert i. induction l as [|y l IH]; intros i.
  - cbn [unselected]. split; [intros [] | intros (j & Hj & _); destruct j; discriminate].
  - cbn [unselected]. destruct (existsb (Nat.eqb i) sel) eqn:E.
    + rewrite IH. apply existsb_exists in E as (k & Hk & Ek). apply Nat.eqb_eq in Ek. subst k.
      split.
      * intros (j & Hj & Hn). exists (S j). split; [exact Hj|].
        replace (i + S j) with (S i + j) by lia. exact Hn.
      * intros (j & Hj & Hn). destruct j as [|j].
        -- rewrite Nat.add_0_r in Hn. contradiction.
        -- exists j. split; [exact Hj|]. replace (S i + j) with (i + S j) by lia. exact Hn.
    + assert (~ In i sel) as Hi.
      { intros Hin. assert (existsb (Nat.eqb i) sel = true) as Ht
          by (apply existsb_exists; exists i; split; [exact Hin | apply Nat.eqb_refl]).
        congruence. }
      cbn [In]. rewrite IH. split.
      * intros [<- | (j & Hj & Hn)].
        -- exists 0. split; [reflexivity|]. rewrite Nat.add_0_r. exact Hi.
        -- exists (S j). split; [exact Hj|]. replace (i + S j) with (S i + j) by lia. exact Hn.
      * intros (j & Hj & Hn). destruct j as [|j].
        -- left. cbn in Hj. congruence.
        -- right. exists j. split; [exact Hj|].
           replace (S i + j) with (i + S j) by lia. exact Hn.
Qed.

Lemma unselected_none {A : Type} (i : nat) (l : list A) : unselected [] i l = l.
Proof.
  revert i. induction l as [|y m IHm]; intros i; [reflexivity|].
  cbn [unselected existsb]. f_equal. apply IHm.
Qed.

Lemma delete_selected {A : Type} (sel : list nat) (l : list A) :
  StronglySorted lt sel ->
  fold_left (fun q idx => delete idx q) (rev sel) l = unselected sel 0 l.
Proof.
  induction 1 as [|a sel Hs IH Ha].
  - cbn [rev fold_left]. symmetry. apply unselected_none.
  - cbn [rev]. rewrite fold_left_app. cbn [fold_left]. rewrite IH.
    rewrite <- (delete_unselected a 0 sel l) by (lia || exact Ha).
    rewrite Nat.sub_0_r. reflexivity.
Qed.

Lemma remove_selected_lists (w : World) (sel : list nat) (st : state) :
  sel <> [] ->
  file_queue (remove_selected_from_queue w sel st)
  = fold_left (fun q idx => delete idx q) (rev sel) (file_queue st)
  /\ candidates (remove_selected_from_queue w sel st)
     = List.filter (fun c => bool_decide
                               (Candidate.path c
                                ∈ file_queue (remove_selected_from_queue w sel st)))
                   (candidates st)
  /\ filtered (remove_selected_from_queue w sel st)
     = filter_candidates w (search_var st) (min_score_var st)
                         (candidates (remove_selected_from_queue w sel st)).
Proof.
  destruct sel as [|a sel]; [contradiction|]. intros _. repeat split.
Qed.

(** Property X14.  [remove_selected_from_queue] with the positions selected
    in the list, which the list box gives in ascending order: the queue
    loses exactly the files at these positions (a position beyond the end is
    ignored) and the others keep their order; if something was selected, a
    candidate stays if and only if its file is still at a position that was
    not selected, and the table is filtered anew. *)
Theorem remove_selected_spec (w : World) (sel : list nat) (st : state) :
  StronglySorted lt sel ->
  let st' := remove_selected_from_queue w sel st in
  file_queue st' = unselected sel 0 (file_queue st)
  /\ (forall p, In p (file_queue st')
                <-> exists j, file_queue st !! j = Some p /\ ~ In j sel)
  /\ (sel <> [] ->
      (forall c, In c (candidates st')
                 <-> In c (candidates st)
                     /\ exists j, file_queue st !! j = Some (Candidate.path c) /\ ~ In j sel)
      /\ filtered st' = filter_candidates w (search_var st) (min_score_var st)
                                          (candidates st')).
Proof.
  intros Hsel. cbv zeta.
  assert (file_queue (remove_selected_from_queue w sel st)
          = unselected sel 0 (file_queue st)) as Hq.
  { destruct sel as [|a sel].
    - cbn [remove_selected_from_queue]. symmetry. apply unselected_none.
    - destruct (remove_selected_lists w (a :: sel) st) as (E & _); [discriminate|].
      rewrite E. apply delete_selected, Hsel. }
  split; [exact Hq|].
  split; [intros p; rewrite Hq; apply unselected_lookup|].
  intros Hne. destruct (remove_selected_lists w sel st Hne) as (_ & Hc & Hf).
  split; [|exact Hf].
  intros c. rewrite Hc, List.filter_In, bool_decide_eq_true, Hq.
  rewrite list_elem_of_In, unselected_lookup. reflexivity.
Qed.

Lemma remove_selected_spec_witness :
  StronglySorted lt [0; 5]
  /\ file_queue (remove_selected_from_queue plain_world [0; 5] desk) = [py "Y.pdf"]
  /\ map Candidate.name (candidates (remove_selected_from_queue plain_world [0; 5] desk))
     = [py "Y"].
Proof.
  assert (StronglySorted lt [0; 5]) as H
    by (repeat constructor; lia).
  split; [exact H|].
  split; [rewrite (proj1 (remove_selected_spec plain_world [0; 5] desk H)); reflexivity|].
  vm_compute. reflexivity.
Defined.

(** ** The lists of the window stay consistent *)

Lemma fold_delete_NoDup (sel : list nat) (q : list str) :
  List.NoDup q -> List.NoDup (fold_left (fun q idx => delete idx q) sel q).
Proof.
  revert q. induction sel as [|i sel IH]; intros q Hnd; [exact Hnd|].
  cbn [fold_left]. apply IH. apply NoDup_ListNoDup.
  eapply sublist_NoDup; [apply NoDup_ListNoDup, Hnd | apply sublist_delete].
Qed.

Lemma filter_candidates_In (w : World) (search min_raw : str) (cands : list Candidate.t)
  (c : Candidate.t) :
  In c (filter_candidates w search min_raw cands) -> In c cands.
Proof. unfold filter_candidates. intros H. apply List.filter_In in H as [H _]. exact H. Qed.

(** Property X15.  Every method of the window keeps its lists consistent:
    the queue names no file twice, every candidate is a file of the queue,
    and every row of the table is a candidate. *)
Theorem window_stays_consistent (w : World) (a : action) (st : state) :
  consistent st -> consistent (perform w a st).
Proof.
  intros (Hnd & Hcq & Hfc). destruct a as [paths|sel| | |col|]; cbn [perform].
  - (* the loader *)
    pose proof (load_paths_lists w paths st) as H.
    destruct (expand w (cache_dir st) paths (disk st)) as [[new d] raised].
    destruct H as [(Hq & Hc & Hf & _) | (_ & _ & Hq & Hc & Hf)]; unfold consistent.
    + rewrite Hq, Hc, Hf. repeat split; assumption.
    + split; [rewrite Hq; apply enqueue_fold_NoDup, Hnd|]. split.
      * intros c Hin. rewrite Hq. apply enqueue_fold_In.
        rewrite Hc in Hin. apply in_app_or in Hin as [Hold | Hnew].
        -- right. apply Hcq, Hold.
        -- left. apply List.in_map_iff in Hnew as (p & <- & Hp).
           apply List.filter_In in Hp as [Hp _].
           rewrite (proj1 (new_candidate_fields w d p)). exact Hp.
      * intros c Hin. rewrite Hf in Hin. eapply filter_candidates_In, Hin.
  - (* removing the selected files *)
    destruct sel as [|i sel]; [repeat split; assumption|].
    destruct (remove_selected_lists w (i :: sel) st) as (Hq & Hc & Hf); [discriminate|].
    unfold consistent. split; [rewrite Hq; apply fold_delete_NoDup, Hnd|]. split.
    + intros c Hin. rewrite Hc in Hin. apply List.filter_In in Hin as [_ Hin].
      apply bool_decide_eq_true in Hin. apply list_elem_of_In, Hin.
    + intros c Hin. rewrite Hf in Hin. eapply filter_candidates_In, Hin.
  - (* clearing the queue *)
    unfold consistent. cbn. repeat split; [constructor | intros c [] | intros c []].
  - (* ranking *)
    unfold Screen.rank_now. destruct (candidates st) as [|c0 cs] eqn:Ec.
    + unfold consistent. rewrite Ec. repeat split; assumption.
    + unfold consistent, apply_filters, set_lists.
      cbn [file_queue candidates filtered search_var min_score_var].
      split; [exact Hnd|]. split.
      * intros c Hin. rewrite rank_now_eq in Hin.
        apply (Permutation_in _ (sort_perm _)) in Hin.
        apply List.in_map_iff in Hin as (c1 & <- & Hc1).
        pose proof (rescore_identity
                      (Ranker.init (parse_keywords w (kw_var st)) (job_title st)) c1) as E.
        unfold identity_fields in E. injection E as _ _ _ E _ _. rewrite E.
        apply Hcq, Hc1.
      * intros c Hin. eapply filter_candidates_In, Hin.
  - (* sorting by a column *)
    destruct (column_sort col st) as (K & lt & key & reverse & _ & _ & _ & Hs).
    unfold consistent. rewrite Hs.
    replace (file_queue (_sort_by col st)) with (file_queue st) by (destruct col; reflexivity).
    replace (candidates (_sort_by col st)) with (candidates st) by (destruct col; reflexivity).
    repeat split; [exact Hnd | exact Hcq |].
    intros c Hin. apply Hfc. eapply Permutation_in; [exact (sort_by_perm lt key reverse (filtered st)) | exact Hin].
  - (* filtering *)
    unfold consistent, apply_filters, set_lists.
    cbn [file_queue candidates filtered]. repeat split; [exact Hnd | exact Hcq |].
    intros c Hin. eapply filter_candidates_In, Hin.
Qed.

Lemma window_stays_consistent_witness :
  consistent desk /\ consistent (perform plain_world (Remove_selected [1]) desk).
Proof.
  assert (consistent desk) as H.
  { unfold consistent, desk. cbn [file_queue candidates filtered]. split; [|split].
    - constructor; [intros [E | []]; discriminate E|].
      constructor; [intros []|constructor].
    - intros c [<- | [<- | []]]; [left | right; left]; reflexivity.
    - intros c Hc. exact Hc. }
  split; [exact H|]. exact (window_stays_consistent plain_world (Remove_selected [1]) desk H).
Defined.

(** ** A file that cannot be read *)

Lemma score_marked (r : Ranker.t) (rest : str) :
  Ranker.score r (PARSE_ERROR ++ rest) = (0%Q, ∅).
Proof.
  unfold Ranker.score. rewrite lower_app.
  change (lower PARSE_ERROR) with (py "[parse_error]").
  rewrite startswith_app. reflexivity.
Qed.

Lemma pdf_is_no_zip (p : str) :
  endswith (py ".pdf") p = true -> endswith (py ".zip") p = false.
Proof.
  unfold endswith. generalize (rev p). intros r H.
  change (rev (py ".pdf")) with ("f"%char :: rev (py ".pd")) in H.
  change (rev (py ".zip")) with ("p"%char :: rev (py ".zi")).
  destruct r as [|a r]; [discriminate H|]. cbn [startswith] in *.
  apply andb_true_iff in H as [Ea _]. apply Ascii.eqb_eq in Ea. subst a. reflexivity.
Qed.

Lemma expand_unreadable_pdf (w : World) (cache p : str) (d : gmap str bytes) :
  endswith (py ".pdf") (lower p) = true -> d !! p = None ->
  expand w cache [p] d = ([p], d, None).
Proof.
  intros Hpdf Hnone. unfold expand. cbn [fold_left expand_step].
  rewrite (pdf_is_no_zip _ Hpdf), Hpdf. unfold copy2. rewrite Hnone.
  case_bool_decide; reflexivity.
Qed.

(** Property X16.  A PDF that cannot be opened is not lost. Loading its
    path, when no file is there, neither fails nor touches the disk: the
    path goes to the queue, and the candidates get one more, whose text is
    the error marker with the message of the failed read; the next ranking
    keeps this candidate and gives it the score 0 and no matched keyword,
    whatever the keywords are. *)
Theorem unreadable_pdf_listed (w : World) (p : str) (st : state) :
  endswith (py ".pdf") (lower p) = true ->
  disk st !! p = None ->
  ~ In p (map Candidate.path (candidates st)) ->
  let st1 := _load_paths w [p] st in
  exists c,
    candidates st1 = candidates st ++ [c]
    /\ Candidate.path c = p
    /\ Candidate.text c = parse_error_text (open_error w p)
    /\ In p (file_queue st1)
    /\ disk st1 = disk st
    /\ exists c', In c' (candidates (Screen.rank_now w st1))
                  /\ identity_fields c' = identity_fields c
                  /\ Candidate.score c' = 0%Q
                  /\ Candidate.matched c' = ∅.
Proof.
  intros Hpdf Hnone Hfresh. cbv zeta.
  pose proof (load_paths_lists w [p] st) as H.
  assert (disk (_load_paths w [p] st) = disk st) as Hdisk.
  { unfold _load_paths. rewrite (expand_unreadable_pdf _ _ _ _ Hpdf Hnone). reflexivity. }
  rewrite (expand_unreadable_pdf _ _ _ _ Hpdf Hnone) in H.
  destruct H as [(_ & _ & _ & [H | H]) | (_ & _ & Hq & Hc & _)];
    [contradiction H; reflexivity | discriminate H |].
  cbn [List.filter] in Hc.
  assert (bool_decide (p ∈ map Candidate.path (candidates st)) = false) as Enew.
  { apply bool_decide_eq_false. intros Hin. apply Hfresh, list_elem_of_In, Hin. }
  rewrite Enew in Hc. cbn [negb map] in Hc.
  set (c := new_candidate w (disk st) p) in *.
  assert (Candidate.text c = parse_error_text (open_error w p)) as Etext.
  { subst c. rewrite new_candidate_text.
    assert (read w (disk st) p = Raised (open_error w p)) as Eread
      by (unfold read; rewrite Hnone; reflexivity).
    destruct (has_pdfminer w) eqn:Eh; [destruct (pdfminer w) as [extract|] eqn:Ep|].
    - erewrite body_extractor_fails; [reflexivity | exact Eh | | ].
      + cbn [env_of pdfminer_extract_text]. rewrite Ep. reflexivity.
      + cbn beta. rewrite Eread. reflexivity.
    - erewrite body_read_fails; [reflexivity | | exact Eread].
      right. cbn [env_of pdfminer_extract_text]. rewrite Ep. reflexivity.
    - erewrite body_read_fails; [reflexivity | | exact Eread].
      left. exact Eh. }
  exists c. split; [exact Hc|].
  split; [apply (new_candidate_fields w (disk st) p)|].
  split; [exact Etext|].
  split; [rewrite Hq; apply enqueue_fold_In; left; left; reflexivity|].
  split; [exact Hdisk|].
  set (st1 := _load_paths w [p] st) in *.
  set (r := Ranker.init (parse_keywords w (kw_var st1)) (job_title st1)).
  exists (CTkApp.rescore r c).
  split; [|split; [apply rescore_identity|]].
  - unfold Screen.rank_now. rewrite Hc.
    destruct (candidates st ++ [c]) as [|c0 cs] eqn:Eapp;
      [destruct (candidates st); discriminate Eapp|].
    unfold apply_filters, set_lists. cbn [candidates file_queue filtered job_title kw_var].
    rewrite rank_now_eq. fold r.
    eapply Permutation_in; [symmetry; apply sort_perm|].
    apply List.in_map. rewrite <- Eapp. apply in_or_app. right. left. reflexivity.
  - pose proof (rescore_result r c) as E. rewrite Etext in E.
    unfold parse_error_text in E. rewrite score_marked in E.
    injection E as E1 E2. split; assumption.
Qed.

Lemma unreadable_pdf_listed_witness :
  endswith (py ".pdf") (lower (py "Lost.PDF")) = true
  /\ disk desk !! py "Lost.PDF" = None
  /\ ~ In (py "Lost.PDF") (map Candidate.path (candidates desk))
  /\ exists c, candidates (_load_paths plain_world [py "Lost.PDF"] desk)
               = candidates desk ++ [c]
               /\ Candidate.path c = py "Lost.PDF".
Proof.
  assert (endswith (py ".pdf") (lower (py "Lost.PDF")) = true) as H1 by reflexivity.
  assert (disk desk !! py "Lost.PDF" = None) as H2 by reflexivity.
  assert (~ In (py "Lost.PDF") (map Candidate.path (candidates desk))) as H3.
  { intros [E | [E | []]]; discriminate E. }
  split; [exact H1|]. split; [exact H2|]. split; [exact H3|].
  destruct (unreadable_pdf_listed plain_world (py "Lost.PDF") desk H1 H2 H3)
    as (c & Hc & Hp & _).
  exists c. split; assumption.
Defined.

(** ** The same file again *)

Lemma expand_step_pdf (w : World) (cache p : str) (new : list str) (d : gmap str bytes) :
  endswith (py ".pdf") (lower p) = true ->
  expand_step w cache (new, d, None) p
  = match copy2 w p (OsPath.join cache (OsPath.basename p)) d with
    | Returned d' => (new ++ [OsPath.join cache (OsPath.basename p)], d', None)
    | Raised _ => (new ++ [p], d, None)
    end.
Proof.
  intros Hpdf. cbn [expand_step]. rewrite (pdf_is_no_zip _ Hpdf), Hpdf. reflexivity.
Qed.

Lemma expand_pdf (w : World) (cache p : str) (d : gmap str bytes) :
  endswith (py ".pdf") (lower p) = true ->
  exists x d1,
    expand w cache [p] d = ([x], d1, None)
    /\ expand w cache [p] d1 = ([x], d1, None)
    /\ expand w cache [p; p] d = ([x; x], d1, None).
Proof.
  intros Hpdf. unfold expand. cbn [fold_left].
  set (dest := OsPath.join cache (OsPath.basename p)).
  destruct (copy2 w p dest d) as [d'|e] eqn:Ec.
  - exists dest. exists d'.
    assert (copy2 w p dest d' = Returned d') as Ec'.
    { unfold copy2 in *. case_bool_decide as Hsame; [discriminate Ec|].
      destruct (d !! p) as [data|] eqn:Ed; [|discriminate Ec]. injection Ec as <-.
      rewrite lookup_insert_ne by (intros E; apply Hsame; symmetry; exact E).
      rewrite Ed, insert_insert_eq. reflexivity. }
    rewrite !(expand_step_pdf _ _ _ _ _ Hpdf). fold dest. rewrite Ec.
    rewrite !(expand_step_pdf _ _ _ _ _ Hpdf). fold dest. rewrite Ec'.
    repeat split.
  - exists p. exists d.
    rewrite !(expand_step_pdf _ _ _ _ _ Hpdf). fold dest. rewrite Ec.
    rewrite !(expand_step_pdf _ _ _ _ _ Hpdf). fold dest. rewrite Ec.
    repeat split.
Qed.

(** Property X17.  The same PDF again. Loading a PDF a second time changes
    nothing: no queue entry, no candidate, no row is added. But the paths of
    the candidates already present are collected before the new files are
    parsed: a PDF that is named twice in one selection goes to the queue
    once and becomes two candidates. *)
Theorem load_same_pdf_again (w : World) (p : str) (st : state) :
  endswith (py ".pdf") (lower p) = true ->
  _load_paths w [p] (_load_paths w [p] st) = _load_paths w [p] st
  /\ (~ In p (map Candidate.path (candidates st)) ->
      ~ In (OsPath.join (cache_dir st) (OsPath.basename p))
           (map Candidate.path (candidates st)) ->
      exists c, candidates (_load_paths w [p] st) = candidates st ++ [c]
                /\ candidates (_load_paths w [p; p] st) = candidates st ++ [c; c]
                /\ file_queue (_load_paths w [p; p] st) = file_queue (_load_paths w [p] st)).
Proof.
  intros Hpdf.
  destruct (expand_pdf w (cache_dir st) p (disk st) Hpdf) as (x & d1 & E1 & E2 & E3).
  assert (forall q, fold_left enqueue [x] (fold_left enqueue [x] q) = fold_left enqueue [x] q)
    as Hqq.
  { intros q. cbn [fold_left]. unfold enqueue at 1.
    rewrite bool_decide_eq_true_2; [reflexivity|].
    apply list_elem_of_In. apply (enqueue_fold_In [x] q x). left. left. reflexivity. }
  split.
  - unfold _load_paths at 2 3. rewrite E1.
    unfold apply_filters, set_lists.
    cbn [file_queue candidates filtered cache_dir kw_var job_title search_var min_score_var disk].
    unfold _load_paths, set_lists.
    cbn [file_queue candidates filtered cache_dir kw_var job_title search_var min_score_var disk].
    rewrite E2. unfold apply_filters, set_lists.
    cbn [file_queue candidates filtered cache_dir kw_var job_title search_var min_score_var disk].
    rewrite Hqq.
    assert (List.filter
              (fun p0 => negb (bool_decide
                 (p0 ∈ map Candidate.path
                         (candidates st
                          ++ map (new_candidate w d1)
                               (List.filter
                                  (fun p1 => negb (bool_decide
                                     (p1 ∈ map Candidate.path (candidates st)))) [x])))))
              [x] = []) as ->.
    { cbn [List.filter]. destruct (bool_decide (x ∈ map Candidate.path (candidates st))) eqn:Ex.
      - cbn [negb map]. rewrite app_nil_r. rewrite Ex. reflexivity.
      - cbn [negb map]. rewrite bool_decide_eq_true_2; [reflexivity|].
        rewrite map_app. apply elem_of_app. right. cbn [map].
        rewrite (proj1 (new_candidate_fields w d1 x)). left. }
    cbn [map]. rewrite app_nil_r. reflexivity.
  - intros Hp Hdest.
    assert (bool_decide (x ∈ map Candidate.path (candidates st)) = false) as Ex.
    { apply bool_decide_eq_false. intros Hin. apply list_elem_of_In in Hin.
      revert E1. unfold expand. cbn [fold_left expand_step].
      rewrite (pdf_is_no_zip _ Hpdf), Hpdf.
      destruct (copy2 w p _ (disk st)); intros E; injection E as <- _; contradiction. }
    exists (new_candidate w d1 x).
    unfold _load_paths. rewrite E1, E3. unfold apply_filters, set_lists.
    cbn [file_queue candidates filtered]. cbn [List.filter]. rewrite Ex. cbn [negb map].
    split; [reflexivity|]. split; [reflexivity|].
    change (fold_left enqueue [x; x] (file_queue st))
      with (fold_left enqueue [x] (fold_left enqueue [x] (file_queue st))).
    apply Hqq.
Qed.

Lemma load_same_pdf_again_witness :
  endswith (py ".pdf") (lower (py "Z.pdf")) = true
  /\ _load_paths plain_world [py "Z.pdf"] (_load_paths plain_world [py "Z.pdf"] desk)
     = _load_paths plain_world [py "Z.pdf"] desk
  /\ map Candidate.path (candidates (_load_paths plain_world [py "Z.pdf"; py "Z.pdf"] desk))
     = [py "X.pdf"; py "Y.pdf"; py "Z.pdf"; py "Z.pdf"].
Proof.
  assert (endswith (py ".pdf") (lower (py "Z.pdf")) = true) as H by reflexivity.
  split; [exact H|].
  split; [exact (proj1 (load_same_pdf_again plain_world (py "Z.pdf") desk H))|].
  vm_compute. reflexivity.
Defined.

(** ** Two files of the same name *)

(** The candidate of a file depends on the disk through this file only. *)
Lemma new_candidate_ext (w : World) (d d' : gmap str bytes) (path : str) :
  d !! path = d' !! path -> new_candidate w d path = new_candidate w d' path.
Proof.
  intros E.
  assert (parse_pdf (env_of w d) path = parse_pdf (env_of w d') path) as Hp.
  { unfold parse_pdf, parse_pdf_body, env_of.
    cbn [HAS_PDFMINER pdfminer_extract_text read_file decode_ignore].
    unfold read. destruct (pdfminer w) as [extract|]; cbn [fmap option_fmap option_map];
      rewrite E; reflexivity. }
  unfold new_candidate. rewrite Hp. reflexivity.
Qed.

(** Property X18.  Two PDFs of the same file name, chosen together from two
    directories, meet at one path of the cache. The second copy replaces the
    first; the queue gets this path once; and the candidates get the
    document of the second file twice and that of the first file not at all.
    *)
Theorem load_pdfs_same_name (w : World) (p q : str) (dp dq : bytes) (st : state) :
  endswith (py ".pdf") (lower p) = true ->
  endswith (py ".pdf") (lower q) = true ->
  OsPath.basename p = OsPath.basename q ->
  disk st !! p = Some dp -> disk st !! q = Some dq ->
  p <> OsPath.join (cache_dir st) (OsPath.basename p) ->
  q <> OsPath.join (cache_dir st) (OsPath.basename p) ->
  ~ In (OsPath.join (cache_dir st) (OsPath.basename p)) (map Candidate.path (candidates st)) ->
  let dest := OsPath.join (cache_dir st) (OsPath.basename p) in
  let st1 := _load_paths w [p; q] st in
  let c := new_candidate w {[ dest := dq ]} dest in
  disk st1 !! dest = Some dq
  /\ file_queue st1 = enqueue (file_queue st) dest
  /\ candidates st1 = candidates st ++ [c; c]
  /\ Candidate.path c = dest.
Proof.
  intros Hp Hq Hbase Hdp Hdq Hpd Hqd Hfresh. cbv zeta.
  set (dest := OsPath.join (cache_dir st) (OsPath.basename p)) in *.
  assert (expand w (cache_dir st) [p; q] (disk st)
          = ([dest; dest], <[dest := dq]> (<[dest := dp]> (disk st)), None)) as E.
  { unfold expand. cbn [fold_left].
    rewrite (expand_step_pdf _ _ _ _ _ Hp). fold dest. unfold copy2 at 1.
    rewrite bool_decide_eq_false_2 by exact Hpd. rewrite Hdp.
    rewrite (expand_step_pdf _ _ _ _ _ Hq). rewrite <- Hbase. fold dest. unfold copy2.
    rewrite bool_decide_eq_false_2 by exact Hqd.
    rewrite lookup_insert_ne by (intros E; apply Hqd; symmetry; exact E).
    rewrite Hdq. reflexivity. }
  unfold _load_paths. rewrite E. unfold apply_filters, set_lists.
  cbn [disk file_queue candidates filtered].
  split; [apply lookup_insert_eq|].
  split.
  { cbn [fold_left]. unfold enqueue at 1.
    rewrite bool_decide_eq_true_2; [reflexivity|].
    apply list_elem_of_In, (enqueue_fold_In [dest]). left. left. reflexivity. }
  split; [|apply new_candidate_fields].
  cbn [List.filter].
  rewrite bool_decide_eq_false_2
    by (intros Hin; apply Hfresh, list_elem_of_In, Hin).
  cbn [negb map].
  rewrite (new_candidate_ext w (<[dest := dq]> (<[dest := dp]> (disk st))) {[ dest := dq ]} dest)
    by (rewrite lookup_insert_eq, lookup_singleton_eq; reflexivity).
  reflexivity.
Qed.

Lemma load_pdfs_same_name_witness :
  map (fun c => (Candidate.text c, Candidate.path c))
      (candidates (_load_paths plain_world [py "anna/cv.pdf"; py "boris/cv.pdf"] shelf))
  = [(py "Boris Jones python", py "/tmp/ocpro_k3/cv.pdf");
     (py "Boris Jones python", py "/tmp/ocpro_k3/cv.pdf")].
Proof.
  assert (candidates (_load_paths plain_world [py "anna/cv.pdf"; py "boris/cv.pdf"] shelf)
          = candidates shelf
            ++ [new_candidate plain_world
                  {[ py "/tmp/ocpro_k3/cv.pdf" := map byte_of_ascii (py "Boris Jones  python") ]}
                  (py "/tmp/ocpro_k3/cv.pdf");
                new_candidate plain_world
                  {[ py "/tmp/ocpro_k3/cv.pdf" := map byte_of_ascii (py "Boris Jones  python") ]}
                  (py "/tmp/ocpro_k3/cv.pdf")]) as E.
  { refine (proj1 (proj2 (proj2
      (load_pdfs_same_name plain_world (py "anna/cv.pdf") (py "boris/cv.pdf")
         (map byte_of_ascii (py "Anna Smith  sql"))
         (map byte_of_ascii (py "Boris Jones  python")) shelf _ _ _ _ _ _ _ _))));
      try reflexivity; try discriminate.
    intros []. }
  rewrite E. vm_compute. reflexivity.
Defined.

End QueueFacts.

(* ================================================================== *)
(** * Properties of the license manager                                *)
(* ================================================================== *)

Section LicenseFacts.
Import PyStr Re LicenseManager.

Lemma ok_trial (self : t) (now t0 : Z) :
  fingerprint (the_license self) = Some (machine_fingerprint self) ->
  plan (the_license self) = Some (py "trial") \/ plan (the_license self) = None ->
  started (the_license self) = Some t0 ->
  ok self now
  = if (now - t0 <=? 604800)%Z
    then (true, py "Trial: " ++ str_of_Z (7 - Z.quot (now - t0) 86400) ++ py " day(s) left")
    else (false, py "Trial expired. Choose Monthly ($10) or Lifetime ($99).").
Proof.
  intros Hfp Hplan Hst. unfold ok. rewrite Hfp, Hst.
  rewrite bool_decide_eq_true_2 by reflexivity. cbn [negb].
  assert (default (py "trial") (plan (the_license self)) = py "trial") as ->
    by (destruct Hplan as [-> | ->]; reflexivity).
  rewrite bool_decide_eq_true_2 by reflexivity. cbn [default]. cbv zeta. unfold id.
  assert (Qle_bool ((now - t0) # 86400) (inject_Z TRIAL_DAYS) = (now - t0 <=? 604800)%Z) as ->.
  { unfold Qle_bool, inject_Z, TRIAL_DAYS. cbn [Qnum Qden].
    destruct (now - t0 <=? 604800)%Z eqn:E.
    - apply Z.leb_le in E. apply Z.leb_le. lia.
    - apply Z.leb_gt in E. apply Z.leb_gt. lia. }
  reflexivity.
Qed.

(** Property X19.  The trial. A manager that found no license file at the
    time [t0] accepts the trial at the time [now] if and only if no more
    than seven days (604800 seconds) have gone by; while it does, it reports
    seven minus the whole days used, which is 7 during the first day and 0
    on the last second; and a clock set back before [t0] is accepted too. *)
Theorem trial_window (fp : str) (t0 now : Z) :
  let self := init fp None t0 in
  ((ok self now).1 = true <-> (now - t0 <= 604800)%Z)
  /\ ((t0 <= now <= t0 + 604800)%Z ->
      ok self now
      = (true, py "Trial: " ++ str_of_Z (7 - (now - t0) / 86400) ++ py " day(s) left")
      /\ (0 <= 7 - (now - t0) / 86400 <= 7)%Z)
  /\ ((t0 <= now < t0 + 86400)%Z -> ok self now = (true, py "Trial: 7 day(s) left"))
  /\ ((604800 < now - t0)%Z ->
      ok self now = (false, py "Trial expired. Choose Monthly ($10) or Lifetime ($99).")).
Proof.
  cbv zeta.
  assert (ok (init fp None t0) now
          = if (now - t0 <=? 604800)%Z
            then (true, py "Trial: " ++ str_of_Z (7 - Z.quot (now - t0) 86400)
                        ++ py " day(s) left")
            else (false, py "Trial expired. Choose Monthly ($10) or Lifetime ($99).")) as E
    by (apply ok_trial; [reflexivity | left; reflexivity | reflexivity]).
  rewrite E. split; [|split; [|split]].
  - destruct (now - t0 <=? 604800)%Z eqn:El; cbn [fst].
    + apply Z.leb_le in El. split; [intros _; exact El | reflexivity].
    + apply Z.leb_gt in El. split; [discriminate | lia].
  - intros H. rewrite (proj2 (Z.leb_le _ _)) by lia.
    rewrite Z.quot_div_nonneg by lia. split; [reflexivity|].
    assert (0 <= (now - t0) / 86400)%Z by (apply Z.div_pos; lia).
    assert ((now - t0) / 86400 <= 7)%Z by (apply Z.div_le_upper_bound; lia).
    lia.
  - intros H. rewrite (proj2 (Z.leb_le _ _)) by lia.
    rewrite Z.quot_small by lia. reflexivity.
  - intros H. rewrite (proj2 (Z.leb_gt _ _)) by lia. reflexivity.
Qed.

(** Property X20.  The paid plans. [set_plan] takes the three plan names
    only. After "monthly" set at the time [t] the license is accepted up to
    30 days later and no longer; after "lifetime" it is accepted up to the
    second 2147483600 and no longer; either way the answer does not depend
    on what the license held before, nor on whether it could be saved. *)
Theorem set_plan_then_ok (self : t) (t now : Z) (writable : bool) :
  ok (set_plan self (py "monthly") t writable).1 now
  = (if (now <=? t + 2592000)%Z then (true, py "Monthly")
     else (false, py "Subscription expired. Renew Monthly or upgrade to Lifetime."))
  /\ ok (set_plan self (py "lifetime") t writable).1 now
     = (if (now <=? 2147483600)%Z then (true, py "Lifetime")
        else (false, py "Subscription expired. Renew Monthly or upgrade to Lifetime."))
  /\ (forall name, name <> py "lifetime" -> name <> py "monthly" -> name <> py "trial" ->
        set_plan self name t writable = (self, CVProcessor.Raised (CVProcessor.Exn []))).
Proof.
  split; [|split].
  - unfold set_plan, save.
    repeat (case_bool_decide; try discriminate; try congruence). cbn [orb fst].
    unfold ok. cbn [the_license machine_fingerprint fingerprint plan paid_until default].
    repeat (case_bool_decide; try discriminate; try congruence). cbn [negb].
    replace (t + 30 * 24 * 3600)%Z with (t + 2592000)%Z by lia. unfold id.
    destruct (now <=? t + 2592000)%Z; reflexivity.
  - unfold set_plan, save.
    repeat (case_bool_decide; try discriminate; try congruence). cbn [orb fst].
    unfold ok. cbn [the_license machine_fingerprint fingerprint plan paid_until default].
    repeat (case_bool_decide; try discriminate; try congruence). cbn [negb]. unfold id.
    destruct (now <=? 2147483600)%Z; reflexivity.
  - intros name H1 H2 H3. unfold set_plan.
    rewrite !bool_decide_eq_false_2 by assumption. reflexivity.
Qed.

Lemma safe_filter (s : str) : _safe s = List.filter safe_char s.
Proof.
  unfold _safe. rewrite re_sub_class.
  induction s as [|c s IH]; [reflexivity|].
  cbn [flat_map List.filter]. rewrite IH. destruct (safe_char c); reflexivity.
Qed.

(** Property X21.  [_safe] keeps exactly the letters a-z and A-Z, the
    digits, the underscore, the dot and the hyphen, in their order; applying
    it again changes nothing; and so the license file lies in the home
    directory itself, whatever the application id is. *)
Theorem safe_spec (home app_id : str) :
  _safe app_id = List.filter safe_char app_id
  /\ List.Forall (fun c => safe_char c = true) (_safe app_id)
  /\ _safe (_safe app_id) = _safe app_id
  /\ OsPath.basename (license_path home app_id)
     = py "." ++ _safe app_id ++ py ".license.json".
Proof.
  assert (List.Forall (fun c => safe_char c = true) (_safe app_id)) as Hall.
  { rewrite safe_filter. apply List.Forall_forall. intros c Hc.
    apply List.filter_In in Hc as [_ Hc]. exact Hc. }
  split; [apply safe_filter|]. split; [exact Hall|]. split.
  - rewrite (safe_filter (_safe app_id)). apply List.forallb_filter_id.
    apply List.forallb_forall. rewrite List.Forall_forall in Hall. exact Hall.
  - unfold license_path. apply basename_join. intros Hin.
    assert (List.Forall (fun c => safe_char c = true)
                        (py "." ++ _safe app_id ++ py ".license.json")) as Hname.
    { apply List.Forall_app. split; [repeat constructor|].
      apply List.Forall_app. split; [exact Hall | repeat constructor]. }
    rewrite List.Forall_forall in Hname. specialize (Hname _ Hin). discriminate Hname.
Qed.

End LicenseFacts.
